(** * OpenDDNS DNS codec (src/server/c/dns/codec.c)

    A shallow embedding of the DNS message codec and the proofs of its
    specified properties.

    Conventions of the embedding.

    - Target: an LP64 platform (Linux x86-64): [unsigned int] and [int] have
      32 bits, [size_t] and [ssize_t] 64 bits.  Unsigned arithmetic wraps and
      the wrap-around is written out ([to_uint], [to_size_t], ...).
    - Octets in memory ([unsigned char], [uint8_t] array cells) are [byte];
      integer values held in variables and struct fields are [Z].
    - A C array is a [list]; the pointer to it does not know its length, so
      every indexed access goes through [array_get] / [append_int8], which yield
      [Undefined] outside the object.
    - A call either returns ([Done]), has no defined behaviour ([Undefined]),
      or exhausts the fuel of a [while] loop ([OutOfFuel]).
    - Operands of [|] that call [pop_int8] / [pop_int16] are evaluated left to
      right, and [<<] on a promoted [int] is two's complement, as GCC and
      Clang do.
    - [malloc] is assumed to succeed; the bytes it hands out are those of an
      arbitrary [heap]. *)

From Stdlib Require Import ZArith List Lia Bool.
From coqutil Require Import Byte Z.PushPullMod Z.bitblast.
Import ListNotations.
Local Open Scope Z_scope.

(** ** Integer types *)

Definition to_uint16 (z : Z) : Z := z mod 2 ^ 16.
Definition to_uint32 (z : Z) : Z := z mod 2 ^ 32.
(** [unsigned int] *)
Definition to_uint (z : Z) : Z := z mod 2 ^ 32.
Definition to_size_t (z : Z) : Z := z mod 2 ^ 64.

Definition is_uint8 (z : Z) : Prop := 0 <= z < 2 ^ 8.
Definition is_uint16 (z : Z) : Prop := 0 <= z < 2 ^ 16.
Definition is_uint32 (z : Z) : Prop := 0 <= z < 2 ^ 32.

(** ** Outcomes of a call *)

Inductive outcome (A : Type) : Type :=
| Done (a : A)
| Undefined
| OutOfFuel.
Arguments Done {A} a.
Arguments Undefined {A}.
Arguments OutOfFuel {A}.

Definition bind {A B : Type} (o : outcome A) (f : A -> outcome B) : outcome B :=
  match o with
  | Done a => f a
  | Undefined => Undefined
  | OutOfFuel => OutOfFuel
  end.

Notation "x <- e ;; k" := (bind e (fun x => k))
  (at level 61, e at next level, right associativity).
Notation "' p <- e ;; k" := (bind e (fun x => match x with p => k end))
  (at level 61, p pattern, e at next level, right associativity).

(** ** The message structures (codec.h) *)

Record dnsmsg_label_t : Type := {
  name_size : Z;            (* uint8_t *)
  name : list byte          (* uint8_t* *)
}.

Record dnsmsg_question_t : Type := {
  q_labels : list dnsmsg_label_t;
  q_labels_size : Z;        (* uint16_t *)
  q_type : Z;               (* uint16_t *)
  q_class : Z               (* uint16_t *)
}.

Record dnsmsg_rr_t : Type := {
  rr_labels : list dnsmsg_label_t;
  rr_labels_size : Z;       (* uint16_t *)
  rr_type : Z;              (* uint16_t *)
  rr_class : Z;             (* uint16_t *)
  rr_ttl : Z;               (* uint32_t *)
  rr_data_size : Z;         (* uint16_t *)
  rr_data : list byte       (* uint8_t* *)
}.

Record dnsmsg_header_t : Type := {
  id : Z;
  status_flags : Z;
  query_count : Z;
  answer_count : Z;
  authority_count : Z;
  additional_count : Z      (* all uint16_t *)
}.

Record dnsmsg_t : Type := {
  header : dnsmsg_header_t;
  questions : list dnsmsg_question_t;
  answers : list dnsmsg_rr_t;
  authorities : list dnsmsg_rr_t;
  additionals : list dnsmsg_rr_t
}.

(** Modelled from the spec: codec.h is not part of the sources; the spec gives
    the header as six 16-bit fields (12 octets), the label length as an 8-bit
    value, type, class and data_size as 16-bit and ttl as 32-bit values. *)
Definition sizeof_dnsmsg_header_t : Z := 12.
Definition sizeof_name_size : Z := 1.
Definition sizeof_uint8_t : Z := 1.
Definition sizeof_type : Z := 2.
Definition sizeof_class : Z := 2.
Definition sizeof_ttl : Z := 4.
Definition sizeof_data_size : Z := 2.

(** ** Reading: the cursor *)

(** [unsigned char** buffer, ssize_t* buffer_size]: the octets from the read
    position on, and the remaining-length counter.  The counter is kept as a
    mathematical integer: it only decreases, one per read, and a decode that
    starts at 0 or above ends above -2^34, far inside the range of [ssize_t]
    (lemma [interpret_question_walk_counter]).  Taking one off the smallest
    value of [ssize_t] has no defined result in C, and the integer counter
    says nothing about it: the theorems take the counter from where every
    decrement stays above -2^63. *)
Record cursor : Type := {
  c_buffer : list byte;
  c_buffer_size : Z
}.

Definition pop_int8 (c : cursor) : outcome (Z * cursor) :=
  let value := 0 in
  let buffer_size := c_buffer_size c - 1 in
  if 0 <=? buffer_size then
    match c_buffer c with
    | b :: rest =>
        Done (byte.unsigned b, {| c_buffer := rest; c_buffer_size := buffer_size |})
    | [] => Undefined
    end
  else Done (value, {| c_buffer := c_buffer c; c_buffer_size := buffer_size |}).

Definition pop_int16 (c : cursor) : outcome (Z * cursor) :=
  '(hi, c) <- pop_int8 c ;;
  '(lo, c) <- pop_int8 c ;;
  Done (to_uint16 (Z.lor (Z.shiftl hi 8) lo), c).

Definition pop_int32 (c : cursor) : outcome (Z * cursor) :=
  '(hi, c) <- pop_int16 c ;;
  '(lo, c) <- pop_int16 c ;;
  Done (to_uint32 (Z.lor (Z.shiftl hi 16) lo), c).

(** [for (i = 0; i < n; i++) array[i] = read(...)] into a fresh array of [n]
    cells. *)
Fixpoint fill_array {A : Type} (n : nat) (read : cursor -> outcome (A * cursor))
    (c : cursor) : outcome (list A * cursor) :=
  match n with
  | O => Done ([], c)
  | S n' =>
      '(a, c) <- read c ;;
      '(rest, c) <- fill_array n' read c ;;
      Done (a :: rest, c)
  end.

(** [cell = pop_int8(buffer, buffer_size)] for a [uint8_t] cell. *)
Definition pop_octet (c : cursor) : outcome (byte * cursor) :=
  '(v, c) <- pop_int8 c ;;
  Done (byte.of_Z v, c).

(** The [while] loop of [interpret_labels]; [labels] holds the [amount] labels
    read so far.  Growing the array to [amount + 1] cells computes the count in
    [unsigned int]: once that wraps the store [labels[amount]] is outside the
    array. *)
Fixpoint interpret_labels_loop (fuel : nat) (labels : list dnsmsg_label_t)
    (amount : Z) (c : cursor) : outcome (list dnsmsg_label_t * Z * cursor) :=
  match fuel with
  | O => OutOfFuel
  | S fuel' =>
      '(next_size, c) <- pop_int8 c ;;
      if 0 <? next_size then
        if amount + 1 <? 2 ^ 32 then
          '(octets, c) <- fill_array (Z.to_nat next_size) pop_octet c ;;
          interpret_labels_loop fuel'
            (labels ++ [{| name_size := next_size; name := octets |}])
            (amount + 1) c
        else Undefined
      else Done (labels, amount, c)
  end.

(** Every iteration that goes on has read an octet while the counter was
    positive, so the counter (plus one) bounds the number of iterations
    (lemma [interpret_question_fuelled]).  Returns the labels, [*labels_size]
    and the cursor.  When no label was read the pointer returned is the
    uninitialised local; with [*labels_size] at 0 it stands for the empty
    sequence. *)
Definition interpret_labels (c : cursor)
    : outcome (list dnsmsg_label_t * Z * cursor) :=
  '(labels, amount, c) <-
     interpret_labels_loop (S (Z.to_nat (c_buffer_size c))) [] 0 c ;;
  Done (labels, to_uint16 amount, c).

Definition interpret_rr_entry (c : cursor) : outcome (dnsmsg_rr_t * cursor) :=
  '(labels, labels_size, c) <- interpret_labels c ;;
  '(type, c) <- pop_int16 c ;;
  '(class, c) <- pop_int16 c ;;
  '(ttl, c) <- pop_int32 c ;;
  '(data_size, c) <- pop_int16 c ;;
  '(data, c) <- fill_array (Z.to_nat data_size) pop_octet c ;;
  Done ({| rr_labels := labels; rr_labels_size := labels_size;
           rr_type := type; rr_class := class; rr_ttl := ttl;
           rr_data_size := data_size; rr_data := data |}, c).

Definition interpret_rr (amount : Z) (c : cursor)
    : outcome (list dnsmsg_rr_t * cursor) :=
  fill_array (Z.to_nat (to_uint16 amount)) interpret_rr_entry c.

Definition interpret_question_entry (c : cursor)
    : outcome (dnsmsg_question_t * cursor) :=
  '(labels, labels_size, c) <- interpret_labels c ;;
  '(type, c) <- pop_int16 c ;;
  '(class, c) <- pop_int16 c ;;
  Done ({| q_labels := labels; q_labels_size := labels_size;
           q_type := type; q_class := class |}, c).

(** Lines 47 to 64 of [interpret_question]: the walk over the declared
    structure, before the counter is inspected. *)
Definition interpret_question_walk (c : cursor) : outcome (dnsmsg_t * cursor) :=
  '(id, c) <- pop_int16 c ;;
  '(status_flags, c) <- pop_int16 c ;;
  '(query_count, c) <- pop_int16 c ;;
  '(answer_count, c) <- pop_int16 c ;;
  '(authority_count, c) <- pop_int16 c ;;
  '(additional_count, c) <- pop_int16 c ;;
  '(questions, c) <- fill_array (Z.to_nat query_count) interpret_question_entry c ;;
  '(answers, c) <- interpret_rr answer_count c ;;
  '(authorities, c) <- interpret_rr authority_count c ;;
  '(additionals, c) <- interpret_rr additional_count c ;;
  Done ({| header := {| id := id; status_flags := status_flags;
                        query_count := query_count;
                        answer_count := answer_count;
                        authority_count := authority_count;
                        additional_count := additional_count |};
           questions := questions; answers := answers;
           authorities := authorities; additionals := additionals |}, c).

(** [error_flag] is the content of [*error_flag] before the call; the result
    holds the message and the content of [*error_flag] after it. *)
Definition interpret_question (buffer : list byte) (buffer_size : Z)
    (error_flag : Z) : outcome (dnsmsg_t * Z) :=
  '(message, c) <-
     interpret_question_walk {| c_buffer := buffer; c_buffer_size := buffer_size |} ;;
  if c_buffer_size c <? 0
  then Done (message, 1)
  else Done (message, error_flag).

(** ** Sizes *)

(** [array[i]] *)
Definition array_get {A : Type} (array : list A) (i : Z) : outcome A :=
  match nth_error array (Z.to_nat i) with
  | Some a => Done a
  | None => Undefined
  end.

(** [for (i = first; i < first + n; i++) body], on the state [s]. *)
Fixpoint for_loop {S : Type} (n : nat) (i : Z) (body : Z -> S -> outcome S)
    (s : S) : outcome S :=
  match n with
  | O => Done s
  | S n' => s <- body i s ;; for_loop n' (i + 1) body s
  end.

(** [for (i = 0; i < bound; i++) body]; every bound in this file is a
    [uint8_t] or [uint16_t] value, which the [unsigned int] counter reaches
    without wrapping. *)
Definition for_upto {S : Type} (bound : Z) (body : Z -> S -> outcome S)
    (s : S) : outcome S :=
  for_loop (Z.to_nat bound) 0 body s.

Definition calc_labels_size (labels : list dnsmsg_label_t) (labels_size : Z)
    : outcome Z :=
  let size := 1 in
  for_upto (to_uint16 labels_size) (fun i size =>
    label <- array_get labels i ;;
    let size := to_size_t (size + sizeof_name_size) in
    let size := to_size_t (size + to_size_t (name_size label * sizeof_uint8_t)) in
    Done size) size.

Definition calc_resource_records_size (resource_records : list dnsmsg_rr_t)
    (amount : Z) : outcome Z :=
  let size := 0 in
  for_upto (to_uint16 amount) (fun i size =>
    rr <- array_get resource_records i ;;
    labels <- calc_labels_size (rr_labels rr) (rr_labels_size rr) ;;
    let size := to_size_t (size + labels) in
    let size := to_size_t (size + sizeof_type) in
    let size := to_size_t (size + sizeof_class) in
    let size := to_size_t (size + sizeof_ttl) in
    let size := to_size_t (size + sizeof_data_size) in
    let size := to_size_t (size + to_size_t (rr_data_size rr * sizeof_uint8_t)) in
    Done size) size.

Definition calc_message_size (message : dnsmsg_t) : outcome Z :=
  let size := sizeof_dnsmsg_header_t in
  size <- for_upto (query_count (header message)) (fun i size =>
    question <- array_get (questions message) i ;;
    labels <- calc_labels_size (q_labels question) (q_labels_size question) ;;
    let size := to_size_t (size + labels) in
    let size := to_size_t (size + sizeof_type) in
    let size := to_size_t (size + sizeof_class) in
    Done size) size ;;
  answers <- calc_resource_records_size (answers message)
               (answer_count (header message)) ;;
  let size := to_size_t (size + answers) in
  authorities <- calc_resource_records_size (authorities message)
                   (authority_count (header message)) ;;
  let size := to_size_t (size + authorities) in
  additionals <- calc_resource_records_size (additionals message)
                   (additional_count (header message)) ;;
  let size := to_size_t (size + additionals) in
  Done size.

(** ** Writing *)

(** [unsigned char** buffer, unsigned int* index]: the output array and the
    write index. *)
Record writer : Type := {
  w_buffer : list byte;
  w_index : Z
}.

(** [array[i] = v] inside the array. *)
Fixpoint store (array : list byte) (i : nat) (v : byte) : list byte :=
  match array, i with
  | [], _ => []
  | _ :: rest, O => v :: rest
  | b :: rest, S i' => b :: store rest i' v
  end.

Definition append_int8 (value : Z) (w : writer) : outcome writer :=
  if w_index w <? Z.of_nat (length (w_buffer w)) then
    Done {| w_buffer := store (w_buffer w) (Z.to_nat (w_index w)) (byte.of_Z value);
            w_index := to_uint (w_index w + 1) |}
  else Undefined.

Definition append_int16 (value : Z) (w : writer) : outcome writer :=
  let value := to_uint16 value in
  w <- append_int8 (Z.shiftr value 8) w ;;
  append_int8 (Z.land value 255) w.

Definition append_int32 (value : Z) (w : writer) : outcome writer :=
  let value := to_uint32 value in
  w <- append_int16 (Z.shiftr value 16) w ;;
  append_int16 (Z.land value 65535) w.

(** [for (j = 0; j < size; j++) append_int8(buffer, index, octets[j])], the
    inner loop of [append_labels] and of [append_resource_records]. *)
Definition append_octets (octets : list byte) (size : Z) (w : writer)
    : outcome writer :=
  for_upto size (fun j w =>
    octet <- array_get octets j ;;
    append_int8 (byte.unsigned octet) w) w.

Definition append_labels (labels : list dnsmsg_label_t) (labels_size : Z)
    (w : writer) : outcome writer :=
  w <- for_upto (to_uint16 labels_size) (fun i w =>
    label <- array_get labels i ;;
    w <- append_int8 (name_size label) w ;;
    append_octets (name label) (name_size label) w) w ;;
  append_int8 0 w.

Definition append_resource_records (resource_records : list dnsmsg_rr_t)
    (amount : Z) (w : writer) : outcome writer :=
  for_upto (to_uint16 amount) (fun i w =>
    rr <- array_get resource_records i ;;
    w <- append_labels (rr_labels rr) (rr_labels_size rr) w ;;
    w <- append_int16 (rr_type rr) w ;;
    w <- append_int16 (rr_class rr) w ;;
    w <- append_int32 (rr_ttl rr) w ;;
    w <- append_int16 (rr_data_size rr) w ;;
    append_octets (rr_data rr) (rr_data_size rr) w) w.

(** [malloc(size)]: [size] cells holding what the heap held there. *)
Definition malloc (heap : nat -> byte) (size : Z) : list byte :=
  map heap (seq 0 (Z.to_nat size)).

(** The body of [serialize_message]; the result holds the output array with
    the final value of the local [index], and [*buffer_size].  The size goes
    from [size_t] to [ssize_t] and back for [malloc]; it is below 2^43 for
    every message of the C types (lemma [compute_size_bound]), which both
    conversions keep. *)
Definition serialize_message_body (heap : nat -> byte) (message : dnsmsg_t)
    : outcome (writer * Z) :=
  buffer_size <- calc_message_size message ;;
  let w := {| w_buffer := malloc heap buffer_size; w_index := 0 |} in
  w <- append_int16 (id (header message)) w ;;
  w <- append_int16 (status_flags (header message)) w ;;
  w <- append_int16 (query_count (header message)) w ;;
  w <- append_int16 (answer_count (header message)) w ;;
  w <- append_int16 (authority_count (header message)) w ;;
  w <- append_int16 (additional_count (header message)) w ;;
  w <- for_upto (query_count (header message)) (fun i w =>
    question <- array_get (questions message) i ;;
    w <- append_labels (q_labels question) (q_labels_size question) w ;;
    w <- append_int16 (q_type question) w ;;
    append_int16 (q_class question) w) w ;;
  w <- append_resource_records (answers message)
         (answer_count (header message)) w ;;
  w <- append_resource_records (authorities message)
         (authority_count (header message)) w ;;
  w <- append_resource_records (additionals message)
         (additional_count (header message)) w ;;
  Done (w, buffer_size).

(** What the caller gets: [*buffer] and [*buffer_size]. *)
Definition serialize_message (heap : nat -> byte) (message : dnsmsg_t)
    : outcome (list byte * Z) :=
  '(w, buffer_size) <- serialize_message_body heap message ;;
  Done (w_buffer w, buffer_size).

(** ** Header status flags *)

Definition encode_status_flags (qr opcode aa tc rd ra rcode : Z) : Z :=
  let z := 0 in
  to_uint16
    (Z.lor (Z.lor (Z.lor (Z.lor (Z.lor (Z.lor (Z.lor
       (Z.shiftl qr 15) (Z.shiftl opcode 11)) (Z.shiftl aa 10))
       (Z.shiftl tc 9)) (Z.shiftl rd 8)) (Z.shiftl ra 7)) (Z.shiftl z 4))
       rcode).

(** The seven values stored through the out-parameters, in their order. *)
Definition decode_status_flags (status_flags : Z)
    : Z * Z * Z * Z * Z * Z * Z :=
  let status_flags := to_uint16 status_flags in
  (Z.land (Z.shiftr status_flags 15) 1,
   Z.land (Z.shiftr status_flags 11) 15,
   Z.land (Z.shiftr status_flags 10) 1,
   Z.land (Z.shiftr status_flags 9) 1,
   Z.land (Z.shiftr status_flags 8) 1,
   Z.land (Z.shiftr status_flags 7) 1,
   Z.land status_flags 15).

Definition is_truncated (message : dnsmsg_t) : Z :=
  Z.land (Z.shiftr (status_flags (header message)) 9) 1.

(** ** The scenario of the specification *)

Definition octets_of (l : list Z) : list byte := map byte.of_Z l.

Definition example_com_labels : list dnsmsg_label_t :=
  [ {| name_size := 7; name := octets_of [101; 120; 97; 109; 112; 108; 101] |};
    {| name_size := 3; name := octets_of [99; 111; 109] |} ].

Definition example_query : dnsmsg_t :=
  {| header := {| id := 0x1234; status_flags := 0x0100; query_count := 1;
                  answer_count := 0; authority_count := 0;
                  additional_count := 0 |};
     questions := [ {| q_labels := example_com_labels; q_labels_size := 2;
                       q_type := 1; q_class := 1 |} ];
     answers := []; authorities := []; additionals := [] |}.

Definition example_query_octets : list byte :=
  octets_of [0x12; 0x34; 0x01; 0x00; 0x00; 0x01; 0x00; 0x00; 0x00; 0x00; 0x00; 0x00;
             0x07; 101; 120; 97; 109; 112; 108; 101; 0x03; 99; 111; 109; 0x00;
             0x00; 0x01; 0x00; 0x01].

(** ** The wire format (section 6 of the specification) *)

Definition be16 (v : Z) : list byte :=
  [byte.of_Z (Z.shiftr v 8); byte.of_Z (Z.land v 255)].

Definition be32 (v : Z) : list byte :=
  be16 (Z.shiftr v 16) ++ be16 (Z.land v 65535).

Definition wire_label (l : dnsmsg_label_t) : list byte :=
  byte.of_Z (name_size l) :: name l.

Definition wire_labels (ls : list dnsmsg_label_t) : list byte :=
  flat_map wire_label ls ++ [byte.of_Z 0].

Definition wire_question (q : dnsmsg_question_t) : list byte :=
  wire_labels (q_labels q) ++ be16 (q_type q) ++ be16 (q_class q).

Definition wire_rr (r : dnsmsg_rr_t) : list byte :=
  wire_labels (rr_labels r) ++ be16 (rr_type r) ++ be16 (rr_class r)
  ++ be32 (rr_ttl r) ++ be16 (rr_data_size r) ++ rr_data r.

Definition wire_header (h : dnsmsg_header_t) : list byte :=
  be16 (id h) ++ be16 (status_flags h) ++ be16 (query_count h)
  ++ be16 (answer_count h) ++ be16 (authority_count h)
  ++ be16 (additional_count h).

Definition wire_message (m : dnsmsg_t) : list byte :=
  wire_header (header m) ++ flat_map wire_question (questions m)
  ++ flat_map wire_rr (answers m) ++ flat_map wire_rr (authorities m)
  ++ flat_map wire_rr (additionals m).

(** ** The sizes of section 4.5 of the specification *)

Definition sum_of {A : Type} (f : A -> Z) (l : list A) : Z :=
  fold_right (fun a acc => f a + acc) 0 l.

Definition label_list_size (ls : list dnsmsg_label_t) : Z :=
  1 + sum_of (fun l => 1 + name_size l) ls.

Definition question_size (q : dnsmsg_question_t) : Z :=
  label_list_size (q_labels q) + 4.

Definition rr_size (r : dnsmsg_rr_t) : Z :=
  label_list_size (rr_labels r) + 2 + 2 + 4 + 2 + rr_data_size r.

Definition compute_size (m : dnsmsg_t) : Z :=
  12 + sum_of question_size (questions m) + sum_of rr_size (answers m)
  + sum_of rr_size (authorities m) + sum_of rr_size (additionals m).

(** ** Structural validity *)

(** The fields hold values of their C types. *)
Definition label_typed (l : dnsmsg_label_t) : Prop := is_uint8 (name_size l).

Definition question_typed (q : dnsmsg_question_t) : Prop :=
  Forall label_typed (q_labels q) /\ is_uint16 (q_labels_size q)
  /\ is_uint16 (q_type q) /\ is_uint16 (q_class q).

Definition rr_typed (r : dnsmsg_rr_t) : Prop :=
  Forall label_typed (rr_labels r) /\ is_uint16 (rr_labels_size r)
  /\ is_uint16 (rr_type r) /\ is_uint16 (rr_class r) /\ is_uint32 (rr_ttl r)
  /\ is_uint16 (rr_data_size r).

Definition header_typed (h : dnsmsg_header_t) : Prop :=
  is_uint16 (id h) /\ is_uint16 (status_flags h) /\ is_uint16 (query_count h)
  /\ is_uint16 (answer_count h) /\ is_uint16 (authority_count h)
  /\ is_uint16 (additional_count h).

Definition message_typed (m : dnsmsg_t) : Prop :=
  header_typed (header m) /\ Forall question_typed (questions m)
  /\ Forall rr_typed (answers m) /\ Forall rr_typed (authorities m)
  /\ Forall rr_typed (additionals m).

(** Every count is the length of its sequence. *)
Definition question_counted (q : dnsmsg_question_t) : Prop :=
  q_labels_size q = Z.of_nat (length (q_labels q)).

Definition rr_counted (r : dnsmsg_rr_t) : Prop :=
  rr_labels_size r = Z.of_nat (length (rr_labels r)).

Definition message_counted (m : dnsmsg_t) : Prop :=
  query_count (header m) = Z.of_nat (length (questions m))
  /\ answer_count (header m) = Z.of_nat (length (answers m))
  /\ authority_count (header m) = Z.of_nat (length (authorities m))
  /\ additional_count (header m) = Z.of_nat (length (additionals m))
  /\ Forall question_counted (questions m)
  /\ Forall rr_counted (answers m) /\ Forall rr_counted (authorities m)
  /\ Forall rr_counted (additionals m).

(** A label's length is the number of its octets (and, for a label that can
    be read back, at least 1); a record's data_size is the number of its data
    octets. *)
Definition label_sized (l : dnsmsg_label_t) : Prop :=
  name_size l = Z.of_nat (length (name l)).

Definition label_valid (l : dnsmsg_label_t) : Prop :=
  1 <= name_size l <= 255 /\ label_sized l.

Definition question_valid (q : dnsmsg_question_t) : Prop :=
  Forall label_valid (q_labels q).

Definition rr_valid (r : dnsmsg_rr_t) : Prop :=
  Forall label_valid (rr_labels r)
  /\ rr_data_size r = Z.of_nat (length (rr_data r)).

Definition message_valid (m : dnsmsg_t) : Prop :=
  message_typed m /\ message_counted m
  /\ Forall question_valid (questions m)
  /\ Forall rr_valid (answers m) /\ Forall rr_valid (authorities m)
  /\ Forall rr_valid (additionals m).

(** ** Sequential composition over a list *)

Fixpoint fold_outcome {A S : Type} (f : A -> S -> outcome S) (l : list A)
    (s : S) : outcome S :=
  match l with
  | [] => Done s
  | a :: l' => s <- f a s ;; fold_outcome f l' s
  end.

(** Appending the octets [bs] one after the other. *)
Definition write_octets (bs : list byte) (w : writer) : outcome writer :=
  fold_outcome (fun b w => append_int8 (byte.unsigned b) w) bs w.

(** [reads rd a bs]: from a cursor that starts with the octets [bs] and has
    them all within its counter, [rd] returns [a] and consumes exactly [bs]. *)
Definition reads {A : Type} (rd : cursor -> outcome (A * cursor)) (a : A)
    (bs : list byte) : Prop :=
  forall buf n, Z.of_nat (length bs) <= n ->
    rd {| c_buffer := bs ++ buf; c_buffer_size := n |}
    = Done (a, {| c_buffer := buf; c_buffer_size := n - Z.of_nat (length bs) |}).

(** ** A message of more than 2^32 octets *)

(** A message of [n] answer records, each without labels and with [k] data
    octets 'a'. *)
Definition flood_rr (k : nat) : dnsmsg_rr_t :=
  {| rr_labels := []; rr_labels_size := 0; rr_type := 1; rr_class := 1;
     rr_ttl := 0; rr_data_size := Z.of_nat k;
     rr_data := repeat (byte.of_Z 97) k |}.

Definition flood_message (n k : nat) : dnsmsg_t :=
  {| header := {| id := 0; status_flags := 0; query_count := 0;
                  answer_count := Z.of_nat n; authority_count := 0;
                  additional_count := 0 |};
     questions := [];
     answers := repeat (flood_rr k) n;
     authorities := []; additionals := [] |}.

(** 65535 records of 65535 data octets: 4295557122 octets on the wire. *)
Definition big_message : dnsmsg_t :=
  flood_message (Z.to_nat 65535) (Z.to_nat 65535).

Definition zero_heap : nat -> byte := fun _ => byte.of_Z 0.

(** ** Properties of readers *)

(** The counter does not promise more octets than the view holds: what a
    caller owes when it passes a buffer and its size. *)
Definition cursor_ok (c : cursor) : Prop :=
  c_buffer_size c <= Z.of_nat (length (c_buffer c)).

(** [rd] returns from every such cursor of less than 2^32 octets, leaves such a
    cursor and does not raise the counter. *)
Definition total {A : Type} (rd : cursor -> outcome (A * cursor)) : Prop :=
  forall c, cursor_ok c -> c_buffer_size c < 2 ^ 32 ->
    exists a c', rd c = Done (a, c') /\ cursor_ok c'
                 /\ c_buffer_size c' <= c_buffer_size c.

(** The cursor [c] with the octets [s] added at the end of the buffer and [j]
    added to the counter. *)
Definition extend (c : cursor) (s : list byte) (j : Z) : cursor :=
  {| c_buffer := c_buffer c ++ s; c_buffer_size := c_buffer_size c + j |}.

(** [rd] does not raise the counter, and a run that ends with the counter at
    0 or above has not looked past the octets it consumed: it goes the same
    way when the buffer is longer and the counter higher. *)
Definition framed {A : Type} (rd : cursor -> outcome (A * cursor)) : Prop :=
  forall c a c', rd c = Done (a, c') ->
    c_buffer_size c' <= c_buffer_size c
    /\ (0 <= c_buffer_size c' ->
        forall s j, 0 <= j -> rd (extend c s j) = Done (a, extend c' s j)).

(** [rd] never stops for lack of fuel. *)
Definition fuelled {A : Type} (rd : cursor -> outcome (A * cursor)) : Prop :=
  forall c, rd c <> OutOfFuel.

(** [rd] takes the counter at most [B] below zero (below where it was, when
    it was below zero already). *)
Definition lowered {A : Type} (B : Z) (rd : cursor -> outcome (A * cursor))
    : Prop :=
  forall c a c', rd c = Done (a, c') ->
    Z.min (c_buffer_size c) 0 - B <= c_buffer_size c'.

(** ** Checking the flag words one by one *)

(** [P] holds of 0, ..., n - 1. *)
Definition all_below (n : nat) (P : Z -> bool) : bool :=
  forallb P (map Z.of_nat (seq 0 n)).

(** The properties of the status word [word] made of the seven fields. *)
Definition status_flags_ok (word qr opcode aa tc rd ra rcode : Z) : bool :=
  let '(qr', opcode', aa', tc', rd', ra', rcode') := decode_status_flags word in
  (qr' =? qr) && (opcode' =? opcode) && (aa' =? aa) && (tc' =? tc)
  && (rd' =? rd) && (ra' =? ra) && (rcode' =? rcode)
  && (word =? qr * 2 ^ 15 + opcode * 2 ^ 11 + aa * 2 ^ 10 + tc * 2 ^ 9
              + rd * 2 ^ 8 + ra * 2 ^ 7 + 0 * 2 ^ 4 + rcode)
  && (0 <=? word) && (word <? 2 ^ 16)
  && (Z.land (Z.shiftr word 4) 7 =? 0).

(** The message [m] with another status word. *)
Definition with_status_flags (m : dnsmsg_t) (w : Z) : dnsmsg_t :=
  {| header := {| id := id (header m); status_flags := w;
                  query_count := query_count (header m);
                  answer_count := answer_count (header m);
                  authority_count := authority_count (header m);
                  additional_count := additional_count (header m) |};
     questions := questions m; answers := answers m;
     authorities := authorities m; additionals := additionals m |}.

(** ** What a reader returns *)

(** [parses wire ok rd]: what [rd] returns satisfies [ok] at the counter [rd]
    started from; the counter does not rise; and when it ends at 0 or above,
    the octets consumed are the wire form of the result. *)
Definition parses {A : Type} (wire : A -> list byte) (ok : Z -> A -> Prop)
    (rd : cursor -> outcome (A * cursor)) : Prop :=
  forall c a c', rd c = Done (a, c') ->
    ok (c_buffer_size c) a
    /\ c_buffer_size c' <= c_buffer_size c
    /\ (0 <= c_buffer_size c' ->
        c_buffer c = wire a ++ c_buffer c'
        /\ c_buffer_size c = c_buffer_size c' + Z.of_nat (length (wire a))).

(** A name read from counter [N]: labels of 1 to 255 octets, at most
    (N + 1) / 2 of them, and a count that is their number modulo 2^16. *)
Definition labels_read (N : Z) (ls : list dnsmsg_label_t) (labels_size : Z)
    : Prop :=
  Forall label_valid ls /\ labels_size = to_uint16 (Z.of_nat (length ls))
  /\ 2 * Z.of_nat (length ls) <= Z.max N 0 + 1.

Definition question_read (N : Z) (q : dnsmsg_question_t) : Prop :=
  labels_read N (q_labels q) (q_labels_size q)
  /\ is_uint16 (q_type q) /\ is_uint16 (q_class q).

Definition rr_read (N : Z) (r : dnsmsg_rr_t) : Prop :=
  labels_read N (rr_labels r) (rr_labels_size r)
  /\ is_uint16 (rr_type r) /\ is_uint16 (rr_class r) /\ is_uint32 (rr_ttl r)
  /\ is_uint16 (rr_data_size r)
  /\ rr_data_size r = Z.of_nat (length (rr_data r)).

Definition message_read (N : Z) (m : dnsmsg_t) : Prop :=
  header_typed (header m)
  /\ query_count (header m) = Z.of_nat (length (questions m))
  /\ answer_count (header m) = Z.of_nat (length (answers m))
  /\ authority_count (header m) = Z.of_nat (length (authorities m))
  /\ additional_count (header m) = Z.of_nat (length (additionals m))
  /\ Forall (question_read N) (questions m)
  /\ Forall (rr_read N) (answers m) /\ Forall (rr_read N) (authorities m)
  /\ Forall (rr_read N) (additionals m).

(** [rd] takes exactly [size a] off the counter when it returns [a], whether
    the octets were there or not. *)
Definition consumes {A : Type} (size : A -> Z)
    (rd : cursor -> outcome (A * cursor)) : Prop :=
  forall c a c', rd c = Done (a, c') ->
    c_buffer_size c' = c_buffer_size c - size a.

(** A run of [rd] that returns goes the same way whatever follows the buffer:
    it reads no octet beyond the ones the counter covers. *)
Definition confined {A : Type} (rd : cursor -> outcome (A * cursor)) : Prop :=
  forall c a c' s, rd c = Done (a, c') ->
    rd (extend c s 0) = Done (a, extend c' s 0).

(** What the decoder makes of an exhausted buffer: every octet reads as 0. *)
Definition zero_question : dnsmsg_question_t :=
  {| q_labels := []; q_labels_size := 0; q_type := 0; q_class := 0 |}.

Definition zero_rr : dnsmsg_rr_t :=
  {| rr_labels := []; rr_labels_size := 0; rr_type := 0; rr_class := 0;
     rr_ttl := 0; rr_data_size := 0; rr_data := [] |}.

(** The message of header [h] whose entries are all of zeros. *)
Definition header_only (h : dnsmsg_header_t) : dnsmsg_t :=
  {| header := h;
     questions := repeat zero_question (Z.to_nat (query_count h));
     answers := repeat zero_rr (Z.to_nat (answer_count h));
     authorities := repeat zero_rr (Z.to_nat (authority_count h));
     additionals := repeat zero_rr (Z.to_nat (additional_count h)) |}.

Definition zero_header : dnsmsg_header_t :=
  {| id := 0; status_flags := 0; query_count := 0; answer_count := 0;
     authority_count := 0; additional_count := 0 |}.

(** With nothing left under the counter, [rd] returns [z] and takes [k] off
    the counter, whatever the buffer holds. *)
Definition exhausted {A : Type} (z : A) (k : Z)
    (rd : cursor -> outcome (A * cursor)) : Prop :=
  forall buf n, n <= 0 ->
    rd {| c_buffer := buf; c_buffer_size := n |}
    = Done (z, {| c_buffer := buf; c_buffer_size := n - k |}).

(** [P] holds of z, z + 1, ..., z + n - 1. *)
Fixpoint all_from (n : nat) (z : Z) (P : Z -> bool) : bool :=
  match n with
  | O => true
  | S n' => P z && all_from n' (z + 1) P
  end.

(** The properties of the seven fields decoded from the status word [word]. *)
Definition status_word_ok (word : Z) : bool :=
  let '(qr, opcode, aa, tc, rd, ra, rcode) := decode_status_flags word in
  (0 <=? qr) && (qr <=? 1) && (0 <=? opcode) && (opcode <=? 15)
  && (0 <=? aa) && (aa <=? 1) && (0 <=? tc) && (tc <=? 1)
  && (0 <=? rd) && (rd <=? 1) && (0 <=? ra) && (ra <=? 1)
  && (0 <=? rcode) && (rcode <=? 15)
  && (encode_status_flags qr opcode aa tc rd ra rcode =? Z.land word 0xFF8F).

(** * Proofs *)

Ltac bind_done := cbv beta iota delta [bind].

(** ** Integers and octets *)

Lemma to_uint16_small z : is_uint16 z -> to_uint16 z = z.
Proof. intros H. apply Z.mod_small. exact H. Qed.

Lemma to_uint32_small z : is_uint32 z -> to_uint32 z = z.
Proof. intros H. apply Z.mod_small. exact H. Qed.

Lemma to_uint16_range z : is_uint16 (to_uint16 z).
Proof. apply Z.mod_pos_bound. reflexivity. Qed.

Lemma unsigned_is_uint8 b : is_uint8 (byte.unsigned b).
Proof. apply byte.unsigned_range. Qed.

Lemma unsigned_of_Z_small z : is_uint8 z -> byte.unsigned (byte.of_Z z) = z.
Proof.
  intros H. rewrite byte.unsigned_of_Z. apply Z.mod_small. exact H.
Qed.

Lemma shiftr8_is_uint8 v : is_uint16 v -> is_uint8 (Z.shiftr v 8).
Proof.
  unfold is_uint16, is_uint8. intros H. rewrite Z.shiftr_div_pow2 by lia.
  split.
  - apply Z.div_pos; lia.
  - apply Z.div_lt_upper_bound; lia.
Qed.

Lemma land255_is_uint8 v : is_uint8 (Z.land v 255).
Proof.
  unfold is_uint8. change 255 with (Z.ones 8).
  rewrite Z.land_ones by lia. apply Z.mod_pos_bound. reflexivity.
Qed.

Lemma shiftr16_is_uint16 v : is_uint32 v -> is_uint16 (Z.shiftr v 16).
Proof.
  unfold is_uint32, is_uint16. intros H. rewrite Z.shiftr_div_pow2 by lia.
  split.
  - apply Z.div_pos; lia.
  - apply Z.div_lt_upper_bound; lia.
Qed.

Lemma land65535_is_uint16 v : is_uint16 (Z.land v 65535).
Proof.
  unfold is_uint16. change 65535 with (Z.ones 16).
  rewrite Z.land_ones by lia. apply Z.mod_pos_bound. reflexivity.
Qed.

Lemma join_octets v k :
  0 <= k ->
  Z.lor (Z.shiftl (Z.shiftr v k) k) (Z.land v (Z.ones k)) = v.
Proof.
  intros Hk. Z.bitblast.
Qed.

Lemma join_small hi lo k :
  0 <= k -> 0 <= hi < 2 ^ k -> 0 <= lo < 2 ^ k ->
  Z.lor (Z.shiftl hi k) lo mod 2 ^ (k + k) = Z.lor (Z.shiftl hi k) lo.
Proof.
  intros Hk Hhi Hlo.
  rewrite <- (Z.mod_small hi (2 ^ k)), <- (Z.mod_small lo (2 ^ k)) by lia.
  rewrite <- !Z.land_ones by lia.
  Z.bitblast.
Qed.

(** ** The monad *)

Lemma bind_Done {A B : Type} (o : outcome A) (f : A -> outcome B) b :
  bind o f = Done b -> exists a, o = Done a /\ f a = Done b.
Proof. destruct o; simpl; intros H; try discriminate. eauto. Qed.

Lemma bind_assoc {A B C : Type} (o : outcome A) (f : A -> outcome B)
    (g : B -> outcome C) :
  bind (bind o f) g = bind o (fun a => bind (f a) g).
Proof. destruct o; reflexivity. Qed.

Lemma bind_ext {A B : Type} (o : outcome A) (f g : A -> outcome B) :
  (forall a, f a = g a) -> bind o f = bind o g.
Proof. intros H. destruct o; simpl; auto. Qed.

Lemma bind_ret {A : Type} (o : outcome A) : bind o Done = o.
Proof. destruct o; reflexivity. Qed.

(** ** Lists *)

Lemma Forall_and2 {A : Type} (P Q : A -> Prop) l :
  Forall P l -> Forall Q l -> Forall (fun a => P a /\ Q a) l.
Proof. intros HP HQ. rewrite Forall_forall in *. auto. Qed.

Lemma Forall_and3 {A : Type} (P Q R : A -> Prop) l :
  Forall P l -> Forall Q l -> Forall R l ->
  Forall (fun a => P a /\ Q a /\ R a) l.
Proof.
  intros HP HQ HR. rewrite Forall_forall in *. intros a Ha. auto.
Qed.

Lemma Forall_repeat {A : Type} (P : A -> Prop) a n : P a -> Forall P (repeat a n).
Proof.
  intros H. apply Forall_forall. intros x Hx.
  apply repeat_spec in Hx. subst. exact H.
Qed.

Lemma Forall_label_valid_sized ls : Forall label_valid ls -> Forall label_sized ls.
Proof. apply Forall_impl. intros l [_ H]. exact H. Qed.

Lemma flat_map_singleton {A : Type} (l : list A) :
  flat_map (fun a => [a]) l = l.
Proof. induction l as [|a l IH]; simpl; [|rewrite IH]; reflexivity. Qed.

Lemma repeat_split {A : Type} (a : A) n n1 n2 :
  n = (n1 + n2)%nat -> repeat a n = repeat a n1 ++ repeat a n2.
Proof. intros ->. apply repeat_app. Qed.

Lemma sum_of_repeat {A : Type} (f : A -> Z) a n :
  sum_of f (repeat a n) = f a * Z.of_nat n.
Proof.
  induction n as [|n IH].
  - simpl. lia.
  - cbn [repeat sum_of fold_right]. fold (sum_of f (repeat a n)).
    rewrite IH. lia.
Qed.

Lemma sum_of_bound {A : Type} (f : A -> Z) (B : Z) l :
  Forall (fun a => 0 <= f a <= B) l ->
  0 <= sum_of f l <= B * Z.of_nat (length l).
Proof.
  induction 1 as [|a l Ha _ IH].
  - simpl. lia.
  - cbn [sum_of fold_right length]. fold (sum_of f l).
    rewrite Nat2Z.inj_succ, Z.mul_succ_r. lia.
Qed.

Lemma length_flat_map_sum {A : Type} (g : A -> list byte) (f : A -> Z) l :
  Forall (fun a => Z.of_nat (length (g a)) = f a) l ->
  Z.of_nat (length (flat_map g l)) = sum_of f l.
Proof.
  induction 1 as [|a l Ha _ IH]; simpl.
  - reflexivity.
  - rewrite length_app, Nat2Z.inj_add, Ha, IH. reflexivity.
Qed.

(** ** Loops over arrays *)

Lemma array_get_app {A : Type} (pre : list A) a post :
  array_get (pre ++ a :: post) (Z.of_nat (length pre)) = Done a.
Proof.
  unfold array_get. rewrite Nat2Z.id, nth_error_app2 by lia.
  rewrite Nat.sub_diag. reflexivity.
Qed.

Lemma for_loop_array {A S : Type} (f : A -> S -> outcome S) (arr pre : list A) s :
  for_loop (length arr) (Z.of_nat (length pre))
    (fun i s => a <- array_get (pre ++ arr) i ;; f a s) s
  = fold_outcome f arr s.
Proof.
  revert pre s. induction arr as [|a arr IH]; intros pre s; simpl.
  - reflexivity.
  - rewrite array_get_app. simpl. apply bind_ext. intros s'.
    replace (Z.of_nat (length pre) + 1) with (Z.of_nat (length (pre ++ [a])))
      by (rewrite length_app; simpl; lia).
    replace (pre ++ a :: arr) with ((pre ++ [a]) ++ arr)
      by (rewrite <- app_assoc; reflexivity).
    apply IH.
Qed.

(** A [for] loop whose bound is the length of the array it reads visits the
    elements in order. *)
Lemma for_upto_array {A S : Type} (f : A -> S -> outcome S) (arr : list A) n s :
  n = Z.of_nat (length arr) ->
  for_upto n (fun i s => a <- array_get arr i ;; f a s) s = fold_outcome f arr s.
Proof.
  intros ->. unfold for_upto. rewrite Nat2Z.id.
  exact (for_loop_array f arr [] s).
Qed.

Lemma fold_outcome_ext {A S : Type} (f g : A -> S -> outcome S) l :
  Forall (fun a => forall s, f a s = g a s) l ->
  forall s, fold_outcome f l s = fold_outcome g l s.
Proof.
  induction 1 as [|a l Ha _ IH]; intros s; simpl.
  - reflexivity.
  - rewrite Ha. apply bind_ext. exact IH.
Qed.

Lemma fold_outcome_app {A S : Type} (f : A -> S -> outcome S) l1 l2 s :
  fold_outcome f (l1 ++ l2) s = s' <- fold_outcome f l1 s ;; fold_outcome f l2 s'.
Proof.
  revert s. induction l1 as [|a l1 IH]; intros s; simpl.
  - reflexivity.
  - rewrite bind_assoc. apply bind_ext. exact IH.
Qed.

(** ** The cursor *)

Lemma pop_int8_cons b buf n :
  1 <= n ->
  pop_int8 {| c_buffer := b :: buf; c_buffer_size := n |}
  = Done (byte.unsigned b, {| c_buffer := buf; c_buffer_size := n - 1 |}).
Proof.
  intros H. unfold pop_int8. simpl.
  destruct (Z.leb_spec 0 (n - 1)); [reflexivity|lia].
Qed.

Lemma pop_int8_zero_fill buf n :
  n <= 0 ->
  pop_int8 {| c_buffer := buf; c_buffer_size := n |}
  = Done (0, {| c_buffer := buf; c_buffer_size := n - 1 |}).
Proof.
  intros H. unfold pop_int8. simpl.
  destruct (Z.leb_spec 0 (n - 1)); [lia|reflexivity].
Qed.

Lemma pop_int8_Done c v c' :
  pop_int8 c = Done (v, c') ->
  c_buffer_size c' = c_buffer_size c - 1 /\ is_uint8 v.
Proof.
  unfold pop_int8. intros H.
  destruct (0 <=? c_buffer_size c - 1).
  - destruct (c_buffer c); inversion H; subst. simpl.
    split; [reflexivity|apply unsigned_is_uint8].
  - inversion H; subst. simpl. split; [reflexivity|]. unfold is_uint8. lia.
Qed.

Lemma pop_int16_unfold c :
  pop_int16 c
  = '(hi, c) <- pop_int8 c ;; '(lo, c) <- pop_int8 c ;;
    Done (Z.lor (Z.shiftl hi 8) lo, c).
Proof.
  unfold pop_int16.
  destruct (pop_int8 c) as [[hi c1]| |] eqn:E1; try reflexivity. bind_done.
  destruct (pop_int8 c1) as [[lo c2]| |] eqn:E2; try reflexivity. bind_done.
  apply pop_int8_Done in E1, E2. destruct E1 as [_ E1], E2 as [_ E2].
  unfold to_uint16. change (2 ^ 16) with (2 ^ (8 + 8)).
  rewrite join_small; [reflexivity|lia| |]; assumption.
Qed.

Lemma pop_int16_Done c v c' :
  pop_int16 c = Done (v, c') ->
  c_buffer_size c' = c_buffer_size c - 2 /\ is_uint16 v.
Proof.
  unfold pop_int16. intros H.
  apply bind_Done in H. destruct H as ([hi c1] & E1 & H).
  apply bind_Done in H. destruct H as ([lo c2] & E2 & H).
  inversion H; subst. apply pop_int8_Done in E1, E2.
  split; [lia|apply to_uint16_range].
Qed.

Lemma pop_int32_unfold c :
  pop_int32 c
  = '(hi, c) <- pop_int16 c ;; '(lo, c) <- pop_int16 c ;;
    Done (Z.lor (Z.shiftl hi 16) lo, c).
Proof.
  unfold pop_int32.
  destruct (pop_int16 c) as [[hi c1]| |] eqn:E1; try reflexivity. bind_done.
  destruct (pop_int16 c1) as [[lo c2]| |] eqn:E2; try reflexivity. bind_done.
  apply pop_int16_Done in E1, E2. destruct E1 as [_ E1], E2 as [_ E2].
  unfold to_uint32. change (2 ^ 32) with (2 ^ (16 + 16)).
  rewrite join_small; [reflexivity|lia| |]; assumption.
Qed.

Lemma pop_int32_Done c v c' :
  pop_int32 c = Done (v, c') -> c_buffer_size c' = c_buffer_size c - 4.
Proof.
  unfold pop_int32. intros H.
  apply bind_Done in H. destruct H as ([hi c1] & E1 & H).
  apply bind_Done in H. destruct H as ([lo c2] & E2 & H).
  inversion H; subst. apply pop_int16_Done in E1, E2. lia.
Qed.

Lemma pop_int8_returns c :
  cursor_ok c ->
  exists v c', pop_int8 c = Done (v, c') /\ cursor_ok c'
               /\ c_buffer_size c' = c_buffer_size c - 1.
Proof.
  destruct c as [buf n]. intros Hc. unfold cursor_ok, pop_int8 in *. simpl in *.
  destruct (Z.leb_spec 0 (n - 1)).
  - destruct buf as [|b buf]; simpl in *; [lia|].
    eexists _, _. split; [reflexivity|]. simpl. lia.
  - eexists _, _. split; [reflexivity|]. simpl. lia.
Qed.

Lemma pop_int16_returns c :
  cursor_ok c -> exists v c', pop_int16 c = Done (v, c') /\ cursor_ok c'.
Proof.
  intros Hc. unfold pop_int16.
  destruct (pop_int8_returns c Hc) as (hi & c1 & E1 & H1 & _).
  rewrite E1. bind_done.
  destruct (pop_int8_returns c1 H1) as (lo & c2 & E2 & H2 & _).
  rewrite E2. bind_done. eauto.
Qed.

Lemma pop_int32_returns c :
  cursor_ok c -> exists v c', pop_int32 c = Done (v, c') /\ cursor_ok c'.
Proof.
  intros Hc. unfold pop_int32.
  destruct (pop_int16_returns c Hc) as (hi & c1 & E1 & H1).
  rewrite E1. bind_done.
  destruct (pop_int16_returns c1 H1) as (lo & c2 & E2 & H2).
  rewrite E2. bind_done. eauto.
Qed.

(** C3.  From every counter that the decrements leave within [ssize_t]
    (above -2^63 for one octet, from -2^63 + 2 for two, from -2^63 + 4 for
    four): [pop_int8] first takes one off the counter; when the counter is
    then 0 or above it returns the front octet and moves past it, otherwise
    it returns 0 and leaves the view where it was, also when the counter was
    below zero already; it has a result whenever the counter does not exceed
    the view.  [pop_int16] is (first octet << 8) | second octet and takes 2
    off the counter, [pop_int32] is (first [pop_int16] << 16) | second
    [pop_int16] and takes 4 off it. *)
Theorem pop_zero_fill :
  (forall b buf n,
     1 <= n ->
     pop_int8 {| c_buffer := b :: buf; c_buffer_size := n |}
     = Done (byte.unsigned b, {| c_buffer := buf; c_buffer_size := n - 1 |}))
  /\ (forall buf n,
        - 2 ^ 63 < n <= 0 ->
        pop_int8 {| c_buffer := buf; c_buffer_size := n |}
        = Done (0, {| c_buffer := buf; c_buffer_size := n - 1 |}))
  /\ (forall c, cursor_ok c -> - 2 ^ 63 < c_buffer_size c ->
        exists v c', pop_int8 c = Done (v, c') /\ cursor_ok c'
                     /\ c_buffer_size c' = c_buffer_size c - 1)
  /\ (forall c, - 2 ^ 63 + 2 <= c_buffer_size c ->
        pop_int16 c
        = '(hi, c) <- pop_int8 c ;; '(lo, c) <- pop_int8 c ;;
          Done (Z.lor (Z.shiftl hi 8) lo, c))
  /\ (forall c, - 2 ^ 63 + 4 <= c_buffer_size c ->
        pop_int32 c
        = '(hi, c) <- pop_int16 c ;; '(lo, c) <- pop_int16 c ;;
          Done (Z.lor (Z.shiftl hi 16) lo, c))
  /\ (forall c v c', - 2 ^ 63 + 2 <= c_buffer_size c ->
        pop_int16 c = Done (v, c') ->
        c_buffer_size c' = c_buffer_size c - 2)
  /\ (forall c v c', - 2 ^ 63 + 4 <= c_buffer_size c ->
        pop_int32 c = Done (v, c') ->
        c_buffer_size c' = c_buffer_size c - 4)
  /\ (forall c, cursor_ok c -> - 2 ^ 63 + 4 <= c_buffer_size c ->
        (exists v c', pop_int16 c = Done (v, c'))
        /\ (exists v c', pop_int32 c = Done (v, c'))).
Proof.
  split; [exact pop_int8_cons|].
  split; [intros buf n [_ Hn]; apply pop_int8_zero_fill; exact Hn|].
  split; [intros c Hc _; apply pop_int8_returns; exact Hc|].
  split; [intros c _; apply pop_int16_unfold|].
  split; [intros c _; apply pop_int32_unfold|].
  split; [intros c v c' _ H; apply (pop_int16_Done c v c' H)|].
  split; [intros c v c' _ H; apply (pop_int32_Done c v c' H)|].
  intros c Hc _. split.
  - destruct (pop_int16_returns c Hc) as (v & c' & E & _). eauto.
  - destruct (pop_int32_returns c Hc) as (v & c' & E & _). eauto.
Qed.

Lemma pop_zero_fill_witness :
  pop_int8 {| c_buffer := octets_of [0x12; 0x34]; c_buffer_size := 2 |}
  = Done (0x12, {| c_buffer := octets_of [0x34]; c_buffer_size := 1 |})
  /\ pop_int8 {| c_buffer := octets_of [0x12]; c_buffer_size := 0 |}
     = Done (0, {| c_buffer := octets_of [0x12]; c_buffer_size := -1 |})
  /\ pop_int16 {| c_buffer := octets_of [0x12; 0x34]; c_buffer_size := 2 |}
     = Done (0x1234, {| c_buffer := []; c_buffer_size := 0 |})
  /\ pop_int16 {| c_buffer := octets_of [0x12; 0x34]; c_buffer_size := 1 |}
     = Done (0x1200, {| c_buffer := octets_of [0x34]; c_buffer_size := -1 |})
  /\ c_buffer_size {| c_buffer := octets_of [0x34]; c_buffer_size := -3 |}
     = 1 - 4.
Proof.
  destruct pop_zero_fill as (H1 & H2 & _ & H4 & _ & _ & H7 & _).
  split; [apply (H1 (byte.of_Z 0x12) (octets_of [0x34]) 2); lia|].
  split; [apply (H2 (octets_of [0x12]) 0); lia|].
  split; [rewrite H4 by (cbn [c_buffer_size]; lia); reflexivity|].
  split; [rewrite H4 by (cbn [c_buffer_size]; lia); reflexivity|].
  apply (H7 {| c_buffer := octets_of [0x12; 0x34]; c_buffer_size := 1 |}
            0x12000000 {| c_buffer := octets_of [0x34]; c_buffer_size := -3 |}).
  - cbn [c_buffer_size]. lia.
  - reflexivity.
Defined.

(** ** Header status flags *)

Lemma all_below_spec n P z :
  all_below n P = true -> 0 <= z < Z.of_nat n -> P z = true.
Proof.
  unfold all_below. rewrite forallb_forall. intros H Hz. apply H.
  apply in_map_iff. exists (Z.to_nat z). split; [lia|].
  apply in_seq. lia.
Qed.

Lemma all_status_flags_ok :
  all_below 2 (fun qr => all_below 16 (fun opcode => all_below 2 (fun aa =>
  all_below 2 (fun tc => all_below 2 (fun rd => all_below 2 (fun ra =>
  all_below 16 (fun rcode =>
    status_flags_ok (encode_status_flags qr opcode aa tc rd ra rcode)
      qr opcode aa tc rd ra rcode)))))))
  = true.
Proof. vm_cast_no_check (eq_refl true). Qed.

Lemma status_flags_ok_in_range qr opcode aa tc rd ra rcode :
  0 <= qr <= 1 -> 0 <= opcode <= 15 -> 0 <= aa <= 1 -> 0 <= tc <= 1 ->
  0 <= rd <= 1 -> 0 <= ra <= 1 -> 0 <= rcode <= 15 ->
  status_flags_ok (encode_status_flags qr opcode aa tc rd ra rcode)
    qr opcode aa tc rd ra rcode = true.
Proof.
  intros Hqr Hop Haa Htc Hrd Hra Hrc.
  pose proof all_status_flags_ok as H.
  apply (all_below_spec _ _ qr) in H; [|simpl; lia].
  apply (all_below_spec _ _ opcode) in H; [|simpl; lia].
  apply (all_below_spec _ _ aa) in H; [|simpl; lia].
  apply (all_below_spec _ _ tc) in H; [|simpl; lia].
  apply (all_below_spec _ _ rd) in H; [|simpl; lia].
  apply (all_below_spec _ _ ra) in H; [|simpl; lia].
  apply (all_below_spec _ _ rcode) in H; [|simpl; lia].
  exact H.
Qed.

Lemma status_flags_ok_sound word qr opcode aa tc rd ra rcode :
  status_flags_ok word qr opcode aa tc rd ra rcode = true ->
  decode_status_flags word = (qr, opcode, aa, tc, rd, ra, rcode)
  /\ word = qr * 2 ^ 15 + opcode * 2 ^ 11 + aa * 2 ^ 10 + tc * 2 ^ 9
            + rd * 2 ^ 8 + ra * 2 ^ 7 + 0 * 2 ^ 4 + rcode
  /\ is_uint16 word
  /\ Z.land (Z.shiftr word 4) 7 = 0.
Proof.
  intros H. unfold status_flags_ok in H.
  destruct (decode_status_flags word)
    as [[[[[[qr' opcode'] aa'] tc'] rd'] ra'] rcode'].
  rewrite !andb_true_iff in H.
  destruct H as ((((((((((H1 & H2) & H3) & H4) & H5) & H6) & H7) & H8) & H9)
                  & H10) & H11).
  apply Z.eqb_eq in H1, H2, H3, H4, H5, H6, H7, H8, H11.
  apply Z.leb_le in H9. apply Z.ltb_lt in H10.
  split; [congruence|]. split; [exact H8|]. split; [split; assumption|exact H11].
Qed.

(** C6.  For all qr, aa, tc, rd, ra in {0,1} and opcode, rcode in 0..15,
    decoding the word that [encode_status_flags] makes of them gives the same
    seven values back; the word is a 16-bit value with qr in bit 15, opcode in
    bits 14..11, aa, tc, rd, ra in bits 10, 9, 8, 7, zeros in bits 6..4 and
    rcode in bits 3..0. *)
Theorem status_flags_round_trip qr opcode aa tc rd ra rcode :
  0 <= qr <= 1 -> 0 <= opcode <= 15 -> 0 <= aa <= 1 -> 0 <= tc <= 1 ->
  0 <= rd <= 1 -> 0 <= ra <= 1 -> 0 <= rcode <= 15 ->
  decode_status_flags (encode_status_flags qr opcode aa tc rd ra rcode)
  = (qr, opcode, aa, tc, rd, ra, rcode)
  /\ encode_status_flags qr opcode aa tc rd ra rcode
     = qr * 2 ^ 15 + opcode * 2 ^ 11 + aa * 2 ^ 10 + tc * 2 ^ 9 + rd * 2 ^ 8
       + ra * 2 ^ 7 + 0 * 2 ^ 4 + rcode
  /\ is_uint16 (encode_status_flags qr opcode aa tc rd ra rcode)
  /\ Z.land (Z.shiftr (encode_status_flags qr opcode aa tc rd ra rcode) 4) 7 = 0.
Proof.
  intros Hqr Hop Haa Htc Hrd Hra Hrc.
  apply status_flags_ok_sound, status_flags_ok_in_range; assumption.
Qed.

Lemma status_flags_round_trip_witness :
  decode_status_flags (encode_status_flags 1 2 0 1 1 0 3) = (1, 2, 0, 1, 1, 0, 3)
  /\ encode_status_flags 1 2 0 1 1 0 3 = 0x9303.
Proof.
  destruct (status_flags_round_trip 1 2 0 1 1 0 3) as (H1 & H2 & _);
    try lia.
  split; [exact H1|exact H2].
Defined.

Lemma land_shiftr_1 w k :
  0 <= k -> Z.land (Z.shiftr w k) 1 = Z.b2z (Z.testbit w k).
Proof.
  intros Hk. change 1 with (Z.ones 1). rewrite Z.land_ones by lia.
  change (2 ^ 1) with 2. rewrite <- Z.bit0_mod, Z.shiftr_spec, Z.add_0_l by lia.
  reflexivity.
Qed.

(** C9.  For every message and every status word, [is_truncated] is bit 9 of
    the status word as 0 or 1; it is the same for two words that agree on
    bit 9, whatever their other bits. *)
Theorem is_truncated_bit9 :
  (forall m, is_truncated m = Z.b2z (Z.testbit (status_flags (header m)) 9))
  /\ (forall m w, is_truncated (with_status_flags m w) = Z.b2z (Z.testbit w 9))
  /\ (forall m m' w w',
        Z.testbit w 9 = Z.testbit w' 9 ->
        is_truncated (with_status_flags m w)
        = is_truncated (with_status_flags m' w')).
Proof.
  assert (H : forall m,
            is_truncated m = Z.b2z (Z.testbit (status_flags (header m)) 9))
    by (intros m; unfold is_truncated; apply land_shiftr_1; lia).
  split; [exact H|]. split.
  - intros m w. rewrite H. reflexivity.
  - intros m m' w w' Hb. rewrite !H.
    cbn [with_status_flags header status_flags]. rewrite Hb. reflexivity.
Qed.

Lemma is_truncated_bit9_witness :
  is_truncated (with_status_flags example_query 0x0200)
  = is_truncated (with_status_flags example_query 0xFFFF).
Proof.
  destruct is_truncated_bit9 as (_ & _ & H).
  apply (H example_query example_query 0x0200 0xFFFF). reflexivity.
Defined.

(** ** The size of a message *)

Lemma to_size_t_add_l a b : to_size_t (to_size_t a + b) = to_size_t (a + b).
Proof. unfold to_size_t. apply Zplus_mod_idemp_l. Qed.

(** A loop that adds [g a] to the accumulator for each element, wrapping at
    every step, yields the wrapped sum. *)
Lemma fold_outcome_sum {A : Type} (f : A -> Z -> outcome Z) (g : A -> Z) l :
  Forall (fun a => forall s, f a s = Done (to_size_t (s + g a))) l ->
  forall s, fold_outcome f l (to_size_t s) = Done (to_size_t (s + sum_of g l)).
Proof.
  induction 1 as [|a l Ha _ IH]; intros s; simpl.
  - rewrite Z.add_0_r. reflexivity.
  - rewrite Ha. simpl. rewrite to_size_t_add_l, IH. f_equal. f_equal. lia.
Qed.

Lemma calc_labels_size_wrapped labels labels_size :
  labels_size = Z.of_nat (length labels) -> is_uint16 labels_size ->
  calc_labels_size labels labels_size = Done (to_size_t (label_list_size labels)).
Proof.
  intros Hn Hu. unfold calc_labels_size, label_list_size.
  rewrite (to_uint16_small _ Hu).
  rewrite (for_upto_array
             (fun label size =>
                Done (to_size_t (to_size_t (size + sizeof_name_size)
                      + to_size_t (name_size label * sizeof_uint8_t))))
             labels labels_size 1 Hn).
  change 1 with (to_size_t 1) at 1.
  apply fold_outcome_sum. apply Forall_forall. intros l _ s.
  f_equal. unfold to_size_t, sizeof_name_size, sizeof_uint8_t.
  Z.mod_equality.
Qed.

Lemma calc_resource_records_size_wrapped rrs amount :
  amount = Z.of_nat (length rrs) -> is_uint16 amount ->
  Forall rr_typed rrs -> Forall rr_counted rrs ->
  calc_resource_records_size rrs amount = Done (to_size_t (sum_of rr_size rrs)).
Proof.
  intros Hn Hu Ht Hc. unfold calc_resource_records_size.
  rewrite (to_uint16_small _ Hu).
  rewrite (for_upto_array
             (fun rr size =>
                labels <- calc_labels_size (rr_labels rr) (rr_labels_size rr) ;;
                Done (to_size_t (to_size_t (to_size_t (to_size_t (to_size_t
                  (to_size_t (size + labels) + sizeof_type) + sizeof_class)
                  + sizeof_ttl) + sizeof_data_size)
                  + to_size_t (rr_data_size rr * sizeof_uint8_t))))
             rrs amount 0 Hn).
  change 0 with (to_size_t 0) at 1.
  change (sum_of rr_size rrs) with (0 + sum_of rr_size rrs).
  apply fold_outcome_sum.
  rewrite Forall_forall in *. intros r Hr s.
  destruct (Ht r Hr) as (_ & Hls & _).
  rewrite calc_labels_size_wrapped by (auto; exact (Hc r Hr)).
  cbv beta iota delta [bind].
  f_equal. unfold to_size_t, rr_size, sizeof_type, sizeof_class, sizeof_ttl,
    sizeof_data_size, sizeof_uint8_t.
  Z.mod_equality.
Qed.

Lemma calc_message_size_wrapped m :
  message_typed m -> message_counted m ->
  calc_message_size m = Done (to_size_t (compute_size m)).
Proof.
  intros (Hh & Htq & Hta & Htu & Htd)
         (Hnq & Hna & Hnu & Hnd & Hcq & Hca & Hcu & Hcd).
  destruct Hh as (_ & _ & Hqc & Hac & Huc & Hdc).
  unfold calc_message_size.
  rewrite (for_upto_array
             (fun question size =>
                labels <- calc_labels_size (q_labels question)
                            (q_labels_size question) ;;
                Done (to_size_t (to_size_t (to_size_t (size + labels)
                  + sizeof_type) + sizeof_class)))
             (questions m) _ sizeof_dnsmsg_header_t Hnq).
  change sizeof_dnsmsg_header_t with (to_size_t 12) at 1.
  rewrite (fold_outcome_sum _ question_size).
  - cbv beta iota delta [bind].
    rewrite !calc_resource_records_size_wrapped by assumption.
    cbv beta iota delta [bind].
    f_equal. unfold to_size_t, compute_size. Z.mod_equality.
  - rewrite Forall_forall in *. intros q Hq s.
    destruct (Htq q Hq) as (_ & Hls & _).
    rewrite calc_labels_size_wrapped by (auto; exact (Hcq q Hq)).
    cbv beta iota delta [bind].
    f_equal. unfold to_size_t, question_size, sizeof_type, sizeof_class.
    Z.mod_equality.
Qed.

Lemma label_list_size_bound ls :
  Forall label_typed ls ->
  1 <= label_list_size ls <= 1 + 256 * Z.of_nat (length ls).
Proof.
  intros H. unfold label_list_size.
  assert (Hb := sum_of_bound (fun l => 1 + name_size l) 256 ls).
  destruct Hb.
  - eapply Forall_impl; [|exact H]. intros l Hl.
    unfold label_typed, is_uint8 in Hl. change (2 ^ 8) with 256 in Hl. lia.
  - lia.
Qed.

Lemma question_size_bound q :
  question_typed q -> question_counted q ->
  0 <= question_size q <= 16776965.
Proof.
  intros (Hl & Hs & _) Hc. unfold question_size.
  pose proof (label_list_size_bound _ Hl).
  unfold question_counted in Hc. unfold is_uint16 in Hs.
  change (2 ^ 16) with 65536 in Hs. lia.
Qed.

Lemma rr_size_bound r :
  rr_typed r -> rr_counted r -> 0 <= rr_size r <= 16842506.
Proof.
  intros (Hl & Hs & _ & _ & _ & Hd) Hc. unfold rr_size.
  pose proof (label_list_size_bound _ Hl).
  unfold rr_counted in Hc. unfold is_uint16 in Hs, Hd.
  change (2 ^ 16) with 65536 in Hs, Hd. lia.
Qed.

Lemma sum_of_rr_size_bound rrs n :
  n = Z.of_nat (length rrs) -> is_uint16 n ->
  Forall rr_typed rrs -> Forall rr_counted rrs ->
  0 <= sum_of rr_size rrs <= 16842506 * 65535.
Proof.
  intros Hn Hu Ht Hc.
  assert (Hb := sum_of_bound rr_size 16842506 rrs).
  destruct Hb.
  - eapply Forall_impl; [|exact (Forall_and2 _ _ _ Ht Hc)].
    intros r [H1 H2]. apply rr_size_bound; assumption.
  - unfold is_uint16 in Hu. change (2 ^ 16) with 65536 in Hu. lia.
Qed.

(** A message of the C types takes less than 2^43 octets: the size arithmetic
    in [size_t] does not wrap, and the size fits [ssize_t]. *)
Lemma compute_size_bound m :
  message_typed m -> message_counted m -> 12 <= compute_size m < 2 ^ 43.
Proof.
  intros (Hh & Htq & Hta & Htu & Htd)
         (Hnq & Hna & Hnu & Hnd & Hcq & Hca & Hcu & Hcd).
  destruct Hh as (_ & _ & Hqc & Hac & Huc & Hdc).
  unfold compute_size.
  pose proof (sum_of_rr_size_bound _ _ Hna Hac Hta Hca).
  pose proof (sum_of_rr_size_bound _ _ Hnu Huc Htu Hcu).
  pose proof (sum_of_rr_size_bound _ _ Hnd Hdc Htd Hcd).
  assert (Hb := sum_of_bound question_size 16776965 (questions m)).
  destruct Hb.
  - eapply Forall_impl; [|exact (Forall_and2 _ _ _ Htq Hcq)].
    intros q [Hq1 Hq2]. apply question_size_bound; assumption.
  - unfold is_uint16 in Hqc. change (2 ^ 16) with 65536 in Hqc.
    change (2 ^ 43) with 8796093022208. lia.
Qed.

Lemma calc_message_size_eq m :
  message_typed m -> message_counted m ->
  calc_message_size m = Done (compute_size m).
Proof.
  intros Ht Hc. rewrite calc_message_size_wrapped by assumption.
  f_equal. apply Z.mod_small.
  pose proof (compute_size_bound m Ht Hc) as H.
  change (2 ^ 43) with 8796093022208 in H.
  change (2 ^ 64) with 18446744073709551616. lia.
Qed.

Lemma example_query_valid : message_valid example_query.
Proof.
  unfold message_valid, message_typed, message_counted, header_typed,
    example_query.
  cbn [header questions answers authorities additionals id status_flags
       query_count answer_count authority_count additional_count].
  repeat split; repeat constructor;
    try (unfold is_uint8, is_uint16; simpl; lia).
Qed.

(** C4.  For every message [m] (fields of their C types, counts equal to the
    lengths of their sequences), [calc_message_size] returns 12 plus, for each
    question, its label-list size plus 4, plus, for each record of the three
    sections, its label-list size plus 2 + 2 + 4 + 2 + data_size, where the
    label-list size is 1 plus the sum over the labels of 1 + label length. *)
Theorem calc_message_size_formula m :
  message_typed m -> message_counted m ->
  calc_message_size m
  = Done (12
          + sum_of (fun q => label_list_size (q_labels q) + 4) (questions m)
          + sum_of (fun r => label_list_size (rr_labels r) + 2 + 2 + 4 + 2
                             + rr_data_size r) (answers m)
          + sum_of (fun r => label_list_size (rr_labels r) + 2 + 2 + 4 + 2
                             + rr_data_size r) (authorities m)
          + sum_of (fun r => label_list_size (rr_labels r) + 2 + 2 + 4 + 2
                             + rr_data_size r) (additionals m))
  /\ (forall ls, label_list_size ls
                 = 1 + sum_of (fun l => 1 + name_size l) ls).
Proof.
  intros Ht Hc. split; [|reflexivity].
  exact (calc_message_size_eq m Ht Hc).
Qed.

Lemma calc_message_size_formula_witness :
  calc_message_size example_query = Done 29.
Proof.
  destruct (calc_message_size_formula example_query) as [H _].
  - apply example_query_valid.
  - apply example_query_valid.
  - exact H.
Defined.

(** ** The writer emits the wire format *)

Lemma write_octets_app bs1 bs2 w :
  write_octets (bs1 ++ bs2) w = w' <- write_octets bs1 w ;; write_octets bs2 w'.
Proof. apply fold_outcome_app. Qed.

Lemma write_octets_cons b bs w :
  write_octets (b :: bs) w
  = w' <- append_int8 (byte.unsigned b) w ;; write_octets bs w'.
Proof. reflexivity. Qed.

Lemma append_int8_unsigned_of_Z v w :
  append_int8 (byte.unsigned (byte.of_Z v)) w = append_int8 v w.
Proof. unfold append_int8. rewrite byte.of_Z_unsigned. reflexivity. Qed.

Lemma append_int8_write v w : append_int8 v w = write_octets [byte.of_Z v] w.
Proof.
  rewrite write_octets_cons, append_int8_unsigned_of_Z. simpl.
  symmetry. apply bind_ret.
Qed.

Lemma append_int16_write v w :
  is_uint16 v -> append_int16 v w = write_octets (be16 v) w.
Proof.
  intros Hv. unfold append_int16, be16. rewrite (to_uint16_small v Hv).
  rewrite write_octets_cons, append_int8_unsigned_of_Z.
  apply bind_ext. intros w'. apply append_int8_write.
Qed.

Lemma append_int32_write v w :
  is_uint32 v -> append_int32 v w = write_octets (be32 v) w.
Proof.
  intros Hv. unfold append_int32, be32. rewrite (to_uint32_small v Hv).
  rewrite write_octets_app.
  rewrite append_int16_write by (apply shiftr16_is_uint16; exact Hv).
  apply bind_ext. intros w'.
  apply append_int16_write, land65535_is_uint16.
Qed.

Lemma append_octets_write octets size w :
  size = Z.of_nat (length octets) ->
  append_octets octets size w = write_octets octets w.
Proof.
  intros H. unfold append_octets.
  exact (for_upto_array (fun b w => append_int8 (byte.unsigned b) w) octets size w H).
Qed.

Lemma write_flat_map {A : Type} (g : A -> list byte) l w :
  fold_outcome (fun a w => write_octets (g a) w) l w = write_octets (flat_map g l) w.
Proof.
  revert w. induction l as [|a l IH]; intros w; simpl.
  - reflexivity.
  - rewrite write_octets_app. apply bind_ext. exact IH.
Qed.

Lemma append_labels_write labels labels_size w :
  labels_size = Z.of_nat (length labels) -> is_uint16 labels_size ->
  Forall label_sized labels ->
  append_labels labels labels_size w = write_octets (wire_labels labels) w.
Proof.
  intros Hn Hu Hs. unfold append_labels, wire_labels.
  rewrite (to_uint16_small _ Hu).
  rewrite (for_upto_array
             (fun label w => w <- append_int8 (name_size label) w ;;
                             append_octets (name label) (name_size label) w)
             labels labels_size w Hn).
  rewrite write_octets_app.
  rewrite (fold_outcome_ext _ (fun l w => write_octets (wire_label l) w)).
  - rewrite write_flat_map. apply bind_ext. intros w'. apply append_int8_write.
  - eapply Forall_impl; [|exact Hs]. intros l Hl s. unfold wire_label.
    rewrite write_octets_cons, append_int8_unsigned_of_Z.
    apply bind_ext. intros w'. apply append_octets_write. exact Hl.
Qed.

Lemma append_rr_entry_write r w :
  rr_typed r -> rr_counted r -> rr_valid r ->
  (w <- append_labels (rr_labels r) (rr_labels_size r) w ;;
   w <- append_int16 (rr_type r) w ;;
   w <- append_int16 (rr_class r) w ;;
   w <- append_int32 (rr_ttl r) w ;;
   w <- append_int16 (rr_data_size r) w ;;
   append_octets (rr_data r) (rr_data_size r) w)
  = write_octets (wire_rr r) w.
Proof.
  intros (_ & Hls & Ht & Hc & Httl & Hds) Hn (Hl & Hd). unfold wire_rr.
  rewrite append_labels_write
    by (auto using Forall_label_valid_sized).
  rewrite write_octets_app. apply bind_ext. intros w1.
  rewrite append_int16_write, write_octets_app by assumption.
  apply bind_ext. intros w2.
  rewrite append_int16_write, write_octets_app by assumption.
  apply bind_ext. intros w3.
  rewrite append_int32_write, write_octets_app by assumption.
  apply bind_ext. intros w4.
  rewrite append_int16_write, write_octets_app by assumption.
  apply bind_ext. intros w5.
  apply append_octets_write. exact Hd.
Qed.

Lemma append_resource_records_write rrs amount w :
  amount = Z.of_nat (length rrs) -> is_uint16 amount ->
  Forall rr_typed rrs -> Forall rr_counted rrs -> Forall rr_valid rrs ->
  append_resource_records rrs amount w = write_octets (flat_map wire_rr rrs) w.
Proof.
  intros Hn Hu Ht Hc Hv. unfold append_resource_records.
  rewrite (to_uint16_small _ Hu).
  rewrite (for_upto_array
             (fun rr w =>
                w <- append_labels (rr_labels rr) (rr_labels_size rr) w ;;
                w <- append_int16 (rr_type rr) w ;;
                w <- append_int16 (rr_class rr) w ;;
                w <- append_int32 (rr_ttl rr) w ;;
                w <- append_int16 (rr_data_size rr) w ;;
                append_octets (rr_data rr) (rr_data_size rr) w)
             rrs amount w Hn).
  rewrite (fold_outcome_ext _ (fun r w => write_octets (wire_rr r) w)).
  - apply write_flat_map.
  - eapply Forall_impl; [|exact (Forall_and3 _ _ _ _ Ht Hc Hv)].
    intros r (H1 & H2 & H3) s. apply append_rr_entry_write; assumption.
Qed.

Lemma append_question_entry_write q w :
  question_typed q -> question_counted q -> question_valid q ->
  (w <- append_labels (q_labels q) (q_labels_size q) w ;;
   w <- append_int16 (q_type q) w ;;
   append_int16 (q_class q) w)
  = write_octets (wire_question q) w.
Proof.
  intros (_ & Hls & Ht & Hc) Hn Hl. unfold wire_question.
  rewrite append_labels_write
    by (auto using Forall_label_valid_sized).
  rewrite write_octets_app. apply bind_ext. intros w1.
  rewrite append_int16_write, write_octets_app by assumption.
  apply bind_ext. intros w2.
  apply append_int16_write. exact Hc.
Qed.

(** [serialize_message] appends the octets of the wire format, one by one and
    in order, to the array it allocated. *)
Lemma serialize_message_body_write heap m :
  message_valid m ->
  serialize_message_body heap m
  = size <- calc_message_size m ;;
    w <- write_octets (wire_message m)
           {| w_buffer := malloc heap size; w_index := 0 |} ;;
    Done (w, size).
Proof.
  intros ((Hh & Htq & Hta & Htu & Htd)
          & (Hnq & Hna & Hnu & Hnd & Hcq & Hca & Hcu & Hcd)
          & Hvq & Hva & Hvu & Hvd).
  destruct Hh as (Hid & Hsf & Hqc & Hac & Huc & Hdc).
  unfold serialize_message_body. apply bind_ext. intros size.
  unfold wire_message, wire_header. rewrite <- !app_assoc.
  generalize {| w_buffer := malloc heap size; w_index := 0 |}. intros w0.
  rewrite append_int16_write, write_octets_app, bind_assoc by assumption.
  apply bind_ext. intros w1.
  rewrite append_int16_write, write_octets_app, bind_assoc by assumption.
  apply bind_ext. intros w2.
  rewrite append_int16_write, write_octets_app, bind_assoc by assumption.
  apply bind_ext. intros w3.
  rewrite append_int16_write, write_octets_app, bind_assoc by assumption.
  apply bind_ext. intros w4.
  rewrite append_int16_write, write_octets_app, bind_assoc by assumption.
  apply bind_ext. intros w5.
  rewrite append_int16_write, write_octets_app, bind_assoc by assumption.
  apply bind_ext. intros w6.
  rewrite (for_upto_array
             (fun question w =>
                w <- append_labels (q_labels question) (q_labels_size question) w ;;
                w <- append_int16 (q_type question) w ;;
                append_int16 (q_class question) w)
             (questions m) _ w6 Hnq).
  rewrite (fold_outcome_ext _ (fun q w => write_octets (wire_question q) w))
    by (eapply Forall_impl; [|exact (Forall_and3 _ _ _ _ Htq Hcq Hvq)];
        intros q (H1 & H2 & H3) s; apply append_question_entry_write; assumption).
  rewrite write_flat_map, write_octets_app, bind_assoc.
  apply bind_ext. intros w7.
  rewrite append_resource_records_write, write_octets_app, bind_assoc by assumption.
  apply bind_ext. intros w8.
  rewrite append_resource_records_write, write_octets_app, bind_assoc by assumption.
  apply bind_ext. intros w9.
  rewrite append_resource_records_write by assumption.
  reflexivity.
Qed.

(** ** What the writer leaves in the array *)

Lemma store_length array i v : length (store array i v) = length array.
Proof.
  revert i. induction array as [|b array IH]; intros [|i]; simpl; auto.
Qed.

Lemma store_split array i v :
  (i < length array)%nat ->
  store array i v = firstn i array ++ v :: skipn (S i) array.
Proof.
  revert i. induction array as [|b array IH]; intros [|i] H; simpl in *; try lia.
  - reflexivity.
  - f_equal. apply IH. lia.
Qed.

Lemma append_int8_done v buf idx :
  0 <= idx < Z.of_nat (length buf) ->
  append_int8 v {| w_buffer := buf; w_index := idx |}
  = Done {| w_buffer := firstn (Z.to_nat idx) buf ++ byte.of_Z v
                        :: skipn (S (Z.to_nat idx)) buf;
            w_index := to_uint (idx + 1) |}.
Proof.
  intros H. unfold append_int8. simpl.
  destruct (Z.ltb_spec idx (Z.of_nat (length buf))); [|lia].
  rewrite store_split by lia. reflexivity.
Qed.

Lemma firstn_S_store (B : list byte) i b R :
  (i <= length B)%nat ->
  firstn (i + 1) (firstn i B ++ b :: R) = firstn i B ++ [b].
Proof.
  intros H.
  assert (Hf : length (firstn i B) = i) by (apply firstn_length_le; lia).
  rewrite <- Hf at 1.
  rewrite firstn_app_2. reflexivity.
Qed.

Lemma skipn_S_store (B : list byte) i k b :
  (i < length B)%nat ->
  skipn (i + 1 + k) (firstn i B ++ b :: skipn (i + 1) B) = skipn (i + 1 + k) B.
Proof.
  intros H.
  assert (Hf : length (firstn i B) = i) by (apply firstn_length_le; lia).
  rewrite skipn_app, Hf.
  rewrite skipn_all2, app_nil_l by lia.
  replace (i + 1 + k - i)%nat with (S k) by lia.
  rewrite skipn_cons, skipn_skipn. f_equal. lia.
Qed.

(** Writing within the array and without passing the range of the index
    replaces the cells from the index on and leaves the others. *)
Lemma write_octets_done bs : forall buf idx,
  0 <= idx < 2 ^ 32 ->
  idx + Z.of_nat (length bs) <= Z.of_nat (length buf) ->
  idx + Z.of_nat (length bs) <= 2 ^ 32 ->
  write_octets bs {| w_buffer := buf; w_index := idx |}
  = Done {| w_buffer := firstn (Z.to_nat idx) buf ++ bs
                        ++ skipn (Z.to_nat idx + length bs) buf;
            w_index := to_uint (idx + Z.of_nat (length bs)) |}.
Proof.
  induction bs as [|b bs IH]; intros buf idx Hi Hl Hw.
  - simpl. rewrite Nat.add_0_r, firstn_skipn, Z.add_0_r.
    unfold to_uint. rewrite Z.mod_small by lia. reflexivity.
  - rewrite write_octets_cons.
    rewrite length_cons, Nat2Z.inj_succ in Hl, Hw.
    rewrite append_int8_done by lia.
    rewrite byte.of_Z_unsigned.
    replace (S (Z.to_nat idx)) with (Z.to_nat idx + 1)%nat by lia.
    destruct bs as [|b' bs].
    + reflexivity.
    + assert (Hp : 1 <= Z.of_nat (length (b' :: bs)))
        by (rewrite length_cons; lia).
      assert (Hs : to_uint (idx + 1) = idx + 1)
        by (unfold to_uint; apply Z.mod_small; lia).
      cbv beta iota delta [bind]. rewrite Hs, IH.
      * replace (Z.to_nat (idx + 1)) with (Z.to_nat idx + 1)%nat by lia.
        rewrite firstn_S_store by lia.
        rewrite skipn_S_store by lia.
        rewrite <- app_assoc.
        replace (Z.to_nat idx + 1 + length (b' :: bs))%nat
          with (Z.to_nat idx + length (b :: b' :: bs))%nat
          by (rewrite !length_cons; lia).
        replace (idx + 1 + Z.of_nat (length (b' :: bs)))
          with (idx + Z.of_nat (length (b :: b' :: bs)))
          by (rewrite !length_cons; lia).
        reflexivity.
      * lia.
      * rewrite length_app, length_firstn. cbn [length] in *. rewrite length_skipn. lia.
      * lia.
Qed.

(** When the array has at least 2^32 cells the index wraps and no store
    leaves the array. *)
Lemma write_octets_wrapping bs : forall w,
  0 <= w_index w < 2 ^ 32 -> 2 ^ 32 <= Z.of_nat (length (w_buffer w)) ->
  exists buf',
    write_octets bs w
    = Done {| w_buffer := buf';
              w_index := to_uint (w_index w + Z.of_nat (length bs)) |}
    /\ length buf' = length (w_buffer w).
Proof.
  induction bs as [|b bs IH]; intros [buf idx] Hi Hl; simpl in *.
  - exists buf. rewrite Z.add_0_r. unfold to_uint.
    rewrite Z.mod_small by lia. auto.
  - unfold write_octets. simpl. fold (write_octets bs).
    unfold append_int8. simpl.
    destruct (Z.ltb_spec idx (Z.of_nat (length buf))); [|lia]. simpl.
    destruct (IH {| w_buffer := store buf (Z.to_nat idx)
                                  (byte.of_Z (byte.unsigned b));
                    w_index := to_uint (idx + 1) |}) as (buf' & E & L).
    + simpl. apply Z.mod_pos_bound. reflexivity.
    + simpl. rewrite store_length. exact Hl.
    + exists buf'. simpl in *. rewrite E, L, store_length. split; [|reflexivity].
      f_equal. f_equal. unfold to_uint.
      rewrite Zplus_mod_idemp_l. f_equal. lia.
Qed.

(** Past 2^32 octets the index is back at 0 and the following octets
    overwrite the start of the array. *)
Lemma write_octets_wrapped_once bs1 bs2 buf :
  Z.of_nat (length bs1) = 2 ^ 32 -> Z.of_nat (length bs2) <= 2 ^ 32 ->
  Z.of_nat (length bs1) + Z.of_nat (length bs2) <= Z.of_nat (length buf) ->
  exists rest,
    write_octets (bs1 ++ bs2) {| w_buffer := buf; w_index := 0 |}
    = Done {| w_buffer := bs2 ++ rest;
              w_index := to_uint (Z.of_nat (length bs2)) |}.
Proof.
  intros H1 H2 Hb. rewrite write_octets_app.
  destruct (write_octets_wrapping bs1 {| w_buffer := buf; w_index := 0 |})
    as (buf1 & E & L); cbn [w_index w_buffer] in *; try lia.
  rewrite E. bind_done. rewrite Z.add_0_l, H1.
  change (to_uint (2 ^ 32)) with 0.
  rewrite write_octets_done by lia.
  change (Z.to_nat 0) with 0%nat. rewrite firstn_O, app_nil_l, Z.add_0_l.
  eexists. reflexivity.
Qed.

(** C8.  For every label list, [append_labels] puts into the array, from the
    write index on, each label's length octet followed by its octets, in
    order, then one zero octet, and nothing else; for the empty list that
    is the single octet 0. *)
Theorem append_labels_terminated :
  (forall labels labels_size buf idx,
     labels_size = Z.of_nat (length labels) -> is_uint16 labels_size ->
     Forall label_sized labels ->
     0 <= idx ->
     idx + Z.of_nat (length (wire_labels labels)) <= Z.of_nat (length buf) ->
     idx + Z.of_nat (length (wire_labels labels)) < 2 ^ 32 ->
     append_labels labels labels_size {| w_buffer := buf; w_index := idx |}
     = Done {| w_buffer :=
                 firstn (Z.to_nat idx) buf
                 ++ (flat_map (fun l => byte.of_Z (name_size l) :: name l) labels
                     ++ [byte.of_Z 0])
                 ++ skipn (Z.to_nat idx + length (wire_labels labels)) buf;
               w_index := idx + Z.of_nat (length (wire_labels labels)) |})
  /\ (forall buf idx,
        0 <= idx < Z.of_nat (length buf) -> idx + 1 < 2 ^ 32 ->
        append_labels [] 0 {| w_buffer := buf; w_index := idx |}
        = Done {| w_buffer := firstn (Z.to_nat idx) buf ++ [byte.of_Z 0]
                              ++ skipn (Z.to_nat idx + 1) buf;
                  w_index := idx + 1 |}).
Proof.
  assert (G : forall labels labels_size buf idx,
     labels_size = Z.of_nat (length labels) -> is_uint16 labels_size ->
     Forall label_sized labels ->
     0 <= idx ->
     idx + Z.of_nat (length (wire_labels labels)) <= Z.of_nat (length buf) ->
     idx + Z.of_nat (length (wire_labels labels)) < 2 ^ 32 ->
     append_labels labels labels_size {| w_buffer := buf; w_index := idx |}
     = Done {| w_buffer :=
                 firstn (Z.to_nat idx) buf ++ wire_labels labels
                 ++ skipn (Z.to_nat idx + length (wire_labels labels)) buf;
               w_index := idx + Z.of_nat (length (wire_labels labels)) |}).
  { intros labels labels_size buf idx Hn Hu Hs Hi Hb Hw.
    rewrite append_labels_write by assumption.
    rewrite write_octets_done by lia.
    unfold to_uint. rewrite Z.mod_small by lia. reflexivity. }
  split; [exact G|].
  intros buf idx Hi Hw.
  apply (G [] 0 buf idx); try reflexivity; cbn [wire_labels length flat_map app];
    try apply Forall_nil; unfold is_uint16; lia.
Qed.

Lemma append_labels_terminated_witness :
  append_labels example_com_labels 2
    {| w_buffer := malloc zero_heap 13; w_index := 0 |}
  = Done {| w_buffer := octets_of [7; 101; 120; 97; 109; 112; 108; 101;
                                   3; 99; 111; 109; 0];
            w_index := 13 |}
  /\ append_labels [] 0 {| w_buffer := octets_of [1; 2; 3]; w_index := 1 |}
     = Done {| w_buffer := octets_of [1; 0; 3]; w_index := 2 |}.
Proof.
  destruct append_labels_terminated as [H1 H2]. split.
  - apply (H1 example_com_labels 2 (malloc zero_heap 13) 0).
    + reflexivity.
    + unfold is_uint16. lia.
    + repeat constructor.
    + lia.
    + simpl. lia.
    + simpl. lia.
  - apply (H2 (octets_of [1; 2; 3]) 1).
    + simpl. lia.
    + lia.
Defined.

(** ** The length of the output *)

Lemma length_wire_labels ls :
  Forall label_sized ls ->
  Z.of_nat (length (wire_labels ls)) = label_list_size ls.
Proof.
  intros H. unfold wire_labels, label_list_size.
  rewrite length_app, Nat2Z.inj_add.
  rewrite (length_flat_map_sum wire_label (fun l => 1 + name_size l)).
  - cbn [length]. lia.
  - eapply Forall_impl; [|exact H]. intros l Hl. unfold wire_label.
    rewrite length_cons, Nat2Z.inj_succ, Hl. lia.
Qed.

Lemma length_wire_question q :
  question_valid q -> Z.of_nat (length (wire_question q)) = question_size q.
Proof.
  intros H. unfold wire_question, question_size.
  rewrite !length_app, !Nat2Z.inj_add, length_wire_labels
    by (apply Forall_label_valid_sized; exact H).
  unfold be16. cbn [length]. lia.
Qed.

Lemma length_wire_rr r :
  rr_valid r -> Z.of_nat (length (wire_rr r)) = rr_size r.
Proof.
  intros [Hl Hd]. unfold wire_rr, rr_size.
  rewrite !length_app, !Nat2Z.inj_add, length_wire_labels
    by (apply Forall_label_valid_sized; exact Hl).
  rewrite Hd. unfold be32, be16. cbn [length app]. lia.
Qed.

Lemma length_wire_message m :
  message_valid m -> Z.of_nat (length (wire_message m)) = compute_size m.
Proof.
  intros (_ & _ & Hq & Ha & Hu & Hd). unfold wire_message, compute_size.
  rewrite !length_app, !Nat2Z.inj_add.
  rewrite (length_flat_map_sum wire_question question_size)
    by (eapply Forall_impl; [|exact Hq]; apply length_wire_question).
  rewrite !(length_flat_map_sum wire_rr rr_size)
    by (eapply Forall_impl; [|eassumption]; apply length_wire_rr).
  unfold wire_header, be16. cbn [length app]. lia.
Qed.

Lemma malloc_length heap size : 0 <= size -> Z.of_nat (length (malloc heap size)) = size.
Proof.
  intros H. unfold malloc. rewrite length_map, length_seq. lia.
Qed.

(** For a message below 4 GiB the serializer returns the wire format, and
    the final index is its length. *)
Lemma serialize_message_body_done heap m :
  message_valid m -> compute_size m < 2 ^ 32 ->
  serialize_message_body heap m
  = Done ({| w_buffer := wire_message m; w_index := compute_size m |},
          compute_size m).
Proof.
  intros Hv Hs. pose proof Hv as (Ht & Hc & _).
  rewrite serialize_message_body_write by exact Hv.
  rewrite calc_message_size_eq by assumption.
  cbv beta iota delta [bind].
  pose proof (compute_size_bound m Ht Hc) as Hb.
  pose proof (length_wire_message m Hv) as Hl.
  pose proof (malloc_length heap (compute_size m)) as Hm.
  rewrite write_octets_done by lia.
  change (Z.to_nat 0) with 0%nat. rewrite firstn_O, app_nil_l.
  rewrite skipn_all2, app_nil_r by lia.
  rewrite Z.add_0_l, Hl. unfold to_uint. rewrite Z.mod_small by lia.
  reflexivity.
Qed.

Lemma serialize_message_body_wrapped heap m bs1 bs2 :
  message_valid m -> wire_message m = bs1 ++ bs2 ->
  Z.of_nat (length bs1) = 2 ^ 32 -> Z.of_nat (length bs2) < 2 ^ 32 ->
  exists rest,
    serialize_message_body heap m
    = Done ({| w_buffer := bs2 ++ rest; w_index := Z.of_nat (length bs2) |},
            compute_size m).
Proof.
  intros Hv Hw H1 H2. pose proof Hv as (Ht & Hc & _).
  rewrite serialize_message_body_write by exact Hv.
  rewrite calc_message_size_eq by assumption. bind_done.
  pose proof (compute_size_bound m Ht Hc) as Hb.
  pose proof (length_wire_message m Hv) as Hl.
  pose proof (malloc_length heap (compute_size m)) as Hm.
  rewrite Hw in *. rewrite length_app, Nat2Z.inj_add in Hl.
  destruct (write_octets_wrapped_once bs1 bs2 (malloc heap (compute_size m)))
    as (rest & E); try lia.
  rewrite E. bind_done. exists rest.
  unfold to_uint. rewrite Z.mod_small by lia. reflexivity.
Qed.

(** C5, as amended.  For every structurally valid message [m] whose computed
    size is below 2^32, [serialize_message] allocates [compute_size m] octets,
    its write index ends at [compute_size m], and the buffer it returns has
    that length, which is also the size it reports. *)
Theorem serialize_message_length heap m :
  message_valid m -> compute_size m < 2 ^ 32 ->
  exists buffer index,
    calc_message_size m = Done (compute_size m)
    /\ Z.of_nat (length (malloc heap (compute_size m))) = compute_size m
    /\ serialize_message_body heap m
       = Done ({| w_buffer := buffer; w_index := index |}, compute_size m)
    /\ index = compute_size m
    /\ Z.of_nat (length buffer) = compute_size m
    /\ serialize_message heap m = Done (buffer, compute_size m).
Proof.
  intros Hv Hs. pose proof Hv as (Ht & Hc & _).
  exists (wire_message m), (compute_size m).
  pose proof (compute_size_bound m Ht Hc).
  split; [apply calc_message_size_eq; assumption|].
  split; [apply malloc_length; lia|].
  split; [apply serialize_message_body_done; assumption|].
  split; [reflexivity|].
  split; [apply length_wire_message; exact Hv|].
  unfold serialize_message.
  rewrite serialize_message_body_done by assumption. reflexivity.
Qed.

Lemma serialize_message_length_witness :
  exists buffer index,
    calc_message_size example_query = Done (compute_size example_query)
    /\ Z.of_nat (length (malloc zero_heap (compute_size example_query)))
       = compute_size example_query
    /\ serialize_message_body zero_heap example_query
       = Done ({| w_buffer := buffer; w_index := index |},
               compute_size example_query)
    /\ index = compute_size example_query
    /\ Z.of_nat (length buffer) = compute_size example_query
    /\ serialize_message zero_heap example_query
       = Done (buffer, compute_size example_query).
Proof.
  apply (serialize_message_length zero_heap example_query).
  - exact example_query_valid.
  - reflexivity.
Defined.

(** ** A message past 2^32 octets *)

Lemma flood_rr_typed k : Z.of_nat k < 2 ^ 16 -> rr_typed (flood_rr k).
Proof.
  intros H. unfold rr_typed, is_uint16, is_uint32.
  cbn [flood_rr rr_labels rr_labels_size rr_type rr_class rr_ttl rr_data_size].
  repeat split; try apply Forall_nil; lia.
Qed.

Lemma flood_rr_valid k : rr_valid (flood_rr k).
Proof.
  split.
  - apply Forall_nil.
  - cbn [flood_rr rr_data rr_data_size]. rewrite repeat_length. reflexivity.
Qed.

Lemma flood_message_valid n k :
  Z.of_nat n < 2 ^ 16 -> Z.of_nat k < 2 ^ 16 -> message_valid (flood_message n k).
Proof.
  intros Hn Hk.
  unfold message_valid, message_typed, message_counted, header_typed, is_uint16.
  cbn [flood_message header questions answers authorities additionals id
       status_flags query_count answer_count authority_count additional_count].
  rewrite repeat_length.
  repeat split; try apply Forall_nil; try lia;
    apply Forall_repeat;
    [exact (flood_rr_typed k Hk) | reflexivity | exact (flood_rr_valid k)].
Qed.

Lemma rr_size_flood_rr k : rr_size (flood_rr k) = 11 + Z.of_nat k.
Proof.
  unfold rr_size, label_list_size.
  cbn [flood_rr rr_labels rr_data_size sum_of fold_right]. lia.
Qed.

Lemma compute_size_flood_message n k :
  compute_size (flood_message n k) = 12 + (11 + Z.of_nat k) * Z.of_nat n.
Proof.
  unfold compute_size.
  cbn [flood_message questions answers authorities additionals].
  rewrite sum_of_repeat, rr_size_flood_rr. cbn [sum_of fold_right]. lia.
Qed.

Lemma big_message_valid : message_valid big_message.
Proof. apply flood_message_valid; lia. Qed.

Lemma compute_size_big_message : compute_size big_message = 4295557122.
Proof. unfold big_message. rewrite compute_size_flood_message. lia. Qed.

Lemma length_wire_flood_rr k :
  Z.of_nat (length (wire_rr (flood_rr k))) = 11 + Z.of_nat k.
Proof.
  rewrite length_wire_rr by exact (flood_rr_valid k). apply rr_size_flood_rr.
Qed.

(** The octet stream of a flood message, split inside the data of the record
    that follows the first [n1]. *)
Lemma wire_flood_message_split n n1 n2 k k1 k2 :
  n = (n1 + (1 + n2))%nat -> k = (k1 + (2 + k2))%nat ->
  exists bs1 bs2,
    wire_message (flood_message n k)
    = bs1 ++ byte.of_Z 97 :: byte.of_Z 97 :: bs2
    /\ Z.of_nat (length bs1) = 12 + (11 + Z.of_nat k) * Z.of_nat n1 + 11 + Z.of_nat k1
    /\ Z.of_nat (length bs2) = Z.of_nat k2 + (11 + Z.of_nat k) * Z.of_nat n2.
Proof.
  intros Hn Hk.
  exists (wire_header (header (flood_message n k))
          ++ flat_map wire_rr (repeat (flood_rr k) n1)
          ++ (wire_labels [] ++ be16 1 ++ be16 1 ++ be32 0 ++ be16 (Z.of_nat k))
          ++ repeat (byte.of_Z 97) k1),
         (repeat (byte.of_Z 97) k2 ++ flat_map wire_rr (repeat (flood_rr k) n2)).
  split; [|split].
  - unfold wire_message.
    cbn [flood_message questions answers authorities additionals flat_map].
    rewrite !app_nil_r, app_nil_l.
    rewrite (repeat_split (flood_rr k) n n1 (1 + n2) Hn).
    cbn [repeat Nat.add]. rewrite flat_map_app. cbn [flat_map].
    unfold wire_rr at 2.
    cbn [flood_rr rr_labels rr_type rr_class rr_ttl rr_data_size rr_data].
    rewrite (repeat_split (byte.of_Z 97) k k1 (2 + k2) Hk) at 1.
    cbn [repeat Nat.add].
    rewrite <- !app_assoc. cbn [app]. reflexivity.
  - rewrite !length_app, !Nat2Z.inj_add.
    rewrite (length_flat_map_sum wire_rr (fun _ => 11 + Z.of_nat k))
      by (apply Forall_repeat; exact (length_wire_flood_rr k)).
    rewrite sum_of_repeat, !repeat_length.
    unfold wire_header, wire_labels, be32, be16. cbn [length app flat_map].
    lia.
  - rewrite !length_app, !Nat2Z.inj_add.
    rewrite (length_flat_map_sum wire_rr (fun _ => 11 + Z.of_nat k))
      by (apply Forall_repeat; exact (length_wire_flood_rr k)).
    rewrite sum_of_repeat, !repeat_length. lia.
Qed.

(** The stream of [big_message] splits after exactly 2^32 octets, inside the
    data of its 65527th record. *)
Lemma wire_big_message_split :
  exists bs1 bs2,
    wire_message big_message = bs1 ++ byte.of_Z 97 :: byte.of_Z 97 :: bs2
    /\ Z.of_nat (length bs1) = 2 ^ 32
    /\ Z.of_nat (length bs2) = 589824.
Proof.
  destruct (wire_flood_message_split (Z.to_nat 65535) (Z.to_nat 65526)
              (Z.to_nat 8) (Z.to_nat 65535) (Z.to_nat 77) (Z.to_nat 65456))
    as (bs1 & bs2 & Hw & H1 & H2); try lia.
  exists bs1, bs2. split; [exact Hw|]. split; lia.
Qed.

Lemma serialize_big_message heap :
  exists rest,
    serialize_message_body heap big_message
    = Done ({| w_buffer := byte.of_Z 97 :: byte.of_Z 97 :: rest;
               w_index := 589826 |}, 4295557122).
Proof.
  destruct wire_big_message_split as (bs1 & bs2 & Hw & H1 & H2).
  destruct (serialize_message_body_wrapped heap big_message bs1
              (byte.of_Z 97 :: byte.of_Z 97 :: bs2) big_message_valid Hw H1)
    as (rest & E).
  - rewrite !length_cons. lia.
  - exists (bs2 ++ rest). rewrite E, compute_size_big_message.
    rewrite !length_cons. repeat f_equal. lia.
Qed.

(** C5 as stated fails past 4 GiB: for the structurally valid [big_message]
    the write index ends at 589826, not at the 4295557122 of its computed
    size. *)
Lemma write_index_wraps_on_big_message :
  message_valid big_message
  /\ exists w buffer_size,
       serialize_message_body zero_heap big_message = Done (w, buffer_size)
       /\ buffer_size = compute_size big_message
       /\ w_index w = 589826
       /\ w_index w <> compute_size big_message.
Proof.
  split; [exact big_message_valid|].
  destruct (serialize_big_message zero_heap) as (rest & E).
  eexists _, _. split; [exact E|]. rewrite compute_size_big_message.
  cbn [w_index]. repeat split. lia.
Qed.

(** ** Reading back the wire format *)

Lemma reads_pop_int8 b : reads pop_int8 (byte.unsigned b) [b].
Proof. intros buf n H. simpl in H. apply pop_int8_cons. lia. Qed.

Lemma reads_pop_int16 v : is_uint16 v -> reads pop_int16 v (be16 v).
Proof.
  intros Hv buf n H. unfold be16 in *. cbn [length] in H.
  unfold pop_int16. cbn [app].
  rewrite pop_int8_cons by lia. bind_done.
  rewrite pop_int8_cons by lia. bind_done.
  rewrite !unsigned_of_Z_small
    by (apply shiftr8_is_uint8 || apply land255_is_uint8; exact Hv).
  change 255 with (Z.ones 8). rewrite join_octets by lia.
  rewrite to_uint16_small by exact Hv.
  do 3 f_equal. cbn [length]. lia.
Qed.

Lemma reads_pop_int32 v : is_uint32 v -> reads pop_int32 v (be32 v).
Proof.
  intros Hv buf n H. unfold be32 in *.
  rewrite length_app in H. unfold be16 in H. cbn [length] in H.
  unfold pop_int32. rewrite <- app_assoc.
  rewrite (reads_pop_int16 _ (shiftr16_is_uint16 v Hv))
    by (unfold be16; cbn [length]; lia).
  bind_done.
  rewrite (reads_pop_int16 _ (land65535_is_uint16 v))
    by (unfold be16; cbn [length]; lia).
  bind_done.
  change 65535 with (Z.ones 16). rewrite join_octets by lia.
  rewrite to_uint32_small by exact Hv.
  do 3 f_equal. rewrite length_app. unfold be16. cbn [length]. lia.
Qed.

Lemma reads_pop_octet b : reads pop_octet b [b].
Proof.
  intros buf n H. unfold pop_octet.
  rewrite (reads_pop_int8 b) by exact H. bind_done.
  rewrite byte.of_Z_unsigned. reflexivity.
Qed.

(** Filling an array reads the elements one after the other. *)
Lemma reads_fill_array {A : Type} (rd : cursor -> outcome (A * cursor))
    (wire : A -> list byte) l :
  Forall (fun a => reads rd a (wire a)) l ->
  reads (fill_array (length l) rd) l (flat_map wire l).
Proof.
  induction 1 as [|a l Ha _ IH]; intros buf n H.
  - simpl. rewrite Z.sub_0_r. reflexivity.
  - cbn [flat_map length fill_array] in *. rewrite length_app in H.
    rewrite <- app_assoc, Ha by lia. bind_done.
    rewrite IH by lia. bind_done.
    do 3 f_equal. rewrite length_app. lia.
Qed.

Lemma reads_octets bs : reads (fill_array (length bs) pop_octet) bs bs.
Proof.
  pose proof (reads_fill_array pop_octet (fun b => [b]) bs) as R.
  rewrite flat_map_singleton in R.
  apply R. apply Forall_forall. intros b _. apply reads_pop_octet.
Qed.

Lemma interpret_labels_loop_wire ls : forall fuel acc amount buf n,
  Forall label_valid ls ->
  Z.of_nat (length (flat_map wire_label ls)) + 1 <= n ->
  amount + Z.of_nat (length ls) < 2 ^ 32 -> 0 <= amount ->
  (length ls < fuel)%nat ->
  interpret_labels_loop fuel acc amount
    {| c_buffer := flat_map wire_label ls ++ byte.of_Z 0 :: buf;
       c_buffer_size := n |}
  = Done (acc ++ ls, amount + Z.of_nat (length ls),
          {| c_buffer := buf;
             c_buffer_size := n - Z.of_nat (length (flat_map wire_label ls)) - 1 |}).
Proof.
  induction ls as [|l ls IH]; intros fuel acc amount buf n Hv Hn Ha Ha0 Hf;
    (destruct fuel as [|fuel]; [cbn [length] in Hf; lia|]).
  - cbn [flat_map app length interpret_labels_loop] in *.
    rewrite pop_int8_cons by lia. bind_done.
    rewrite byte.unsigned_of_Z. change (byte.wrap 0) with 0.
    change (0 <? 0) with false. cbv iota.
    rewrite app_nil_r, Z.add_0_r, Z.sub_0_r. reflexivity.
  - inversion Hv as [|l' ls' [Hr Hs] Hv']; subst.
    cbn [flat_map length interpret_labels_loop] in *.
    rewrite length_app in Hn. unfold wire_label at 1.
    unfold wire_label at 1 in Hn. rewrite length_cons in Hn.
    rewrite <- app_assoc. cbn [app].
    rewrite pop_int8_cons by lia. bind_done.
    rewrite unsigned_of_Z_small
      by (unfold is_uint8; change (2 ^ 8) with 256; lia).
    destruct (Z.ltb_spec 0 (name_size l)); [|lia].
    destruct (Z.ltb_spec (amount + 1) (2 ^ 32)); [|lia].
    rewrite Hs, Nat2Z.id.
    rewrite (reads_octets (name l)) by lia. bind_done.
    rewrite IH; try assumption; try lia.
    f_equal. f_equal; [f_equal|].
    + rewrite <- app_assoc. f_equal. destruct l as [ns nm]. simpl in *.
      rewrite Hs. reflexivity.
    + lia.
    + f_equal. rewrite length_app. unfold wire_label at 2.
      rewrite length_cons. lia.
Qed.

Lemma reads_interpret_labels ls :
  Forall label_valid ls -> Z.of_nat (length ls) < 2 ^ 16 ->
  reads interpret_labels (ls, Z.of_nat (length ls)) (wire_labels ls).
Proof.
  intros Hv Hl buf n H. unfold interpret_labels, wire_labels in *.
  cbn [c_buffer_size]. rewrite length_app in H. cbn [length] in H.
  assert (Hlen : (length ls <= length (flat_map wire_label ls))%nat).
  { clear. induction ls as [|l ls IH]; simpl; [lia|].
    rewrite length_app. lia. }
  rewrite <- app_assoc. cbn [app].
  rewrite interpret_labels_loop_wire; try assumption; try lia.
  bind_done. rewrite app_nil_l, Z.add_0_l.
  rewrite to_uint16_small by (unfold is_uint16; lia).
  do 3 f_equal. rewrite length_app. cbn [length]. lia.
Qed.

Lemma reads_interpret_rr_entry r :
  rr_typed r -> rr_counted r -> rr_valid r ->
  reads interpret_rr_entry r (wire_rr r).
Proof.
  intros (_ & Hls & Ht & Hc & Httl & Hds) Hn (Hl & Hd) buf n H.
  unfold wire_rr in *. rewrite !length_app in H.
  unfold interpret_rr_entry. rewrite <- !app_assoc.
  unfold rr_counted in Hn. unfold is_uint16 in Hls.
  rewrite (reads_interpret_labels (rr_labels r)) by (assumption || lia).
  bind_done.
  rewrite (reads_pop_int16 _ Ht) by lia. bind_done.
  rewrite (reads_pop_int16 _ Hc) by lia. bind_done.
  rewrite (reads_pop_int32 _ Httl) by lia. bind_done.
  rewrite (reads_pop_int16 _ Hds) by lia. bind_done.
  rewrite Hd at 1. rewrite Nat2Z.id.
  rewrite (reads_octets (rr_data r)) by lia. bind_done.
  f_equal. f_equal.
  - destruct r; simpl in *. congruence.
  - f_equal. rewrite !length_app. lia.
Qed.

Lemma reads_interpret_question_entry q :
  question_typed q -> question_counted q -> question_valid q ->
  reads interpret_question_entry q (wire_question q).
Proof.
  intros (_ & Hls & Ht & Hc) Hn Hl buf n H.
  unfold wire_question in *. rewrite !length_app in H.
  unfold interpret_question_entry. rewrite <- !app_assoc.
  unfold question_counted in Hn. unfold is_uint16 in Hls.
  rewrite (reads_interpret_labels (q_labels q)) by (assumption || lia).
  bind_done.
  rewrite (reads_pop_int16 _ Ht) by lia. bind_done.
  rewrite (reads_pop_int16 _ Hc) by lia. bind_done.
  f_equal. f_equal.
  - destruct q; simpl in *. congruence.
  - f_equal. rewrite !length_app. lia.
Qed.

Lemma reads_interpret_rr rrs amount :
  amount = Z.of_nat (length rrs) -> is_uint16 amount ->
  Forall rr_typed rrs -> Forall rr_counted rrs -> Forall rr_valid rrs ->
  reads (interpret_rr amount) rrs (flat_map wire_rr rrs).
Proof.
  intros Hn Hu Ht Hc Hv. unfold interpret_rr.
  rewrite (to_uint16_small _ Hu), Hn, Nat2Z.id.
  apply reads_fill_array.
  eapply Forall_impl; [|exact (Forall_and3 _ _ _ _ Ht Hc Hv)].
  intros r (H1 & H2 & H3). apply reads_interpret_rr_entry; assumption.
Qed.

(** The walk reads a valid message back from its wire format. *)
Lemma reads_interpret_question_walk m :
  message_valid m -> reads interpret_question_walk m (wire_message m).
Proof.
  intros ((Hh & Htq & Hta & Htu & Htd)
          & (Hnq & Hna & Hnu & Hnd & Hcq & Hca & Hcu & Hcd)
          & Hvq & Hva & Hvu & Hvd) buf n H.
  destruct Hh as (Hid & Hsf & Hqc & Hac & Huc & Hdc).
  unfold wire_message, wire_header in *.
  rewrite !length_app in H. unfold interpret_question_walk.
  rewrite <- !app_assoc.
  rewrite (reads_pop_int16 _ Hid) by lia. bind_done.
  rewrite (reads_pop_int16 _ Hsf) by lia. bind_done.
  rewrite (reads_pop_int16 _ Hqc) by lia. bind_done.
  rewrite (reads_pop_int16 _ Hac) by lia. bind_done.
  rewrite (reads_pop_int16 _ Huc) by lia. bind_done.
  rewrite (reads_pop_int16 _ Hdc) by lia. bind_done.
  rewrite Hnq at 1. rewrite Nat2Z.id.
  rewrite (reads_fill_array interpret_question_entry wire_question (questions m)).
  - bind_done.
    rewrite (reads_interpret_rr (answers m)) by (assumption || lia). bind_done.
    rewrite (reads_interpret_rr (authorities m)) by (assumption || lia). bind_done.
    rewrite (reads_interpret_rr (additionals m)) by (assumption || lia). bind_done.
    f_equal. f_equal.
    + destruct m as [[] ? ? ? ?]; reflexivity.
    + f_equal. rewrite !length_app. lia.
  - eapply Forall_impl; [|exact (Forall_and3 _ _ _ _ Htq Hcq Hvq)].
    intros q (H1 & H2 & H3). apply reads_interpret_question_entry; assumption.
  - lia.
Qed.

Lemma interpret_question_done buffer buffer_size e m :
  message_valid m ->
  buffer = wire_message m -> buffer_size = compute_size m ->
  interpret_question buffer buffer_size e = Done (m, e).
Proof.
  intros Hv -> ->. unfold interpret_question.
  rewrite <- (app_nil_r (wire_message m)).
  rewrite (reads_interpret_question_walk m Hv)
    by (rewrite length_wire_message by exact Hv; lia).
  bind_done. cbn [c_buffer_size].
  rewrite length_wire_message, Z.sub_diag by exact Hv.
  reflexivity.
Qed.

(** C1, as amended.  For every structurally valid message [m] whose computed
    size is below 2^32 (the counts are the lengths of their sequences, every
    label length is between 1 and 255 and is the number of its octets, every
    data_size is the number of data octets, every field holds a value of its
    C type), decoding the buffer that [serialize_message] produced for [m]
    returns [m] and leaves the malformed flag as it was; started at 0, the
    flag is still 0. *)
Theorem decode_encode_round_trip heap m error_flag :
  message_valid m -> compute_size m < 2 ^ 32 ->
  exists buffer buffer_size,
    serialize_message heap m = Done (buffer, buffer_size)
    /\ interpret_question buffer buffer_size error_flag = Done (m, error_flag)
    /\ interpret_question buffer buffer_size 0 = Done (m, 0).
Proof.
  intros Hv Hs. exists (wire_message m), (compute_size m).
  unfold serialize_message.
  rewrite serialize_message_body_done by assumption. bind_done.
  cbn [w_buffer]. split; [reflexivity|].
  split; apply interpret_question_done; auto.
Qed.

Lemma decode_encode_round_trip_witness :
  exists buffer buffer_size,
    serialize_message zero_heap example_query = Done (buffer, buffer_size)
    /\ interpret_question buffer buffer_size 0 = Done (example_query, 0)
    /\ interpret_question buffer buffer_size 0 = Done (example_query, 0).
Proof.
  apply (decode_encode_round_trip zero_heap example_query 0).
  - exact example_query_valid.
  - reflexivity.
Defined.

(** The id of a decoded message comes from the first two octets. *)
Lemma interpret_question_walk_id c m c' :
  interpret_question_walk c = Done (m, c') ->
  exists c1, pop_int16 c = Done (id (header m), c1).
Proof.
  intros H. unfold interpret_question_walk in H.
  apply bind_Done in H. destruct H as ([v c1] & E & H).
  repeat (apply bind_Done in H; destruct H as ([? ?] & _ & H)).
  inversion H. subst. exists c1. exact E.
Qed.

Lemma interpret_question_id b1 b2 rest buffer_size e m e' :
  2 <= buffer_size ->
  interpret_question (b1 :: b2 :: rest) buffer_size e = Done (m, e') ->
  id (header m)
  = to_uint16 (Z.lor (Z.shiftl (byte.unsigned b1) 8) (byte.unsigned b2)).
Proof.
  intros Hs H. unfold interpret_question in H.
  apply bind_Done in H. destruct H as ([m' c'] & E & H).
  assert (m' = m) by (destruct (_ <? 0); inversion H; reflexivity). subst m'.
  apply interpret_question_walk_id in E. destruct E as (c1 & E).
  unfold pop_int16 in E. rewrite pop_int8_cons in E by lia.
  cbv beta iota delta [bind] in E. rewrite pop_int8_cons in E by lia.
  cbv beta iota delta [bind] in E. inversion E. reflexivity.
Qed.

(** C1 as stated fails past 4 GiB: [big_message] is structurally valid, its
    encoding starts with octets of record data, and decoding it does not give
    [big_message] back. *)
Lemma round_trip_fails_on_big_message :
  message_valid big_message
  /\ exists buffer buffer_size,
       serialize_message zero_heap big_message = Done (buffer, buffer_size)
       /\ forall m e, interpret_question buffer buffer_size 0 = Done (m, e) ->
                      m <> big_message.
Proof.
  split; [exact big_message_valid|].
  destruct (serialize_big_message zero_heap) as (rest & E).
  exists (byte.of_Z 97 :: byte.of_Z 97 :: rest), 4295557122.
  unfold serialize_message. rewrite E. bind_done. cbn [w_buffer].
  split; [reflexivity|]. intros m e H Hm.
  apply interpret_question_id in H; [|lia]. subst m.
  revert H. clear. unfold big_message. cbn [flood_message header id].
  vm_compute. discriminate.
Qed.

(** C7.  Encoding the query for example.com (id 0x1234, flags 0x0100, one
    question of type 1 and class 1, no records) yields exactly the 29 octets
    of the specification, whatever the allocated memory held, with the write
    index at 29; decoding these octets returns the query and leaves the
    malformed flag as it was, so a flag that was 0 stays 0. *)
Theorem example_query_scenario :
  (forall heap,
     serialize_message heap example_query = Done (example_query_octets, 29)
     /\ serialize_message_body heap example_query
        = Done ({| w_buffer := example_query_octets; w_index := 29 |}, 29))
  /\ example_query_octets
     = octets_of [0x12; 0x34; 0x01; 0x00; 0x00; 0x01; 0x00; 0x00; 0x00; 0x00;
                  0x00; 0x00; 0x07; 101; 120; 97; 109; 112; 108; 101;
                  0x03; 99; 111; 109; 0x00; 0x00; 0x01; 0x00; 0x01]
  /\ length example_query_octets = 29%nat
  /\ (forall error_flag,
        interpret_question example_query_octets 29 error_flag
        = Done (example_query, error_flag))
  /\ interpret_question example_query_octets 29 0 = Done (example_query, 0).
Proof.
  split; [intros heap; split; vm_compute; reflexivity|].
  split; [reflexivity|]. split; [reflexivity|].
  split; [intros e|]; vm_compute; reflexivity.
Qed.

(** ** Reading from any buffer *)

Lemma total_ret {A : Type} (a : A) : total (fun c => Done (a, c)).
Proof. intros c Hc Hs. exists a, c. repeat split; auto. lia. Qed.

Lemma total_bind {A B : Type} (rd : cursor -> outcome (A * cursor))
    (k : A * cursor -> outcome (B * cursor)) :
  total rd -> (forall a, total (fun c => k (a, c))) ->
  total (fun c => bind (rd c) k).
Proof.
  intros Hrd Hk c Hc Hs.
  destruct (Hrd c Hc Hs) as (a & c1 & E & Hc1 & Hle).
  destruct (Hk a c1 Hc1 ltac:(lia)) as (b & c2 & E2 & Hc2 & Hle2).
  exists b, c2. rewrite E. simpl. repeat split; auto. lia.
Qed.

Lemma total_pop_int8 : total pop_int8.
Proof.
  intros [buf n] Hc Hs. unfold cursor_ok, pop_int8 in *. simpl in *.
  destruct (Z.leb_spec 0 (n - 1)).
  - destruct buf as [|b buf]; simpl in *; [lia|].
    eexists _, _. split; [reflexivity|]. simpl. lia.
  - eexists _, _. split; [reflexivity|]. simpl. lia.
Qed.

Lemma total_pop_int16 : total pop_int16.
Proof.
  unfold pop_int16. apply total_bind; [apply total_pop_int8|]. intros hi.
  apply total_bind; [apply total_pop_int8|]. intros lo. apply total_ret.
Qed.

Lemma total_pop_int32 : total pop_int32.
Proof.
  unfold pop_int32. apply total_bind; [apply total_pop_int16|]. intros hi.
  apply total_bind; [apply total_pop_int16|]. intros lo. apply total_ret.
Qed.

Lemma total_pop_octet : total pop_octet.
Proof.
  unfold pop_octet. apply total_bind; [apply total_pop_int8|]. intros v.
  apply total_ret.
Qed.

Lemma total_fill_array {A : Type} (rd : cursor -> outcome (A * cursor)) n :
  total rd -> total (fill_array n rd).
Proof.
  intros Hrd. induction n as [|n IH]; cbn [fill_array].
  - apply total_ret.
  - apply total_bind; [exact Hrd|]. intros a.
    apply total_bind; [exact IH|]. intros rest. apply total_ret.
Qed.

(** The [while] loop returns: each further iteration has consumed an octet,
    which bounds both the iterations and the number of labels. *)
Lemma interpret_labels_loop_total fuel : forall labels amount c,
  cursor_ok c -> 0 <= amount ->
  amount + Z.max 0 (c_buffer_size c) < 2 ^ 32 ->
  (Z.to_nat (c_buffer_size c) < fuel)%nat ->
  exists r c', interpret_labels_loop fuel labels amount c = Done (r, c')
               /\ cursor_ok c' /\ c_buffer_size c' <= c_buffer_size c.
Proof.
  induction fuel as [|fuel IH]; intros labels amount c Hc Ha Hb Hf; [lia|].
  cbn [interpret_labels_loop].
  destruct (total_pop_int8 c Hc ltac:(lia)) as (v & c1 & E & Hc1 & Hle).
  rewrite E. bind_done.
  destruct (Z.ltb_spec 0 v) as [Hv|Hv].
  - assert (Hpos : 1 <= c_buffer_size c /\ c_buffer_size c1 = c_buffer_size c - 1).
    { unfold pop_int8 in E. destruct (Z.leb_spec 0 (c_buffer_size c - 1)).
      - destruct (c_buffer c); inversion E; subst; simpl; lia.
      - inversion E; subst; lia. }
    destruct Hpos as [Hpos Hc1s].
    destruct (Z.ltb_spec (amount + 1) (2 ^ 32)); [|lia].
    destruct (total_fill_array pop_octet (Z.to_nat v) total_pop_octet c1 Hc1
                ltac:(lia)) as (octets & c2 & E2 & Hc2 & Hle2).
    rewrite E2. bind_done.
    destruct (IH (labels ++ [{| name_size := v; name := octets |}])
                (amount + 1) c2) as (r & c3 & E3 & Hc3 & Hle3);
      try assumption; try lia.
    exists r, c3. repeat split; auto. lia.
  - eexists _, _. split; [reflexivity|]. split; auto.
Qed.

Lemma total_interpret_labels : total interpret_labels.
Proof.
  intros c Hc Hs. unfold interpret_labels.
  destruct (interpret_labels_loop_total (S (Z.to_nat (c_buffer_size c))) [] 0 c)
    as ([ls amount] & c' & E & Hc' & Hle); try assumption; try lia.
  rewrite E. bind_done. eexists _, _. split; [reflexivity|]. auto.
Qed.

Lemma total_interpret_rr_entry : total interpret_rr_entry.
Proof.
  unfold interpret_rr_entry.
  apply total_bind; [apply total_interpret_labels|]. intros [labels labels_size].
  apply total_bind; [apply total_pop_int16|]. intros type.
  apply total_bind; [apply total_pop_int16|]. intros class.
  apply total_bind; [apply total_pop_int32|]. intros ttl.
  apply total_bind; [apply total_pop_int16|]. intros data_size.
  apply total_bind; [apply total_fill_array, total_pop_octet|]. intros data.
  apply total_ret.
Qed.

Lemma total_interpret_question_entry : total interpret_question_entry.
Proof.
  unfold interpret_question_entry.
  apply total_bind; [apply total_interpret_labels|]. intros [labels labels_size].
  apply total_bind; [apply total_pop_int16|]. intros type.
  apply total_bind; [apply total_pop_int16|]. intros class.
  apply total_ret.
Qed.

Lemma total_interpret_rr amount : total (interpret_rr amount).
Proof. apply total_fill_array, total_interpret_rr_entry. Qed.

(** The walk returns from every buffer of less than 2^32 octets. *)
Lemma total_interpret_question_walk : total interpret_question_walk.
Proof.
  unfold interpret_question_walk.
  do 6 (apply total_bind; [apply total_pop_int16|]; intros ?).
  apply total_bind;
    [apply total_fill_array, total_interpret_question_entry|]. intros ?.
  do 3 (apply total_bind; [apply total_interpret_rr|]; intros ?).
  apply total_ret.
Qed.

Lemma framed_ret {A : Type} (a : A) : framed (fun c => Done (a, c)).
Proof.
  intros c a' c' H. inversion H; subst. split; [lia|]. intros _ s j _.
  reflexivity.
Qed.

Lemma framed_bind {A B : Type} (rd : cursor -> outcome (A * cursor))
    (k : A * cursor -> outcome (B * cursor)) :
  framed rd -> (forall a, framed (fun c => k (a, c))) ->
  framed (fun c => bind (rd c) k).
Proof.
  intros Hrd Hk c b c2 H.
  apply bind_Done in H. destruct H as ([a c1] & E & H).
  destruct (Hrd c a c1 E) as [Hle Hext].
  destruct (Hk a c1 b c2 H) as [Hle2 Hext2].
  split; [lia|]. intros H0 s j Hj.
  rewrite Hext by lia. simpl. apply Hext2; assumption.
Qed.

Lemma framed_pop_int8 : framed pop_int8.
Proof.
  intros [buf n] v c' H. unfold pop_int8 in *. simpl in *.
  destruct (Z.leb_spec 0 (n - 1)).
  - destruct buf as [|b buf]; inversion H; subst; simpl.
    split; [lia|]. intros _ s j Hj.
    destruct (Z.leb_spec 0 (n + j - 1)); [|lia].
    unfold extend. simpl. do 3 f_equal. lia.
  - inversion H; subst; simpl. split; lia.
Qed.

Lemma framed_pop_int16 : framed pop_int16.
Proof.
  unfold pop_int16. apply framed_bind; [apply framed_pop_int8|]. intros hi.
  apply framed_bind; [apply framed_pop_int8|]. intros lo. apply framed_ret.
Qed.

Lemma framed_pop_int32 : framed pop_int32.
Proof.
  unfold pop_int32. apply framed_bind; [apply framed_pop_int16|]. intros hi.
  apply framed_bind; [apply framed_pop_int16|]. intros lo. apply framed_ret.
Qed.

Lemma framed_pop_octet : framed pop_octet.
Proof.
  unfold pop_octet. apply framed_bind; [apply framed_pop_int8|]. intros v.
  apply framed_ret.
Qed.

Lemma framed_fill_array {A : Type} (rd : cursor -> outcome (A * cursor)) n :
  framed rd -> framed (fill_array n rd).
Proof.
  intros Hrd. induction n as [|n IH]; cbn [fill_array].
  - apply framed_ret.
  - apply framed_bind; [exact Hrd|]. intros a.
    apply framed_bind; [exact IH|]. intros rest. apply framed_ret.
Qed.

Lemma framed_interpret_labels_loop fuel : forall labels amount,
  framed (interpret_labels_loop fuel labels amount).
Proof.
  induction fuel as [|fuel IH]; intros labels amount; cbn [interpret_labels_loop].
  - intros c a c' H. discriminate.
  - apply framed_bind; [apply framed_pop_int8|]. intros v.
    destruct (0 <? v); [|apply framed_ret].
    destruct (amount + 1 <? 2 ^ 32); [|intros c a c' H; discriminate].
    apply framed_bind; [apply framed_fill_array, framed_pop_octet|].
    intros octets. apply IH.
Qed.

(** More fuel does not change a result. *)
Lemma interpret_labels_loop_fuel fuel : forall fuel' labels amount c r,
  interpret_labels_loop fuel labels amount c = Done r -> (fuel <= fuel')%nat ->
  interpret_labels_loop fuel' labels amount c = Done r.
Proof.
  induction fuel as [|fuel IH]; intros fuel' labels amount c r H Hf;
    [discriminate|].
  destruct fuel' as [|fuel']; [lia|]. cbn [interpret_labels_loop] in *.
  destruct (pop_int8 c) as [[v c1]| |]; try discriminate. bind_done.
  cbv beta iota delta [bind] in H.
  destruct (0 <? v); [|exact H].
  destruct (amount + 1 <? 2 ^ 32); [|discriminate].
  destruct (fill_array (Z.to_nat v) pop_octet c1) as [[octets c2]| |];
    try discriminate.
  apply (IH fuel'); [exact H|lia].
Qed.

Lemma framed_interpret_labels : framed interpret_labels.
Proof.
  intros c a c' H. unfold interpret_labels in H.
  apply bind_Done in H. destruct H as ([[ls amount] c1] & E & H).
  inversion H; subst; clear H.
  destruct (framed_interpret_labels_loop _ _ _ _ _ _ E) as [Hle Hext].
  split; [exact Hle|]. intros H0 s j Hj. unfold interpret_labels.
  rewrite (interpret_labels_loop_fuel _ _ _ _ _ _ (Hext H0 s j Hj)).
  - reflexivity.
  - unfold extend. simpl. lia.
Qed.

Lemma framed_interpret_rr_entry : framed interpret_rr_entry.
Proof.
  unfold interpret_rr_entry.
  apply framed_bind; [apply framed_interpret_labels|]. intros [labels labels_size].
  apply framed_bind; [apply framed_pop_int16|]. intros type.
  apply framed_bind; [apply framed_pop_int16|]. intros class.
  apply framed_bind; [apply framed_pop_int32|]. intros ttl.
  apply framed_bind; [apply framed_pop_int16|]. intros data_size.
  apply framed_bind; [apply framed_fill_array, framed_pop_octet|]. intros data.
  apply framed_ret.
Qed.

Lemma framed_interpret_question_entry : framed interpret_question_entry.
Proof.
  unfold interpret_question_entry.
  apply framed_bind; [apply framed_interpret_labels|]. intros [labels labels_size].
  apply framed_bind; [apply framed_pop_int16|]. intros type.
  apply framed_bind; [apply framed_pop_int16|]. intros class.
  apply framed_ret.
Qed.

Lemma framed_interpret_rr amount : framed (interpret_rr amount).
Proof. apply framed_fill_array, framed_interpret_rr_entry. Qed.

Lemma framed_interpret_question_walk : framed interpret_question_walk.
Proof.
  unfold interpret_question_walk.
  do 6 (apply framed_bind; [apply framed_pop_int16|]; intros ?).
  apply framed_bind;
    [apply framed_fill_array, framed_interpret_question_entry|]. intros ?.
  do 3 (apply framed_bind; [apply framed_interpret_rr|]; intros ?).
  apply framed_ret.
Qed.

Lemma fuelled_ret {A : Type} (a : A) : fuelled (fun c => Done (a, c)).
Proof. intros c. discriminate. Qed.

Lemma fuelled_bind {A B : Type} (rd : cursor -> outcome (A * cursor))
    (k : A * cursor -> outcome (B * cursor)) :
  fuelled rd -> (forall a, fuelled (fun c => k (a, c))) ->
  fuelled (fun c => bind (rd c) k).
Proof.
  intros Hrd Hk c. specialize (Hrd c).
  destruct (rd c) as [[a c1]| |]; simpl; [apply Hk|discriminate|congruence].
Qed.

Lemma fuelled_pop_int8 : fuelled pop_int8.
Proof.
  intros c. unfold pop_int8.
  destruct (0 <=? c_buffer_size c - 1); [destruct (c_buffer c)|]; discriminate.
Qed.

Lemma fuelled_pop_int16 : fuelled pop_int16.
Proof.
  unfold pop_int16. apply fuelled_bind; [apply fuelled_pop_int8|]. intros hi.
  apply fuelled_bind; [apply fuelled_pop_int8|]. intros lo. apply fuelled_ret.
Qed.

Lemma fuelled_pop_int32 : fuelled pop_int32.
Proof.
  unfold pop_int32. apply fuelled_bind; [apply fuelled_pop_int16|]. intros hi.
  apply fuelled_bind; [apply fuelled_pop_int16|]. intros lo. apply fuelled_ret.
Qed.

Lemma fuelled_pop_octet : fuelled pop_octet.
Proof.
  unfold pop_octet. apply fuelled_bind; [apply fuelled_pop_int8|]. intros v.
  apply fuelled_ret.
Qed.

Lemma fuelled_fill_array {A : Type} (rd : cursor -> outcome (A * cursor)) n :
  fuelled rd -> fuelled (fill_array n rd).
Proof.
  intros Hrd. induction n as [|n IH]; cbn [fill_array].
  - apply fuelled_ret.
  - apply fuelled_bind; [exact Hrd|]. intros a.
    apply fuelled_bind; [exact IH|]. intros rest. apply fuelled_ret.
Qed.

(** An iteration goes on only after reading a length octet while the counter
    was positive, so more fuel than the counter is enough, whatever the
    buffer holds. *)
Lemma interpret_labels_loop_fuelled fuel : forall labels amount c,
  (Z.to_nat (c_buffer_size c) < fuel)%nat ->
  interpret_labels_loop fuel labels amount c <> OutOfFuel.
Proof.
  induction fuel as [|fuel IH]; intros labels amount c Hf; [lia|].
  cbn [interpret_labels_loop].
  destruct (pop_int8 c) as [[v c1]| |] eqn:E; bind_done;
    [|discriminate|destruct (fuelled_pop_int8 c E)].
  destruct (Z.ltb_spec 0 v) as [Hv|Hv]; [|discriminate].
  destruct (amount + 1 <? 2 ^ 32); [|discriminate].
  assert (Hc1 : 1 <= c_buffer_size c /\ c_buffer_size c1 = c_buffer_size c - 1).
  { unfold pop_int8 in E. destruct (Z.leb_spec 0 (c_buffer_size c - 1)).
    - destruct (c_buffer c); inversion E; subst; simpl; lia.
    - inversion E; subst; lia. }
  destruct (fill_array (Z.to_nat v) pop_octet c1) as [[octets c2]| |] eqn:E2;
    bind_done; [|discriminate|].
  - apply IH.
    destruct (framed_fill_array pop_octet (Z.to_nat v) framed_pop_octet
                c1 octets c2 E2) as [Hle _].
    lia.
  - destruct (fuelled_fill_array pop_octet (Z.to_nat v) fuelled_pop_octet c1 E2).
Qed.

Lemma fuelled_interpret_labels : fuelled interpret_labels.
Proof.
  intros c. unfold interpret_labels.
  pose proof (interpret_labels_loop_fuelled (S (Z.to_nat (c_buffer_size c)))
                [] 0 c ltac:(lia)) as H.
  destruct (interpret_labels_loop _ _ _ _) as [[[ls amount] c1]| |];
    simpl; congruence.
Qed.

Lemma fuelled_interpret_rr_entry : fuelled interpret_rr_entry.
Proof.
  unfold interpret_rr_entry.
  apply fuelled_bind; [apply fuelled_interpret_labels|]. intros [labels labels_size].
  apply fuelled_bind; [apply fuelled_pop_int16|]. intros type.
  apply fuelled_bind; [apply fuelled_pop_int16|]. intros class.
  apply fuelled_bind; [apply fuelled_pop_int32|]. intros ttl.
  apply fuelled_bind; [apply fuelled_pop_int16|]. intros data_size.
  apply fuelled_bind; [apply fuelled_fill_array, fuelled_pop_octet|]. intros data.
  apply fuelled_ret.
Qed.

Lemma fuelled_interpret_question_entry : fuelled interpret_question_entry.
Proof.
  unfold interpret_question_entry.
  apply fuelled_bind; [apply fuelled_interpret_labels|]. intros [labels labels_size].
  apply fuelled_bind; [apply fuelled_pop_int16|]. intros type.
  apply fuelled_bind; [apply fuelled_pop_int16|]. intros class.
  apply fuelled_ret.
Qed.

Lemma fuelled_interpret_question_walk : fuelled interpret_question_walk.
Proof.
  unfold interpret_question_walk.
  do 6 (apply fuelled_bind; [apply fuelled_pop_int16|]; intros ?).
  apply fuelled_bind;
    [apply fuelled_fill_array, fuelled_interpret_question_entry|]. intros ?.
  do 3 (apply fuelled_bind;
          [apply fuelled_fill_array, fuelled_interpret_rr_entry|]; intros ?).
  apply fuelled_ret.
Qed.

(** Decoding never stops for lack of fuel: the bound on the [while] loop is
    not a restriction. *)
Lemma interpret_question_fuelled buffer buffer_size error_flag :
  interpret_question buffer buffer_size error_flag <> OutOfFuel.
Proof.
  unfold interpret_question.
  pose proof (fuelled_interpret_question_walk
                {| c_buffer := buffer; c_buffer_size := buffer_size |}) as H.
  destruct (interpret_question_walk _) as [[m c]| |]; simpl; try congruence.
  destruct (c_buffer_size c <? 0); discriminate.
Qed.

(** ** The counter stays within the range of [ssize_t] *)

Lemma lowered_ret {A : Type} (a : A) : lowered 0 (fun c => Done (a, c)).
Proof. intros c a' c' H. inversion H; subst. lia. Qed.

Lemma lowered_weaken {A : Type} B B' (rd : cursor -> outcome (A * cursor)) :
  B <= B' -> lowered B rd -> lowered B' rd.
Proof. intros HB H c a c' E. specialize (H c a c' E). lia. Qed.

Lemma lowered_bind {A B : Type} (P : A -> Prop) B1 B2
    (rd : cursor -> outcome (A * cursor))
    (k : A * cursor -> outcome (B * cursor)) :
  0 <= B1 -> lowered B1 rd ->
  (forall c a c', rd c = Done (a, c') -> P a) ->
  (forall a, P a -> lowered B2 (fun c => k (a, c))) ->
  lowered (B1 + B2) (fun c => bind (rd c) k).
Proof.
  intros H1 Hrd HP Hk c b c2 H.
  apply bind_Done in H. destruct H as ([a c1] & E & H).
  specialize (Hk a (HP c a c1 E) c1 b c2 H). specialize (Hrd c a c1 E). lia.
Qed.

Lemma lowered_pop_int8 : lowered 1 pop_int8.
Proof. intros c v c' H. apply pop_int8_Done in H. lia. Qed.

Lemma lowered_pop_int16 : lowered 2 pop_int16.
Proof. intros c v c' H. apply pop_int16_Done in H. lia. Qed.

Lemma lowered_pop_int32 : lowered 4 pop_int32.
Proof. intros c v c' H. apply pop_int32_Done in H. lia. Qed.

Lemma lowered_pop_octet : lowered 1 pop_octet.
Proof.
  intros c b c' H. unfold pop_octet in H.
  apply bind_Done in H. destruct H as ([v c1] & E & H).
  inversion H; subst. apply pop_int8_Done in E. lia.
Qed.

Lemma lowered_fill_array {A : Type} B (rd : cursor -> outcome (A * cursor)) n :
  0 <= B -> lowered B rd -> lowered (Z.of_nat n * B) (fill_array n rd).
Proof.
  intros HB Hrd. induction n as [|n IH]; cbn [fill_array].
  - apply lowered_ret.
  - replace (Z.of_nat (S n) * B) with (B + (Z.of_nat n * B + 0)) by lia.
    apply (lowered_bind (fun _ => True)); auto. intros a _.
    apply (lowered_bind (fun _ => True)); auto; [nia|]. intros rest _.
    apply lowered_ret.
Qed.

(** Once the counter is at 0 or below the next length octet reads as 0 and
    ends the loop; a label read before that takes the counter at most 255
    below zero. *)
Lemma interpret_labels_loop_lowered fuel : forall labels amount c r c',
  interpret_labels_loop fuel labels amount c = Done (r, c') ->
  (c_buffer_size c <= 0 -> c_buffer_size c' = c_buffer_size c - 1)
  /\ (1 <= c_buffer_size c -> -256 <= c_buffer_size c').
Proof.
  induction fuel as [|fuel IH]; intros labels amount c r c' H; [discriminate|].
  cbn [interpret_labels_loop] in H.
  apply bind_Done in H. destruct H as ([v c1] & E & H).
  assert (Hv : c_buffer_size c <= 0 -> v = 0).
  { intros Hc. unfold pop_int8 in E.
    destruct (Z.leb_spec 0 (c_buffer_size c - 1)); [lia|].
    inversion E. reflexivity. }
  apply pop_int8_Done in E. destruct E as [E Hu].
  destruct (Z.ltb_spec 0 v) as [Hpos|Hpos].
  - destruct (amount + 1 <? 2 ^ 32); [|discriminate].
    apply bind_Done in H. destruct H as ([octets c2] & E2 & H).
    apply (lowered_fill_array 1 pop_octet (Z.to_nat v) ltac:(lia)
             lowered_pop_octet) in E2.
    destruct (IH _ _ _ _ _ H) as [I1 I2].
    unfold is_uint8 in Hu. change (2 ^ 8) with 256 in Hu.
    split; [lia|]. intros Hc.
    destruct (Z.le_gt_cases (c_buffer_size c2) 0); lia.
  - inversion H; subst. lia.
Qed.

Lemma lowered_interpret_labels : lowered 256 interpret_labels.
Proof.
  intros c a c' H. unfold interpret_labels in H.
  apply bind_Done in H. destruct H as ([[ls amount] c1] & E & H).
  inversion H; subst; clear H.
  apply interpret_labels_loop_lowered in E. lia.
Qed.

Lemma pop_int16_value c v c' : pop_int16 c = Done (v, c') -> is_uint16 v.
Proof. intros H. apply pop_int16_Done in H. apply H. Qed.

Ltac lowered_next lem :=
  apply (lowered_bind (fun _ => True));
  [lia | apply lem | intros; exact I | intros ? _].

Lemma lowered_octets n B :
  0 <= Z.of_nat n <= B -> lowered B (fill_array n pop_octet).
Proof.
  intros H. eapply lowered_weaken;
    [|apply (lowered_fill_array 1); [lia|apply lowered_pop_octet]].
  lia.
Qed.

Lemma lowered_interpret_rr_entry : lowered 65801 interpret_rr_entry.
Proof.
  unfold interpret_rr_entry.
  change 65801 with (256 + (2 + (2 + (4 + (2 + (65535 + 0)))))).
  apply (lowered_bind (fun _ => True));
    [lia | apply lowered_interpret_labels | intros; exact I
    | intros [labels labels_size] _].
  lowered_next lowered_pop_int16. lowered_next lowered_pop_int16.
  lowered_next lowered_pop_int32.
  apply (lowered_bind is_uint16);
    [lia | apply lowered_pop_int16 | apply pop_int16_value
    | intros data_size Hd].
  unfold is_uint16 in Hd. change (2 ^ 16) with 65536 in Hd.
  apply (lowered_bind (fun _ => True));
    [lia | apply lowered_octets; lia | intros; exact I | intros data _].
  apply lowered_ret.
Qed.

Lemma lowered_interpret_question_entry : lowered 260 interpret_question_entry.
Proof.
  unfold interpret_question_entry.
  change 260 with (256 + (2 + (2 + 0))).
  apply (lowered_bind (fun _ => True));
    [lia | apply lowered_interpret_labels | intros; exact I
    | intros [labels labels_size] _].
  lowered_next lowered_pop_int16. lowered_next lowered_pop_int16.
  apply lowered_ret.
Qed.

Lemma lowered_interpret_rr amount :
  lowered (65535 * 65801) (interpret_rr amount).
Proof.
  unfold interpret_rr.
  eapply lowered_weaken;
    [|apply (lowered_fill_array 65801); [lia|apply lowered_interpret_rr_entry]].
  pose proof (to_uint16_range amount) as H. unfold is_uint16 in H.
  change (2 ^ 16) with 65536 in H. lia.
Qed.

Lemma lowered_interpret_question_walk :
  lowered (2 ^ 34) interpret_question_walk.
Proof.
  apply (lowered_weaken
           (2 + (2 + (2 + (2 + (2 + (2 + (65535 * 260
            + (65535 * 65801 + (65535 * 65801 + (65535 * 65801 + 0))))))))))).
  { change (2 ^ 34) with 17179869184. lia. }
  unfold interpret_question_walk.
  lowered_next lowered_pop_int16. lowered_next lowered_pop_int16.
  apply (lowered_bind is_uint16);
    [lia | apply lowered_pop_int16 | apply pop_int16_value
    | intros query_count Hq].
  unfold is_uint16 in Hq. change (2 ^ 16) with 65536 in Hq.
  lowered_next lowered_pop_int16. lowered_next lowered_pop_int16.
  lowered_next lowered_pop_int16.
  apply (lowered_bind (fun _ => True));
    [lia
    | eapply lowered_weaken;
      [|apply (lowered_fill_array 260);
        [lia|apply lowered_interpret_question_entry]]; lia
    | intros; exact I | intros questions _].
  lowered_next lowered_interpret_rr. lowered_next lowered_interpret_rr.
  lowered_next lowered_interpret_rr.
  apply lowered_ret.
Qed.

(** Started at 0 or above, the counter of a decode ends above -2^34; it only
    ever decreases, so it never comes near the lower end of [ssize_t]. *)
Lemma interpret_question_walk_counter buffer buffer_size m c :
  0 <= buffer_size ->
  interpret_question_walk
    {| c_buffer := buffer; c_buffer_size := buffer_size |} = Done (m, c) ->
  - 2 ^ 34 <= c_buffer_size c <= buffer_size.
Proof.
  intros H0 E. split.
  - apply lowered_interpret_question_walk in E. cbn [c_buffer_size] in E. lia.
  - apply framed_interpret_question_walk in E. apply E.
Qed.

(** ** Truncated buffers *)

(** Truncation.  When the walk over a buffer ends with the counter at 0 or
    above, it has consumed the octets its counts and length fields declare;
    given fewer octets than that, the walk ends with a negative counter. *)
Lemma truncated_walk_negative buffer buffer_size m c k :
  buffer_size <= Z.of_nat (length buffer) ->
  interpret_question_walk
    {| c_buffer := buffer; c_buffer_size := buffer_size |} = Done (m, c) ->
  0 <= c_buffer_size c ->
  0 <= k < buffer_size - c_buffer_size c -> k < 2 ^ 32 ->
  exists m' c',
    interpret_question_walk
      {| c_buffer := firstn (Z.to_nat k) buffer; c_buffer_size := k |}
    = Done (m', c')
    /\ c_buffer_size c' < 0.
Proof.
  intros Hb E Hc Hk Hs.
  destruct (total_interpret_question_walk
              {| c_buffer := firstn (Z.to_nat k) buffer; c_buffer_size := k |})
    as (m' & c' & E' & _ & _);
    [unfold cursor_ok; simpl; rewrite length_firstn; lia|exact Hs|].
  exists m', c'. split; [exact E'|].
  destruct (Z.lt_ge_cases (c_buffer_size c') 0) as [|H0]; [assumption|exfalso].
  destruct (framed_interpret_question_walk _ _ _ E') as [_ Hext].
  specialize (Hext H0 (skipn (Z.to_nat k) buffer) (buffer_size - k) ltac:(lia)).
  unfold extend in Hext. cbn [c_buffer c_buffer_size] in Hext.
  rewrite firstn_skipn in Hext.
  replace (k + (buffer_size - k)) with buffer_size in Hext by lia.
  rewrite E in Hext. inversion Hext as [[Hm Hcur]].
  rewrite Hcur in Hk. cbn [c_buffer_size] in Hk. lia.
Qed.

(** ** The malformed flag *)

(** The flag is written once, after the walk, from the counter the walk
    left. *)
Lemma interpret_question_after_walk buffer buffer_size error_flag :
  interpret_question buffer buffer_size error_flag
  = '(message, c) <-
       interpret_question_walk
         {| c_buffer := buffer; c_buffer_size := buffer_size |} ;;
    Done (message, if c_buffer_size c <? 0 then 1 else error_flag).
Proof.
  unfold interpret_question. apply bind_ext. intros [message c].
  destruct (c_buffer_size c <? 0); reflexivity.
Qed.

Lemma interpret_question_returns buffer buffer_size error_flag :
  buffer_size <= Z.of_nat (length buffer) -> buffer_size < 2 ^ 32 ->
  exists message c,
    interpret_question_walk {| c_buffer := buffer; c_buffer_size := buffer_size |}
    = Done (message, c)
    /\ interpret_question buffer buffer_size error_flag
       = Done (message, if c_buffer_size c <? 0 then 1 else error_flag).
Proof.
  intros Hb Hs.
  destruct (total_interpret_question_walk
              {| c_buffer := buffer; c_buffer_size := buffer_size |})
    as (message & c & E & _ & _); [exact Hb|exact Hs|].
  exists message, c. split; [exact E|].
  rewrite interpret_question_after_walk, E. reflexivity.
Qed.

Lemma interpret_question_shortened buffer buffer_size m c k error_flag :
  buffer_size <= Z.of_nat (length buffer) ->
  interpret_question_walk
    {| c_buffer := buffer; c_buffer_size := buffer_size |} = Done (m, c) ->
  0 <= c_buffer_size c ->
  0 <= k < buffer_size - c_buffer_size c -> k < 2 ^ 32 ->
  exists m',
    interpret_question (firstn (Z.to_nat k) buffer) k error_flag = Done (m', 1).
Proof.
  intros Hb E Hc Hk Hs.
  destruct (truncated_walk_negative buffer buffer_size m c k Hb E Hc Hk Hs)
    as (m' & c' & E' & Hneg).
  exists m'. rewrite interpret_question_after_walk, E'. bind_done.
  destruct (Z.ltb_spec (c_buffer_size c') 0); [reflexivity|lia].
Qed.

Lemma interpret_question_truncated heap m buffer buffer_size k error_flag :
  message_valid m -> compute_size m < 2 ^ 32 ->
  serialize_message heap m = Done (buffer, buffer_size) ->
  0 <= k < buffer_size ->
  exists message,
    interpret_question (firstn (Z.to_nat k) buffer) k error_flag
    = Done (message, 1).
Proof.
  intros Hv Hs E Hk. unfold serialize_message in E.
  rewrite serialize_message_body_done in E by assumption.
  cbv beta iota delta [bind] in E. cbn [w_buffer] in E.
  inversion E; subst; clear E.
  pose proof (length_wire_message m Hv) as Hl.
  pose proof (reads_interpret_question_walk m Hv [] (compute_size m)
                ltac:(lia)) as R.
  rewrite app_nil_r in R.
  eapply interpret_question_shortened; [|exact R| | |];
    cbn [c_buffer_size]; lia.
Qed.

(** * Reading any buffer back *)

Lemma parses_pop_int8 :
  parses (fun v => [byte.of_Z v]) (fun _ v => is_uint8 v) pop_int8.
Proof.
  intros [buf n] v c' H. unfold pop_int8 in H. cbn [c_buffer c_buffer_size] in *.
  destruct (Z.leb_spec 0 (n - 1)).
  - destruct buf as [|b buf]; inversion H; subst; cbn [c_buffer c_buffer_size].
    split; [apply unsigned_is_uint8|]. split; [lia|]. intros _.
    rewrite byte.of_Z_unsigned. cbn [app length]. split; [reflexivity|lia].
  - inversion H; subst; cbn [c_buffer c_buffer_size].
    split; [unfold is_uint8; lia|]. split; lia.
Qed.

Lemma split_octets hi lo k :
  0 <= k -> 0 <= lo < 2 ^ k ->
  Z.shiftr (Z.lor (Z.shiftl hi k) lo) k = hi
  /\ Z.land (Z.lor (Z.shiftl hi k) lo) (Z.ones k) = lo.
Proof.
  intros Hk Hlo.
  rewrite <- (Z.mod_small lo (2 ^ k)) by lia.
  rewrite <- !Z.land_ones by lia.
  split.
  - apply Z.bits_inj'. intros i Hi.
    rewrite Z.shiftr_spec, Z.lor_spec, Z.shiftl_spec, Z.land_spec by lia.
    rewrite Z.ones_spec_high by lia.
    rewrite andb_false_r, orb_false_r. f_equal. lia.
  - apply Z.bits_inj'. intros i Hi.
    rewrite !Z.land_spec, Z.lor_spec, Z.land_spec.
    destruct (Z.lt_ge_cases i k).
    + rewrite Z.shiftl_spec_low, Z.ones_spec_low by lia.
      rewrite !andb_true_r. reflexivity.
    + rewrite Z.ones_spec_high by lia. rewrite !andb_false_r. reflexivity.
Qed.

Lemma parses_pop_int16 : parses be16 (fun _ v => is_uint16 v) pop_int16.
Proof.
  intros c v c2 H. rewrite pop_int16_unfold in H.
  apply bind_Done in H. destruct H as ([hi c1] & E1 & H).
  apply bind_Done in H. destruct H as ([lo c'] & E2 & H).
  assert (Hv : v = Z.lor (Z.shiftl hi 8) lo /\ c2 = c')
    by (inversion H; split; reflexivity).
  destruct Hv as [-> ->]. clear H.
  apply parses_pop_int8 in E1, E2.
  destruct E1 as (Hhi & L1 & P1), E2 as (Hlo & L2 & P2).
  unfold is_uint8 in Hhi, Hlo.
  split.
  - unfold is_uint16. change (2 ^ 16) with (2 ^ (8 + 8)).
    rewrite <- (join_small hi lo 8) by lia.
    apply Z.mod_pos_bound. reflexivity.
  - split; [lia|]. intros H0.
    destruct (P2 H0) as [B2 S2]. destruct (P1 ltac:(lia)) as [B1 S1].
    unfold be16. change 255 with (Z.ones 8).
    destruct (split_octets hi lo 8) as [-> ->]; try lia.
    rewrite B1, B2. cbn [app length] in *. split; [reflexivity|lia].
Qed.

Lemma parses_pop_int32 : parses be32 (fun _ v => is_uint32 v) pop_int32.
Proof.
  intros c v c2 H. rewrite pop_int32_unfold in H.
  apply bind_Done in H. destruct H as ([hi c1] & E1 & H).
  apply bind_Done in H. destruct H as ([lo c'] & E2 & H).
  assert (Hv : v = Z.lor (Z.shiftl hi 16) lo /\ c2 = c')
    by (inversion H; split; reflexivity).
  destruct Hv as [-> ->]. clear H.
  apply parses_pop_int16 in E1, E2.
  destruct E1 as (Hhi & L1 & P1), E2 as (Hlo & L2 & P2).
  unfold is_uint16 in Hhi, Hlo.
  split.
  - unfold is_uint32. change (2 ^ 32) with (2 ^ (16 + 16)).
    rewrite <- (join_small hi lo 16) by lia.
    apply Z.mod_pos_bound. reflexivity.
  - split; [lia|]. intros H0.
    destruct (P2 H0) as [B2 S2]. destruct (P1 ltac:(lia)) as [B1 S1].
    unfold be32. change 65535 with (Z.ones 16).
    destruct (split_octets hi lo 16) as [-> ->]; try lia.
    rewrite B1, B2, <- app_assoc. split; [reflexivity|].
    rewrite length_app. lia.
Qed.

Lemma parses_pop_octet : parses (fun b => [b]) (fun _ _ => True) pop_octet.
Proof.
  intros c b c' H. unfold pop_octet in H.
  apply bind_Done in H. destruct H as ([v c1] & E & H).
  inversion H; subst; clear H.
  apply parses_pop_int8 in E. destruct E as (_ & L & P).
  split; [exact I|]. split; [exact L|exact P].
Qed.

Lemma parses_fill_array {A : Type} (wire : A -> list byte) (ok : Z -> A -> Prop)
    (rd : cursor -> outcome (A * cursor)) n :
  parses wire ok rd ->
  (forall N N' a, N <= N' -> ok N a -> ok N' a) ->
  parses (flat_map wire)
    (fun N l => Forall (ok N) l /\ length l = n) (fill_array n rd).
Proof.
  intros Hrd Hmono. induction n as [|n IH]; intros c l c' H;
    cbn [fill_array] in H.
  - inversion H; subst. cbn [flat_map app length].
    split; [split; [constructor|reflexivity]|]. split; [lia|].
    intros _. split; [reflexivity|lia].
  - apply bind_Done in H. destruct H as ([a c1] & E1 & H).
    apply bind_Done in H. destruct H as ([rest c2] & E2 & H).
    inversion H; subst; clear H.
    apply Hrd in E1. apply IH in E2.
    destruct E1 as (Ha & L1 & P1), E2 as ((Hr & Hn) & L2 & P2).
    split.
    + split; [|cbn [length]; congruence].
      constructor; [exact Ha|].
      eapply Forall_impl; [|exact Hr]. intros x. apply Hmono. exact L1.
    + split; [lia|]. intros H0.
      destruct (P2 H0) as [B2 S2]. destruct (P1 ltac:(lia)) as [B1 S1].
      cbn [flat_map]. rewrite B1, B2, <- app_assoc. split; [reflexivity|].
      rewrite length_app. lia.
Qed.

Lemma parses_octets n :
  parses (fun bs => bs) (fun _ bs => length bs = n) (fill_array n pop_octet).
Proof.
  intros c bs c' H.
  apply (parses_fill_array _ _ _ n parses_pop_octet) in H; [|auto].
  rewrite flat_map_singleton in H. destruct H as ((_ & Hn) & L & P). auto.
Qed.

Lemma fill_array_octets_counter n : forall c bs c',
  fill_array n pop_octet c = Done (bs, c') ->
  c_buffer_size c' = c_buffer_size c - Z.of_nat n.
Proof.
  induction n as [|n IH]; intros c bs c' H; cbn [fill_array] in H.
  - inversion H; subst. lia.
  - apply bind_Done in H. destruct H as ([b c1] & E1 & H).
    apply bind_Done in H. destruct H as ([rest c2] & E2 & H).
    inversion H; subst; clear H. apply IH in E2.
    unfold pop_octet in E1.
    apply bind_Done in E1. destruct E1 as ([v c0] & E0 & E1).
    inversion E1; subst. apply pop_int8_Done in E0. lia.
Qed.

Lemma interpret_labels_loop_parses fuel : forall acc amount c ls amt c',
  interpret_labels_loop fuel acc amount c = Done (ls, amt, c') ->
  exists new,
    ls = acc ++ new /\ amt = amount + Z.of_nat (length new)
    /\ Forall label_valid new
    /\ 2 * Z.of_nat (length new) <= Z.max (c_buffer_size c) 0 + 1
    /\ c_buffer_size c' <= c_buffer_size c
    /\ (0 <= c_buffer_size c' ->
        c_buffer c = flat_map wire_label new ++ byte.of_Z 0 :: c_buffer c'
        /\ c_buffer_size c
           = c_buffer_size c' + Z.of_nat (length (flat_map wire_label new)) + 1).
Proof.
  induction fuel as [|fuel IH]; intros acc amount c ls amt c' H; [discriminate|].
  cbn [interpret_labels_loop] in H.
  apply bind_Done in H. destruct H as ([v c1] & E & H).
  assert (Hv : c_buffer_size c <= 0 -> v = 0).
  { intros Hc. unfold pop_int8 in E.
    destruct (Z.leb_spec 0 (c_buffer_size c - 1)); [lia|].
    inversion E. reflexivity. }
  pose proof (pop_int8_Done _ _ _ E) as [S1 _].
  apply parses_pop_int8 in E. destruct E as (Hu & L1 & P1).
  unfold is_uint8 in Hu. change (2 ^ 8) with 256 in Hu.
  destruct (Z.ltb_spec 0 v) as [Hpos|Hpos].
  - destruct (amount + 1 <? 2 ^ 32); [|discriminate].
    apply bind_Done in H. destruct H as ([octets c2] & E2 & H).
    pose proof (fill_array_octets_counter _ _ _ _ E2) as Hdec.
    apply parses_octets in E2. destruct E2 as (Hn & L2 & P2).
    apply IH in H.
    destruct H as (new & -> & -> & Hval & Hcnt & L3 & P3).
    exists ({| name_size := v; name := octets |} :: new).
    rewrite <- app_assoc. cbn [app length flat_map].
    split; [reflexivity|]. split; [lia|].
    split.
    { constructor; [|exact Hval]. unfold label_valid, label_sized.
      cbn [name_size name]. lia. }
    split; [lia|]. split; [lia|]. intros H0.
    destruct (P3 H0) as [B3 S3]. destruct (P2 ltac:(lia)) as [B2 S2].
    destruct (P1 ltac:(lia)) as [B1 _].
    rewrite B1, B2, B3. unfold wire_label at 1. cbn [name_size name app].
    rewrite <- app_assoc. split; [reflexivity|].
    rewrite length_app. unfold wire_label at 1. cbn [name length]. lia.
  - inversion H; subst; clear H. exists []. rewrite app_nil_r.
    cbn [length flat_map app].
    split; [reflexivity|]. split; [lia|]. split; [constructor|].
    split; [lia|]. split; [lia|]. intros H0.
    destruct (P1 H0) as [B1 _]. assert (v = 0) by lia. subst v.
    split; [exact B1|lia].
Qed.

Lemma parses_interpret_labels :
  parses (fun a => wire_labels (fst a))
    (fun N a => labels_read N (fst a) (snd a)) interpret_labels.
Proof.
  intros c [ls sz] c' H. unfold interpret_labels in H.
  apply bind_Done in H. destruct H as ([[ls' amt] c1] & E & H).
  assert (Hr : ls = ls' /\ sz = to_uint16 amt /\ c' = c1)
    by (inversion H; auto).
  destruct Hr as (-> & -> & ->). clear H.
  apply interpret_labels_loop_parses in E.
  destruct E as (new & -> & -> & Hval & Hcnt & L & P).
  cbn [fst snd app]. unfold labels_read, wire_labels.
  rewrite Z.add_0_l. split; [auto|]. split; [exact L|]. intros H0.
  destruct (P H0) as [B S]. rewrite B, <- app_assoc. cbn [app].
  split; [reflexivity|]. rewrite length_app. cbn [length]. lia.
Qed.

Lemma labels_read_mono N N' ls sz :
  N <= N' -> labels_read N ls sz -> labels_read N' ls sz.
Proof. unfold labels_read. intros H (H1 & H2 & H3). repeat split; auto. lia. Qed.

Lemma question_read_mono N N' q :
  N <= N' -> question_read N q -> question_read N' q.
Proof.
  unfold question_read. intros H (H1 & H2). split; [|exact H2].
  eapply labels_read_mono; eassumption.
Qed.

Lemma rr_read_mono N N' r : N <= N' -> rr_read N r -> rr_read N' r.
Proof.
  unfold rr_read. intros H (H1 & H2). split; [|exact H2].
  eapply labels_read_mono; eassumption.
Qed.

Lemma parses_interpret_question_entry :
  parses wire_question question_read interpret_question_entry.
Proof.
  intros c q c' H. unfold interpret_question_entry in H.
  apply bind_Done in H. destruct H as ([[ls sz] c1] & E1 & H).
  apply bind_Done in H. destruct H as ([type c2] & E2 & H).
  apply bind_Done in H. destruct H as ([class c3] & E3 & H).
  inversion H; subst; clear H.
  apply parses_interpret_labels in E1. apply parses_pop_int16 in E2, E3.
  cbn [fst snd] in E1.
  destruct E1 as (O1 & L1 & P1), E2 as (O2 & L2 & P2), E3 as (O3 & L3 & P3).
  unfold question_read, wire_question.
  cbn [q_labels q_labels_size q_type q_class].
  split; [auto|]. split; [lia|]. intros H0.
  destruct (P3 H0) as [B3 S3]. destruct (P2 ltac:(lia)) as [B2 S2].
  destruct (P1 ltac:(lia)) as [B1 S1].
  rewrite B1, B2, B3, <- !app_assoc. split; [reflexivity|].
  rewrite !length_app. lia.
Qed.

Lemma parses_interpret_rr_entry : parses wire_rr rr_read interpret_rr_entry.
Proof.
  intros c r c' H. unfold interpret_rr_entry in H.
  apply bind_Done in H. destruct H as ([[ls sz] c1] & E1 & H).
  apply bind_Done in H. destruct H as ([type c2] & E2 & H).
  apply bind_Done in H. destruct H as ([class c3] & E3 & H).
  apply bind_Done in H. destruct H as ([ttl c4] & E4 & H).
  apply bind_Done in H. destruct H as ([data_size c5] & E5 & H).
  apply bind_Done in H. destruct H as ([data c6] & E6 & H).
  inversion H; subst; clear H.
  apply parses_interpret_labels in E1. apply parses_pop_int16 in E2, E3, E5.
  apply parses_pop_int32 in E4. apply parses_octets in E6.
  cbn [fst snd] in E1.
  destruct E1 as (O1 & L1 & P1), E2 as (O2 & L2 & P2), E3 as (O3 & L3 & P3),
    E4 as (O4 & L4 & P4), E5 as (O5 & L5 & P5), E6 as (O6 & L6 & P6).
  unfold rr_read, wire_rr.
  cbn [rr_labels rr_labels_size rr_type rr_class rr_ttl rr_data_size rr_data].
  split.
  { split; [exact O1|]. repeat (split; [assumption|]).
    unfold is_uint16 in O5. lia. }
  split; [lia|]. intros H0.
  destruct (P6 H0) as [B6 S6]. destruct (P5 ltac:(lia)) as [B5 S5].
  destruct (P4 ltac:(lia)) as [B4 S4]. destruct (P3 ltac:(lia)) as [B3 S3].
  destruct (P2 ltac:(lia)) as [B2 S2]. destruct (P1 ltac:(lia)) as [B1 S1].
  rewrite B1, B2, B3, B4, B5, B6, <- !app_assoc. split; [reflexivity|].
  rewrite !length_app. lia.
Qed.

Lemma parses_interpret_rr amount :
  parses (flat_map wire_rr)
    (fun N l => Forall (rr_read N) l
                /\ to_uint16 amount = Z.of_nat (length l))
    (interpret_rr amount).
Proof.
  intros c l c' H. unfold interpret_rr in H.
  apply (parses_fill_array _ _ _ _ parses_interpret_rr_entry rr_read_mono) in H.
  destruct H as ((Hf & Hn) & L & P). split; [|auto].
  split; [exact Hf|]. rewrite Hn.
  pose proof (to_uint16_range amount) as Hu. unfold is_uint16 in Hu. lia.
Qed.

Lemma message_read_mono N N' m : N <= N' -> message_read N m -> message_read N' m.
Proof.
  unfold message_read. intros H (H1 & H2 & H3 & H4 & H5 & H6 & H7 & H8 & H9).
  do 5 (split; [assumption|]).
  repeat split;
    (eapply Forall_impl; [|eassumption]; intros x;
     (apply question_read_mono || apply rr_read_mono); exact H).
Qed.

(** What the walk returns from any buffer. *)
Lemma parses_interpret_question_walk :
  parses wire_message message_read interpret_question_walk.
Proof.
  intros c m c' H. unfold interpret_question_walk in H.
  apply bind_Done in H. destruct H as ([v1 c1] & E1 & H).
  apply bind_Done in H. destruct H as ([v2 c2] & E2 & H).
  apply bind_Done in H. destruct H as ([v3 c3] & E3 & H).
  apply bind_Done in H. destruct H as ([v4 c4] & E4 & H).
  apply bind_Done in H. destruct H as ([v5 c5] & E5 & H).
  apply bind_Done in H. destruct H as ([v6 c6] & E6 & H).
  apply bind_Done in H. destruct H as ([qs c7] & E7 & H).
  apply bind_Done in H. destruct H as ([ans c8] & E8 & H).
  apply bind_Done in H. destruct H as ([aus c9] & E9 & H).
  apply bind_Done in H. destruct H as ([ads c10] & E10 & H).
  inversion H; subst; clear H.
  apply parses_pop_int16 in E1, E2, E3, E4, E5, E6.
  apply (parses_fill_array _ _ _ _ parses_interpret_question_entry
           question_read_mono) in E7.
  apply parses_interpret_rr in E8, E9, E10.
  destruct E1 as (O1 & L1 & P1), E2 as (O2 & L2 & P2), E3 as (O3 & L3 & P3),
    E4 as (O4 & L4 & P4), E5 as (O5 & L5 & P5), E6 as (O6 & L6 & P6),
    E7 as ((O7 & N7) & L7 & P7), E8 as ((O8 & N8) & L8 & P8),
    E9 as ((O9 & N9) & L9 & P9), E10 as ((O10 & N10) & L10 & P10).
  rewrite to_uint16_small in N8, N9, N10 by assumption.
  unfold message_read, wire_message, wire_header, header_typed.
  cbn [header questions answers authorities additionals id status_flags
       query_count answer_count authority_count additional_count].
  split.
  { split; [auto 10|]. unfold is_uint16 in O3. do 4 (split; [lia|]).
    repeat split;
      (eapply Forall_impl; [|eassumption]; intros x;
       (apply question_read_mono || apply rr_read_mono); lia). }
  split; [lia|]. intros H0.
  destruct (P10 H0) as [B10 S10]. destruct (P9 ltac:(lia)) as [B9 S9].
  destruct (P8 ltac:(lia)) as [B8 S8]. destruct (P7 ltac:(lia)) as [B7 S7].
  destruct (P6 ltac:(lia)) as [B6 S6]. destruct (P5 ltac:(lia)) as [B5 S5].
  destruct (P4 ltac:(lia)) as [B4 S4]. destruct (P3 ltac:(lia)) as [B3 S3].
  destruct (P2 ltac:(lia)) as [B2 S2]. destruct (P1 ltac:(lia)) as [B1 S1].
  rewrite B1, B2, B3, B4, B5, B6, B7, B8, B9, B10, <- !app_assoc.
  split; [reflexivity|]. rewrite !length_app. lia.
Qed.

(** Read from a counter of at most 131070, a message is structurally valid:
    no name can have 65536 labels. *)
Lemma message_read_valid N m :
  N <= 131070 -> message_read N m -> message_valid m.
Proof.
  intros HN (Hh & Hq & Ha & Hu & Hd & Fq & Fa & Fu & Fd).
  assert (Hl : forall ls sz, labels_read N ls sz ->
            Forall label_typed ls /\ is_uint16 sz
            /\ sz = Z.of_nat (length ls) /\ Forall label_valid ls).
  { intros ls sz (Hv & Hs & Hc).
    assert (Hsz : sz = Z.of_nat (length ls)).
    { rewrite Hs. apply to_uint16_small. unfold is_uint16.
      change (2 ^ 16) with 65536. lia. }
    split; [|split; [rewrite Hs; apply to_uint16_range|auto]].
    eapply Forall_impl; [|exact Hv]. intros l [Hr _].
    unfold label_typed, is_uint8. change (2 ^ 8) with 256. lia. }
  assert (Gq : Forall (fun q => question_typed q /\ question_counted q
                                /\ question_valid q) (questions m)).
  { eapply Forall_impl; [|exact Fq]. intros q (Hls & Ht & Hc).
    destruct (Hl _ _ Hls) as (T & U & C & V).
    unfold question_typed, question_counted, question_valid. auto 10. }
  assert (Gr : forall l, Forall (rr_read N) l ->
            Forall (fun r => rr_typed r /\ rr_counted r /\ rr_valid r) l).
  { intros l F. eapply Forall_impl; [|exact F].
    intros r (Hls & Ht & Hc & Httl & Hds & Hlen).
    destruct (Hl _ _ Hls) as (T & U & C & V).
    unfold rr_typed, rr_counted, rr_valid. auto 12. }
  pose proof (Gr _ Fa) as Ga. pose proof (Gr _ Fu) as Gu.
  pose proof (Gr _ Fd) as Gd.
  assert (W : forall (A : Type) (P Q : A -> Prop) l,
            (forall a, P a -> Q a) -> Forall P l -> Forall Q l).
  { intros A P Q l HPQ F. eapply Forall_impl; [exact HPQ|exact F]. }
  unfold message_valid, message_typed, message_counted.
  split; [split; [exact Hh|]|split; [do 4 (split; [assumption|])|]];
    repeat match goal with
           | |- _ /\ _ => split
           | |- Forall _ (questions m) =>
               eapply W; [|exact Gq]; cbv beta; tauto
           | |- Forall _ (answers m) =>
               eapply W; [|exact Ga]; cbv beta; tauto
           | |- Forall _ (authorities m) =>
               eapply W; [|exact Gu]; cbv beta; tauto
           | |- Forall _ (additionals m) =>
               eapply W; [|exact Gd]; cbv beta; tauto
           end.
Qed.

(** ** What a decode takes off the counter *)

Lemma sum_of_app {A : Type} (f : A -> Z) l1 l2 :
  sum_of f (l1 ++ l2) = sum_of f l1 + sum_of f l2.
Proof.
  induction l1 as [|a l1 IH]; [reflexivity|].
  cbn [app sum_of fold_right]. fold (sum_of f (l1 ++ l2)) (sum_of f l1). lia.
Qed.

Lemma consumes_pop_int16 : consumes (fun _ => 2) pop_int16.
Proof. intros c v c' H. apply pop_int16_Done in H. lia. Qed.

Lemma consumes_pop_int32 : consumes (fun _ => 4) pop_int32.
Proof. intros c v c' H. apply pop_int32_Done in H. lia. Qed.

Lemma consumes_fill_array {A : Type} (size : A -> Z) rd n :
  consumes size rd -> consumes (sum_of size) (fill_array n rd).
Proof.
  intros Hrd. induction n as [|n IH]; intros c l c' H; cbn [fill_array] in H.
  - inversion H; subst. cbn. lia.
  - apply bind_Done in H. destruct H as ([a c1] & E1 & H).
    apply bind_Done in H. destruct H as ([rest c2] & E2 & H).
    inversion H; subst; clear H. apply Hrd in E1. apply IH in E2.
    cbn [sum_of fold_right]. fold (sum_of size rest). lia.
Qed.

Lemma interpret_labels_loop_consumes fuel : forall acc amount c ls amt c',
  interpret_labels_loop fuel acc amount c = Done (ls, amt, c') ->
  c_buffer_size c'
  = c_buffer_size c - label_list_size ls + sum_of (fun l => 1 + name_size l) acc.
Proof.
  induction fuel as [|fuel IH]; intros acc amount c ls amt c' H; [discriminate|].
  cbn [interpret_labels_loop] in H.
  apply bind_Done in H. destruct H as ([v c1] & E & H).
  apply pop_int8_Done in E. destruct E as [S1 _].
  destruct (Z.ltb_spec 0 v) as [Hpos|Hpos].
  - destruct (amount + 1 <? 2 ^ 32); [|discriminate].
    apply bind_Done in H. destruct H as ([octets c2] & E2 & H).
    apply fill_array_octets_counter in E2. apply IH in H.
    rewrite sum_of_app in H. cbn [sum_of fold_right name_size] in H. lia.
  - inversion H; subst; clear H. unfold label_list_size. lia.
Qed.

Lemma consumes_interpret_labels :
  consumes (fun a => label_list_size (fst a)) interpret_labels.
Proof.
  intros c [ls sz] c' H. unfold interpret_labels in H.
  apply bind_Done in H. destruct H as ([[ls' amt] c1] & E & H).
  assert (Hr : ls = ls' /\ c' = c1) by (inversion H; auto).
  destruct Hr as (-> & ->). clear H.
  apply interpret_labels_loop_consumes in E. cbn [fst sum_of fold_right] in *.
  lia.
Qed.

Lemma consumes_interpret_question_entry :
  consumes question_size interpret_question_entry.
Proof.
  intros c q c' H. unfold interpret_question_entry in H.
  apply bind_Done in H. destruct H as ([[ls sz] c1] & E1 & H).
  apply bind_Done in H. destruct H as ([type c2] & E2 & H).
  apply bind_Done in H. destruct H as ([class c3] & E3 & H).
  inversion H; subst; clear H.
  apply consumes_interpret_labels in E1. apply consumes_pop_int16 in E2, E3.
  unfold question_size. cbn [fst q_labels] in *. lia.
Qed.

Lemma consumes_interpret_rr_entry : consumes rr_size interpret_rr_entry.
Proof.
  intros c r c' H. unfold interpret_rr_entry in H.
  apply bind_Done in H. destruct H as ([[ls sz] c1] & E1 & H).
  apply bind_Done in H. destruct H as ([type c2] & E2 & H).
  apply bind_Done in H. destruct H as ([class c3] & E3 & H).
  apply bind_Done in H. destruct H as ([ttl c4] & E4 & H).
  apply bind_Done in H. destruct H as ([data_size c5] & E5 & H).
  apply bind_Done in H. destruct H as ([data c6] & E6 & H).
  inversion H; subst; clear H.
  apply consumes_interpret_labels in E1. apply consumes_pop_int16 in E2, E3.
  apply consumes_pop_int32 in E4. pose proof (pop_int16_Done _ _ _ E5) as [E5' U].
  apply fill_array_octets_counter in E6. unfold is_uint16 in U.
  unfold rr_size. cbn [fst rr_labels rr_data_size] in *. lia.
Qed.

Lemma consumes_interpret_rr amount :
  consumes (sum_of rr_size) (interpret_rr amount).
Proof. apply consumes_fill_array, consumes_interpret_rr_entry. Qed.

(** The walk takes the computed size of the message it returns off the
    counter. *)
Lemma consumes_interpret_question_walk :
  consumes compute_size interpret_question_walk.
Proof.
  intros c m c' H. unfold interpret_question_walk in H.
  apply bind_Done in H. destruct H as ([v1 c1] & E1 & H).
  apply bind_Done in H. destruct H as ([v2 c2] & E2 & H).
  apply bind_Done in H. destruct H as ([v3 c3] & E3 & H).
  apply bind_Done in H. destruct H as ([v4 c4] & E4 & H).
  apply bind_Done in H. destruct H as ([v5 c5] & E5 & H).
  apply bind_Done in H. destruct H as ([v6 c6] & E6 & H).
  apply bind_Done in H. destruct H as ([qs c7] & E7 & H).
  apply bind_Done in H. destruct H as ([ans c8] & E8 & H).
  apply bind_Done in H. destruct H as ([aus c9] & E9 & H).
  apply bind_Done in H. destruct H as ([ads c10] & E10 & H).
  inversion H; subst; clear H.
  apply consumes_pop_int16 in E1, E2, E3, E4, E5, E6.
  apply (consumes_fill_array _ _ _ consumes_interpret_question_entry) in E7.
  apply consumes_interpret_rr in E8, E9, E10.
  unfold compute_size. cbn [questions answers authorities additionals]. lia.
Qed.

Lemma interpret_question_flag buffer buffer_size error_flag m e :
  interpret_question buffer buffer_size error_flag = Done (m, e) ->
  e = if buffer_size <? compute_size m then 1 else error_flag.
Proof.
  rewrite interpret_question_after_walk. intros H.
  apply bind_Done in H. destruct H as ([m' c] & E & H).
  apply consumes_interpret_question_walk in E. cbn [c_buffer_size] in E.
  assert (Hr : m' = m /\ e = if c_buffer_size c <? 0 then 1 else error_flag)
    by (inversion H; auto).
  destruct Hr as (-> & ->).
  destruct (Z.ltb_spec (c_buffer_size c) 0), (Z.ltb_spec buffer_size (compute_size m));
    (reflexivity || lia).
Qed.

(** ** The decoder does not look past the counter *)

Lemma confined_ret {A : Type} (a : A) : confined (fun c => Done (a, c)).
Proof. intros c a' c' s H. inversion H; subst. reflexivity. Qed.

Lemma confined_bind {A B : Type} (rd : cursor -> outcome (A * cursor))
    (k : A * cursor -> outcome (B * cursor)) :
  confined rd -> (forall a, confined (fun c => k (a, c))) ->
  confined (fun c => bind (rd c) k).
Proof.
  intros Hrd Hk c b c2 s H.
  apply bind_Done in H. destruct H as ([a c1] & E & H).
  rewrite (Hrd c a c1 s E). bind_done. apply (Hk a c1 b c2 s H).
Qed.

Lemma confined_pop_int8 : confined pop_int8.
Proof.
  intros [buf n] v c' s H. unfold pop_int8, extend in *.
  cbn [c_buffer c_buffer_size] in *. rewrite Z.add_0_r.
  destruct (0 <=? n - 1).
  - destruct buf as [|b buf]; [discriminate|].
    inversion H; subst; clear H. cbn [app c_buffer c_buffer_size].
    rewrite Z.add_0_r. reflexivity.
  - inversion H; subst; clear H. cbn [c_buffer c_buffer_size].
    rewrite Z.add_0_r. reflexivity.
Qed.

Lemma confined_pop_int16 : confined pop_int16.
Proof.
  unfold pop_int16. apply confined_bind; [apply confined_pop_int8|]. intros hi.
  apply confined_bind; [apply confined_pop_int8|]. intros lo. apply confined_ret.
Qed.

Lemma confined_pop_int32 : confined pop_int32.
Proof.
  unfold pop_int32. apply confined_bind; [apply confined_pop_int16|]. intros hi.
  apply confined_bind; [apply confined_pop_int16|]. intros lo. apply confined_ret.
Qed.

Lemma confined_pop_octet : confined pop_octet.
Proof.
  unfold pop_octet. apply confined_bind; [apply confined_pop_int8|]. intros v.
  apply confined_ret.
Qed.

Lemma confined_fill_array {A : Type} (rd : cursor -> outcome (A * cursor)) n :
  confined rd -> confined (fill_array n rd).
Proof.
  intros Hrd. induction n as [|n IH]; cbn [fill_array].
  - apply confined_ret.
  - apply confined_bind; [exact Hrd|]. intros a.
    apply confined_bind; [exact IH|]. intros rest. apply confined_ret.
Qed.

Lemma confined_interpret_labels_loop fuel : forall labels amount,
  confined (interpret_labels_loop fuel labels amount).
Proof.
  induction fuel as [|fuel IH]; intros labels amount; cbn [interpret_labels_loop].
  - intros c a c' s H. discriminate.
  - apply confined_bind; [apply confined_pop_int8|]. intros v.
    destruct (0 <? v); [|apply confined_ret].
    destruct (amount + 1 <? 2 ^ 32); [|intros c a c' s H; discriminate].
    apply confined_bind; [apply confined_fill_array, confined_pop_octet|].
    intros octets. apply IH.
Qed.

Lemma confined_interpret_labels : confined interpret_labels.
Proof.
  intros c a c' s H. unfold interpret_labels in *.
  apply bind_Done in H. destruct H as ([[ls amount] c1] & E & H).
  inversion H; subst; clear H.
  apply (confined_interpret_labels_loop _ _ _ _ _ _ s) in E.
  replace (c_buffer_size (extend c s 0)) with (c_buffer_size c)
    by (unfold extend; cbn [c_buffer_size]; lia).
  rewrite E. reflexivity.
Qed.

Lemma confined_interpret_rr_entry : confined interpret_rr_entry.
Proof.
  unfold interpret_rr_entry.
  apply confined_bind; [apply confined_interpret_labels|]. intros [labels labels_size].
  apply confined_bind; [apply confined_pop_int16|]. intros type.
  apply confined_bind; [apply confined_pop_int16|]. intros class.
  apply confined_bind; [apply confined_pop_int32|]. intros ttl.
  apply confined_bind; [apply confined_pop_int16|]. intros data_size.
  apply confined_bind; [apply confined_fill_array, confined_pop_octet|]. intros data.
  apply confined_ret.
Qed.

Lemma confined_interpret_question_entry : confined interpret_question_entry.
Proof.
  unfold interpret_question_entry.
  apply confined_bind; [apply confined_interpret_labels|]. intros [labels labels_size].
  apply confined_bind; [apply confined_pop_int16|]. intros type.
  apply confined_bind; [apply confined_pop_int16|]. intros class.
  apply confined_ret.
Qed.

Lemma confined_interpret_rr amount : confined (interpret_rr amount).
Proof. apply confined_fill_array, confined_interpret_rr_entry. Qed.

Lemma confined_interpret_question_walk : confined interpret_question_walk.
Proof.
  unfold interpret_question_walk.
  do 6 (apply confined_bind; [apply confined_pop_int16|]; intros ?).
  apply confined_bind;
    [apply confined_fill_array, confined_interpret_question_entry|]. intros ?.
  do 3 (apply confined_bind; [apply confined_interpret_rr|]; intros ?).
  apply confined_ret.
Qed.

Lemma interpret_question_confined buffer tail buffer_size error_flag r :
  interpret_question buffer buffer_size error_flag = Done r ->
  interpret_question (buffer ++ tail) buffer_size error_flag = Done r.
Proof.
  rewrite !interpret_question_after_walk. intros H.
  apply bind_Done in H. destruct H as ([m c] & E & H).
  apply (confined_interpret_question_walk _ _ _ tail) in E.
  unfold extend in E. cbn [c_buffer c_buffer_size] in E.
  rewrite Z.add_0_r in E. rewrite E. bind_done.
  cbn [c_buffer_size]. rewrite Z.add_0_r. exact H.
Qed.

(** * Further properties of the codec *)

Lemma interpret_question_read buffer buffer_size error_flag m e :
  interpret_question buffer buffer_size error_flag = Done (m, e) ->
  exists c,
    interpret_question_walk
      {| c_buffer := buffer; c_buffer_size := buffer_size |} = Done (m, c)
    /\ e = (if c_buffer_size c <? 0 then 1 else error_flag)
    /\ c_buffer_size c = buffer_size - compute_size m
    /\ message_read buffer_size m
    /\ (0 <= c_buffer_size c ->
        buffer = wire_message m ++ c_buffer c
        /\ buffer_size
           = c_buffer_size c + Z.of_nat (length (wire_message m))).
Proof.
  rewrite interpret_question_after_walk. intros H.
  apply bind_Done in H. destruct H as ([m' c] & E & H).
  assert (Hr : m' = m /\ e = if c_buffer_size c <? 0 then 1 else error_flag)
    by (inversion H; auto).
  destruct Hr as (-> & ->). exists c. split; [exact E|]. split; [reflexivity|].
  pose proof (consumes_interpret_question_walk _ _ _ E) as Hc.
  apply parses_interpret_question_walk in E. cbn [c_buffer c_buffer_size] in *.
  destruct E as (O & L & P). auto.
Qed.

(** X1.  Whatever the buffer holds, the message [interpret_question] returns
    (for a buffer_size of 0 or above) is well formed as a data structure: its header fields are 16-bit values,
    every section has as many entries as its header count says, every label
    has a length from 1 to 255 and that many octets, every record has
    data_size data octets, every field is within its C type, and every
    labels_size is the number of labels modulo 2^16; a name has at most
    (buffer_size + 1) / 2 labels, so that for a buffer_size of at most 131070
    labels_size is the number of labels and the message is structurally
    valid. *)
Theorem interpret_question_message_valid buffer buffer_size error_flag m e :
  0 <= buffer_size ->
  interpret_question buffer buffer_size error_flag = Done (m, e) ->
  message_read buffer_size m
  /\ (buffer_size <= 131070 -> message_valid m).
Proof.
  intros _ H. apply interpret_question_read in H.
  destruct H as (c & _ & _ & _ & R & _). split; [exact R|].
  intros Hn. exact (message_read_valid _ _ Hn R).
Qed.

Lemma interpret_question_message_valid_witness :
  message_read 29 example_query /\ message_valid example_query.
Proof.
  destruct (interpret_question_message_valid example_query_octets 29 0
              example_query 0) as [R V].
  - lia.
  - vm_compute. reflexivity.
  - split; [exact R|]. apply V. lia.
Defined.



(** X3.  The decoder reads no octet at or beyond buffer + buffer_size: a
    decode that returns gives the same message and flag whatever octets
    follow the buffer, and the result for a buffer of at least buffer_size
    octets (buffer_size below 2^32) is the result for its first buffer_size
    octets alone. *)
Theorem interpret_question_within_size :
  (forall buffer tail buffer_size error_flag r,
     0 <= buffer_size ->
     interpret_question buffer buffer_size error_flag = Done r ->
     interpret_question (buffer ++ tail) buffer_size error_flag = Done r)
  /\ (forall buffer buffer_size error_flag,
        0 <= buffer_size <= Z.of_nat (length buffer) -> buffer_size < 2 ^ 32 ->
        interpret_question buffer buffer_size error_flag
        = interpret_question (firstn (Z.to_nat buffer_size) buffer)
            buffer_size error_flag).
Proof.
  split; [intros buffer tail buffer_size error_flag r _;
          apply interpret_question_confined|].
  intros buffer buffer_size error_flag Hb Hs.
  destruct (interpret_question_returns
              (firstn (Z.to_nat buffer_size) buffer) buffer_size error_flag)
    as (m & c & _ & E); [rewrite length_firstn; lia|exact Hs|].
  rewrite E.
  rewrite <- (firstn_skipn (Z.to_nat buffer_size) buffer) at 1.
  apply interpret_question_confined. exact E.
Qed.

Lemma interpret_question_within_size_witness :
  interpret_question (example_query_octets ++ octets_of [255; 255]) 29 0
  = interpret_question
      (firstn (Z.to_nat 29) (example_query_octets ++ octets_of [255; 255])) 29 0.
Proof.
  destruct interpret_question_within_size as [_ H].
  apply (H (example_query_octets ++ octets_of [255; 255]) 29 0).
  - split; [lia|vm_compute; discriminate].
  - lia.
Defined.

Lemma sum_of_lower {A : Type} (f : A -> Z) (B : Z) l :
  Forall (fun a => B <= f a) l -> B * Z.of_nat (length l) <= sum_of f l.
Proof.
  induction 1 as [|a l Ha _ IH].
  - simpl. lia.
  - cbn [sum_of fold_right length]. fold (sum_of f l).
    rewrite Nat2Z.inj_succ, Z.mul_succ_r. lia.
Qed.

Lemma labels_read_size N ls sz : labels_read N ls sz -> 1 <= label_list_size ls.
Proof.
  intros (Hv & _). unfold label_list_size.
  pose proof (sum_of_lower (fun l => 1 + name_size l) 0 ls) as H.
  rewrite Z.mul_0_l in H. apply Z.le_sub_le_add_l. apply H.
  eapply Forall_impl; [|exact Hv]. intros l [Hr _]. cbv beta. lia.
Qed.

Lemma message_read_size N m :
  message_read N m ->
  12 + 5 * query_count (header m)
  + 11 * (answer_count (header m) + authority_count (header m)
          + additional_count (header m))
  <= compute_size m.
Proof.
  intros (_ & Hq & Ha & Hu & Hd & Fq & Fa & Fu & Fd).
  assert (Gq : 5 * Z.of_nat (length (questions m))
               <= sum_of question_size (questions m)).
  { apply sum_of_lower. eapply Forall_impl; [|exact Fq].
    intros q (Hl & _). apply labels_read_size in Hl. unfold question_size. lia. }
  assert (Gr : forall l, Forall (rr_read N) l ->
                 11 * Z.of_nat (length l) <= sum_of rr_size l).
  { intros l F. apply sum_of_lower. eapply Forall_impl; [|exact F].
    intros r (Hl & _ & _ & _ & Hds & _). apply labels_read_size in Hl.
    unfold rr_size. unfold is_uint16 in Hds. lia. }
  pose proof (Gr _ Fa). pose proof (Gr _ Fu). pose proof (Gr _ Fd).
  unfold compute_size. lia.
Qed.

(** X4.  The decode takes exactly the computed size of the message it
    returns off the counter, whether the octets were there or not; so the
    flag it leaves is 1 exactly when buffer_size is below the computed size
    of the returned message, and the caller's value otherwise. *)
Theorem malformed_iff_size_exceeds buffer buffer_size error_flag m e :
  0 <= buffer_size ->
  interpret_question buffer buffer_size error_flag = Done (m, e) ->
  e = (if buffer_size <? compute_size m then 1 else error_flag)
  /\ exists c,
       interpret_question_walk
         {| c_buffer := buffer; c_buffer_size := buffer_size |} = Done (m, c)
       /\ c_buffer_size c = buffer_size - compute_size m.
Proof.
  intros _ H. split; [exact (interpret_question_flag _ _ _ _ _ H)|].
  apply interpret_question_read in H. destruct H as (c & E & _ & Hc & _).
  exists c. auto.
Qed.

Lemma malformed_iff_size_exceeds_witness :
  1 = (if 12 <? compute_size (header_only (header example_query))
       then 1 else 0).
Proof.
  apply (malformed_iff_size_exceeds (firstn 12 example_query_octets) 12 0
           (header_only (header example_query)) 1).
  - lia.
  - vm_compute. reflexivity.
Defined.

(** X5.  Every question the header declares costs at least 5 octets of the
    counter and every record at least 11, after the 12 of the header: a
    decode with buffer_size below 12 + 5 * query_count + 11 * (answer_count +
    authority_count + additional_count) of the header it read leaves the
    flag at 1; in particular every buffer_size below 12 does. *)
Theorem declared_entries_need_octets buffer buffer_size error_flag m e :
  0 <= buffer_size ->
  interpret_question buffer buffer_size error_flag = Done (m, e) ->
  12 + 5 * query_count (header m)
  + 11 * (answer_count (header m) + authority_count (header m)
          + additional_count (header m))
  <= compute_size m
  /\ (buffer_size
      < 12 + 5 * query_count (header m)
        + 11 * (answer_count (header m) + authority_count (header m)
                + additional_count (header m)) ->
      e = 1)
  /\ (buffer_size < 12 -> e = 1).
Proof.
  intros _ H. pose proof (interpret_question_flag _ _ _ _ _ H) as He.
  apply interpret_question_read in H. destruct H as (c & _ & _ & _ & R & _).
  pose proof (message_read_size _ _ R) as Hs.
  destruct R as ((_ & _ & Hq & Ha & Hu & Hd) & _).
  unfold is_uint16 in *. split; [exact Hs|].
  destruct (Z.ltb_spec buffer_size (compute_size m)); split; intros; lia.
Qed.

Lemma declared_entries_need_octets_witness :
  17 <= compute_size (header_only (header example_query)).
Proof.
  apply (declared_entries_need_octets (firstn 12 example_query_octets) 12 0
           (header_only (header example_query)) 1).
  - lia.
  - vm_compute. reflexivity.
Defined.

(** ** Decoding past the end *)

Lemma exhausted_pop_int16 : exhausted 0 2 pop_int16.
Proof.
  intros buf n H. unfold pop_int16.
  rewrite pop_int8_zero_fill by lia. bind_done.
  rewrite pop_int8_zero_fill by lia. bind_done.
  do 3 f_equal. lia.
Qed.

Lemma exhausted_pop_int32 : exhausted 0 4 pop_int32.
Proof.
  intros buf n H. unfold pop_int32.
  rewrite exhausted_pop_int16 by lia. bind_done.
  rewrite exhausted_pop_int16 by lia. bind_done.
  do 3 f_equal. lia.
Qed.

Lemma exhausted_fill_array {A : Type} (z : A) k rd n :
  0 <= k -> exhausted z k rd ->
  exhausted (repeat z n) (k * Z.of_nat n) (fill_array n rd).
Proof.
  intros Hk Hrd. induction n as [|n IH]; intros buf m Hm; cbn [fill_array repeat].
  - do 3 f_equal. lia.
  - rewrite Hrd by lia. bind_done. rewrite IH by lia. bind_done.
    do 3 f_equal. lia.
Qed.

Lemma exhausted_interpret_labels : exhausted ([], 0) 1 interpret_labels.
Proof.
  intros buf n H. unfold interpret_labels. cbn [interpret_labels_loop].
  rewrite pop_int8_zero_fill by lia. bind_done. reflexivity.
Qed.

Lemma exhausted_interpret_question_entry :
  exhausted zero_question 5 interpret_question_entry.
Proof.
  intros buf n H. unfold interpret_question_entry.
  rewrite exhausted_interpret_labels by lia. bind_done.
  rewrite exhausted_pop_int16 by lia. bind_done.
  rewrite exhausted_pop_int16 by lia. bind_done.
  unfold zero_question. do 3 f_equal. lia.
Qed.

Lemma exhausted_interpret_rr_entry : exhausted zero_rr 11 interpret_rr_entry.
Proof.
  intros buf n H. unfold interpret_rr_entry.
  rewrite exhausted_interpret_labels by lia. bind_done.
  rewrite exhausted_pop_int16 by lia. bind_done.
  rewrite exhausted_pop_int16 by lia. bind_done.
  rewrite exhausted_pop_int32 by lia. bind_done.
  rewrite exhausted_pop_int16 by lia. bind_done.
  cbn [fill_array Z.to_nat]. bind_done.
  unfold zero_rr. do 3 f_equal. lia.
Qed.

Lemma exhausted_interpret_rr amount :
  is_uint16 amount ->
  exhausted (repeat zero_rr (Z.to_nat amount)) (11 * amount)
    (interpret_rr amount).
Proof.
  intros Ha buf n H. unfold interpret_rr. rewrite (to_uint16_small _ Ha).
  rewrite (exhausted_fill_array zero_rr 11 _ _ ltac:(lia)
             exhausted_interpret_rr_entry) by exact H.
  unfold is_uint16 in Ha. do 3 f_equal. lia.
Qed.

(** The entries of a message, once the header [h] is read and nothing is
    left. *)
Lemma interpret_question_walk_header_only h tail n :
  header_typed h -> 12 <= n <= 12 ->
  interpret_question_walk
    {| c_buffer := wire_header h ++ tail; c_buffer_size := n |}
  = Done (header_only h,
          {| c_buffer := tail;
             c_buffer_size :=
               - (5 * query_count h
                  + 11 * (answer_count h + authority_count h
                          + additional_count h)) |}).
Proof.
  intros (Hid & Hsf & Hqc & Hac & Huc & Hdc) Hn.
  unfold interpret_question_walk, wire_header. rewrite <- !app_assoc.
  rewrite (reads_pop_int16 _ Hid) by (cbn [length be16]; lia). bind_done.
  rewrite (reads_pop_int16 _ Hsf) by (cbn [length be16]; lia). bind_done.
  rewrite (reads_pop_int16 _ Hqc) by (cbn [length be16]; lia). bind_done.
  rewrite (reads_pop_int16 _ Hac) by (cbn [length be16]; lia). bind_done.
  rewrite (reads_pop_int16 _ Huc) by (cbn [length be16]; lia). bind_done.
  rewrite (reads_pop_int16 _ Hdc) by (cbn [length be16]; lia). bind_done.
  cbn [length be16].
  rewrite (exhausted_fill_array zero_question 5 _ _ ltac:(lia)
             exhausted_interpret_question_entry) by lia.
  bind_done.
  unfold is_uint16 in Hqc, Hac, Huc, Hdc.
  rewrite (exhausted_interpret_rr _ Hac) by lia. bind_done.
  rewrite (exhausted_interpret_rr _ Huc) by lia. bind_done.
  rewrite (exhausted_interpret_rr _ Hdc) by lia. bind_done.
  destruct h as [i sf qc ac uc dc]. unfold header_only.
  cbn [id status_flags query_count answer_count authority_count
       additional_count] in *.
  do 3 f_equal. lia.
Qed.

(** X6.  A packet of just a header: with buffer_size 12 the decoder returns
    the header it read and, for each section, as many entries as the header
    counts declare (up to 65535 each), every one of zeros: no labels, type,
    class, ttl and data_size 0, no data.  The flag is left as it was when
    all four counts are 0 and set to 1 otherwise; the entries are returned
    all the same. *)
Theorem header_only_packet h tail error_flag :
  header_typed h ->
  interpret_question (wire_header h ++ tail) 12 error_flag
  = Done (header_only h,
          if 0 <? query_count h + answer_count h + authority_count h
                  + additional_count h
          then 1 else error_flag).
Proof.
  intros Hh. rewrite interpret_question_after_walk.
  rewrite (interpret_question_walk_header_only h tail 12 Hh) by lia.
  bind_done. cbn [c_buffer_size].
  destruct Hh as (_ & _ & Hqc & Hac & Huc & Hdc). unfold is_uint16 in *.
  destruct (Z.ltb_spec (- (5 * query_count h
                           + 11 * (answer_count h + authority_count h
                                   + additional_count h))) 0),
    (Z.ltb_spec 0 (query_count h + answer_count h + authority_count h
                   + additional_count h)); (reflexivity || lia).
Qed.

Lemma header_only_packet_witness :
  interpret_question
    (wire_header {| id := 7; status_flags := 0; query_count := 65535;
                    answer_count := 65535; authority_count := 65535;
                    additional_count := 65535 |} ++ []) 12 0
  = Done (header_only {| id := 7; status_flags := 0; query_count := 65535;
                         answer_count := 65535; authority_count := 65535;
                         additional_count := 65535 |}, 1).
Proof.
  apply (header_only_packet
           {| id := 7; status_flags := 0; query_count := 65535;
              answer_count := 65535; authority_count := 65535;
              additional_count := 65535 |} [] 0).
  unfold header_typed, is_uint16. cbn [id status_flags query_count answer_count
    authority_count additional_count]. lia.
Defined.

(** X7.  With a buffer_size of 0 or below (from which the twelve
    decrements of the header stay within [ssize_t]) nothing is read from the
    buffer: the decoder returns the message whose header fields are all 0
    and whose four sections are empty, and sets the flag to 1, whatever the
    buffer holds and whatever the flag was. *)
Theorem empty_packet_flagged buffer buffer_size error_flag :
  - 2 ^ 63 + 12 <= buffer_size <= 0 ->
  interpret_question buffer buffer_size error_flag
  = Done (header_only zero_header, 1).
Proof.
  intros Hn. unfold interpret_question, interpret_question_walk.
  do 6 (rewrite exhausted_pop_int16 by lia; bind_done).
  cbn [fill_array Z.to_nat]. bind_done.
  unfold interpret_rr. change (Z.to_nat (to_uint16 0)) with 0%nat.
  cbn [fill_array]. bind_done. cbn [c_buffer_size].
  destruct (Z.ltb_spec (buffer_size - 2 - 2 - 2 - 2 - 2 - 2) 0); [|lia].
  reflexivity.
Qed.

Lemma empty_packet_flagged_witness :
  interpret_question example_query_octets 0 0 = Done (header_only zero_header, 1).
Proof. apply (empty_packet_flagged example_query_octets 0 0). lia. Defined.

(** ** Names *)

(** X8.  [interpret_labels] returns from every buffer whose counter (below
    2^32, and not below -2^62) does not exceed it: its loop ends, at the latest when the counter
    is used up.  It returns at most (counter + 1) / 2 labels, each with a
    length from 1 to 255 and that many octets, sets labels_size to their
    number modulo 2^16, and takes 1 plus the sum of 1 + length over the
    labels off the counter. *)
Theorem interpret_labels_returns c :
  cursor_ok c -> - 2 ^ 62 <= c_buffer_size c < 2 ^ 32 ->
  exists ls c',
    interpret_labels c = Done (ls, to_uint16 (Z.of_nat (length ls)), c')
    /\ Forall label_valid ls
    /\ 2 * Z.of_nat (length ls) <= Z.max (c_buffer_size c) 0 + 1
    /\ c_buffer_size c' = c_buffer_size c - label_list_size ls
    /\ cursor_ok c'.
Proof.
  intros Hc [_ Hs].
  destruct (total_interpret_labels c Hc Hs) as ([ls sz] & c' & E & Hc' & _).
  pose proof (consumes_interpret_labels _ _ _ E) as Hn.
  pose proof (parses_interpret_labels _ _ _ E) as ((Hv & Hsz & Hb) & _).
  cbn [fst snd] in *. subst sz. exists ls, c'. auto.
Qed.

Lemma interpret_labels_returns_witness :
  exists ls c',
    interpret_labels
      {| c_buffer := wire_labels example_com_labels; c_buffer_size := 13 |}
    = Done (ls, to_uint16 (Z.of_nat (length ls)), c')
    /\ 2 * Z.of_nat (length ls) <= 14.
Proof.
  destruct (interpret_labels_returns
              {| c_buffer := wire_labels example_com_labels;
                 c_buffer_size := 13 |})
    as (ls & c' & E & _ & B & _).
  - unfold cursor_ok. vm_compute. discriminate.
  - cbn [c_buffer_size]. lia.
  - exists ls, c'. split; [exact E|exact B].
Defined.

(** X9.  labels_size is the number of labels modulo 2^16.  A name of k
    labels (k below 2^32) that is all within the counter is read back label
    by label with labels_size set to k mod 2^16: for a name of 65536 labels
    the decoder returns the 65536 labels and a labels_size of 0. *)
Theorem labels_size_modulo ls k buf n :
  Forall label_valid ls -> Z.of_nat (length ls) = k -> k < 2 ^ 32 ->
  Z.of_nat (length (wire_labels ls)) <= n ->
  interpret_labels {| c_buffer := wire_labels ls ++ buf; c_buffer_size := n |}
  = Done (ls, to_uint16 k,
          {| c_buffer := buf;
             c_buffer_size := n - Z.of_nat (length (wire_labels ls)) |}).
Proof.
  intros Hv Hk Hs Hn. unfold interpret_labels, wire_labels in *.
  rewrite <- app_assoc. cbn [app c_buffer_size].
  rewrite length_app in Hn. cbn [length] in Hn.
  assert (Hl : 2 * Z.of_nat (length ls)
               <= Z.of_nat (length (flat_map wire_label ls))).
  { clear - Hv. induction Hv as [|l ls [Hr Hz] _ IH]; [cbn; lia|].
    cbn [flat_map length]. rewrite length_app. unfold wire_label at 1.
    unfold label_sized in Hz. cbn [length]. lia. }
  rewrite (interpret_labels_loop_wire ls _ [] 0 buf n Hv) by lia.
  bind_done. rewrite length_app. cbn [length app].
  rewrite Z.add_0_l, Hk. do 3 f_equal. lia.
Qed.

Lemma labels_size_modulo_witness :
  interpret_labels
    {| c_buffer :=
         wire_labels (repeat {| name_size := 1; name := [byte.of_Z 97] |}
                        (Z.to_nat 65536)) ++ [];
       c_buffer_size := 131073 |}
  = Done (repeat {| name_size := 1; name := [byte.of_Z 97] |} (Z.to_nat 65536),
          0,
          {| c_buffer := [];
             c_buffer_size :=
               131073
               - Z.of_nat
                   (length
                      (wire_labels
                         (repeat {| name_size := 1; name := [byte.of_Z 97] |}
                            (Z.to_nat 65536)))) |}).
Proof.
  assert (Hv : forall n,
            Forall label_valid
              (repeat {| name_size := 1; name := [byte.of_Z 97] |} n)).
  { intros n. apply Forall_repeat. unfold label_valid, label_sized.
    cbn [name_size name length]. lia. }
  apply (labels_size_modulo
           (repeat {| name_size := 1; name := [byte.of_Z 97] |}
              (Z.to_nat 65536)) 65536 [] 131073).
  - apply Hv.
  - rewrite repeat_length. lia.
  - lia.
  - rewrite length_wire_labels
      by (eapply Forall_impl; [|apply Hv]; intros l [_ Hz]; exact Hz).
    unfold label_list_size. rewrite sum_of_repeat.
    cbn [name_size]. lia.
Defined.

(** X10.  Octets that follow a well-formed message are ignored.  For every
    structurally valid message of a computed size below 2^32, the decode of
    its encoding followed by any octets, with any buffer_size of at least
    the computed size, returns the message and leaves the flag as it
    was. *)
Theorem interpret_question_ignores_trailing heap m buffer size tail
    buffer_size error_flag :
  message_valid m -> compute_size m < 2 ^ 32 ->
  serialize_message heap m = Done (buffer, size) ->
  size <= buffer_size ->
  interpret_question (buffer ++ tail) buffer_size error_flag
  = Done (m, error_flag).
Proof.
  intros Hv Hs E Hn. unfold serialize_message in E.
  rewrite serialize_message_body_done in E by assumption.
  cbv beta iota delta [bind] in E. cbn [w_buffer] in E.
  assert (Hr : buffer = wire_message m /\ size = compute_size m)
    by (inversion E; auto).
  destruct Hr as (-> & ->). clear E.
  pose proof (length_wire_message m Hv) as Hl.
  rewrite interpret_question_after_walk.
  rewrite (reads_interpret_question_walk m Hv tail buffer_size) by lia.
  bind_done. cbn [c_buffer_size].
  destruct (Z.ltb_spec (buffer_size - Z.of_nat (length (wire_message m))) 0);
    [lia|reflexivity].
Qed.

Lemma interpret_question_ignores_trailing_witness :
  interpret_question (example_query_octets ++ octets_of [222; 173]) 31 0
  = Done (example_query, 0).
Proof.
  apply (interpret_question_ignores_trailing zero_heap example_query
           example_query_octets 29 (octets_of [222; 173]) 31 0).
  - exact example_query_valid.
  - vm_compute. reflexivity.
  - vm_compute. reflexivity.
  - lia.
Defined.

(** ** The encoder *)

(** X11.  [serialize_message] stays within the array it allocates, for every
    structurally valid message, also one of 2^32 octets and more: the size
    it computes is from 12 to below 2^43, so it fits [size_t] and [ssize_t];
    the array has that many octets, every store goes to a cell of the array,
    and the write index ends at the size modulo 2^32. *)
Theorem serialize_message_within_buffer heap m :
  message_valid m ->
  exists buffer index,
    serialize_message_body heap m
    = Done ({| w_buffer := buffer; w_index := index |}, compute_size m)
    /\ serialize_message heap m = Done (buffer, compute_size m)
    /\ Z.of_nat (length buffer) = compute_size m
    /\ index = to_uint (compute_size m)
    /\ 12 <= compute_size m < 2 ^ 43.
Proof.
  intros Hv. pose proof Hv as (Ht & Hc & _).
  pose proof (compute_size_bound m Ht Hc) as Hb.
  pose proof (length_wire_message m Hv) as Hl.
  pose proof (malloc_length heap (compute_size m) ltac:(lia)) as Hm.
  destruct (Z.lt_ge_cases (compute_size m) (2 ^ 32)) as [Hs|Hs].
  - exists (wire_message m), (compute_size m). unfold serialize_message.
    rewrite serialize_message_body_done by assumption. bind_done.
    cbn [w_buffer]. repeat split; try (exact Hl || lia).
    unfold to_uint. rewrite Z.mod_small by lia. reflexivity.
  - destruct (write_octets_wrapping (wire_message m)
                {| w_buffer := malloc heap (compute_size m); w_index := 0 |})
      as (buf' & E & L); cbn [w_index w_buffer] in *; try lia.
    exists buf', (to_uint (compute_size m)). unfold serialize_message.
    rewrite serialize_message_body_write by exact Hv.
    rewrite calc_message_size_eq by assumption. bind_done.
    rewrite E. bind_done. cbn [w_buffer]. rewrite Z.add_0_l, Hl.
    repeat split; try lia.
Qed.

Lemma serialize_message_within_buffer_witness :
  exists buffer index,
    serialize_message_body zero_heap big_message
    = Done ({| w_buffer := buffer; w_index := index |},
            compute_size big_message)
    /\ Z.of_nat (length buffer) = compute_size big_message
    /\ index = to_uint (compute_size big_message).
Proof.
  destruct (serialize_message_within_buffer zero_heap big_message
              big_message_valid) as (buffer & index & E & _ & L & I & _).
  exists buffer, index. auto.
Defined.

(** Writing the octets [bs] at any place of an array and reading from that
    place on. *)
Lemma write_then_read {A : Type} (rd : cursor -> outcome (A * cursor)) (a : A)
    bs buf idx n :
  reads rd a bs -> 0 <= idx ->
  idx + Z.of_nat (length bs) <= Z.of_nat (length buf) ->
  idx + Z.of_nat (length bs) < 2 ^ 32 -> Z.of_nat (length bs) <= n ->
  exists buf',
    write_octets bs {| w_buffer := buf; w_index := idx |}
    = Done {| w_buffer := buf'; w_index := idx + Z.of_nat (length bs) |}
    /\ length buf' = length buf
    /\ firstn (Z.to_nat idx) buf' = firstn (Z.to_nat idx) buf
    /\ rd {| c_buffer := skipn (Z.to_nat idx) buf'; c_buffer_size := n |}
       = Done (a, {| c_buffer := skipn (Z.to_nat idx + length bs) buf';
                     c_buffer_size := n - Z.of_nat (length bs) |}).
Proof.
  intros Hrd Hi Hl Hw Hn.
  exists (firstn (Z.to_nat idx) buf ++ bs
          ++ skipn (Z.to_nat idx + length bs) buf).
  assert (Hf : length (firstn (Z.to_nat idx) buf) = Z.to_nat idx)
    by (rewrite length_firstn; lia).
  split; [|split; [|split]].
  - rewrite write_octets_done by lia. unfold to_uint.
    rewrite Z.mod_small by lia. reflexivity.
  - rewrite !length_app, length_skipn, Hf. lia.
  - rewrite firstn_app, Hf, Nat.sub_diag, firstn_O, app_nil_r.
    apply firstn_all2. lia.
  - rewrite skipn_app, Hf, Nat.sub_diag, skipn_O, skipn_all2, app_nil_l by lia.
    rewrite (Hrd _ n Hn). do 3 f_equal.
    rewrite app_assoc.
    assert (Hg : length (firstn (Z.to_nat idx) buf ++ bs)
                 = (Z.to_nat idx + length bs)%nat)
      by (rewrite length_app, Hf; reflexivity).
    rewrite skipn_app, Hg, Nat.sub_diag, skipn_O.
    rewrite (skipn_all2 (firstn (Z.to_nat idx) buf ++ bs))
      by (rewrite Hg; lia).
    reflexivity.
Qed.

Lemma append_int16_to_uint16 v w : append_int16 v w = append_int16 (to_uint16 v) w.
Proof.
  unfold append_int16, to_uint16. rewrite Z.mod_mod by lia. reflexivity.
Qed.

Lemma append_int32_to_uint32 v w : append_int32 v w = append_int32 (to_uint32 v) w.
Proof.
  unfold append_int32, to_uint32. rewrite Z.mod_mod by lia. reflexivity.
Qed.

(** X12.  What [append_int16] writes at any index of an array, [pop_int16]
    reads back from there as the value modulo 2^16, two octets on, high
    octet first; the same for [append_int32] and [pop_int32] with 2^32 and
    four octets.  The octets before the index stay as they were. *)
Theorem integers_read_back v buf idx n :
  0 <= idx ->
  (idx + 2 <= Z.of_nat (length buf) -> idx + 2 < 2 ^ 32 -> 2 <= n ->
   exists buf',
     append_int16 v {| w_buffer := buf; w_index := idx |}
     = Done {| w_buffer := buf'; w_index := idx + 2 |}
     /\ length buf' = length buf
     /\ firstn (Z.to_nat idx) buf' = firstn (Z.to_nat idx) buf
     /\ pop_int16 {| c_buffer := skipn (Z.to_nat idx) buf'; c_buffer_size := n |}
        = Done (to_uint16 v,
                {| c_buffer := skipn (Z.to_nat idx + 2) buf';
                   c_buffer_size := n - 2 |}))
  /\ (idx + 4 <= Z.of_nat (length buf) -> idx + 4 < 2 ^ 32 -> 4 <= n ->
      exists buf',
        append_int32 v {| w_buffer := buf; w_index := idx |}
        = Done {| w_buffer := buf'; w_index := idx + 4 |}
        /\ length buf' = length buf
        /\ firstn (Z.to_nat idx) buf' = firstn (Z.to_nat idx) buf
        /\ pop_int32 {| c_buffer := skipn (Z.to_nat idx) buf';
                        c_buffer_size := n |}
           = Done (to_uint32 v,
                   {| c_buffer := skipn (Z.to_nat idx + 4) buf';
                      c_buffer_size := n - 4 |})).
Proof.
  intros Hi. split; intros Hl Hw Hn.
  - rewrite append_int16_to_uint16.
    rewrite append_int16_write by apply to_uint16_range.
    apply (write_then_read pop_int16 (to_uint16 v) (be16 (to_uint16 v)));
      try (cbn [be16 length]; lia).
    apply reads_pop_int16, to_uint16_range.
  - assert (Hr : is_uint32 (to_uint32 v))
      by (unfold is_uint32, to_uint32; apply Z.mod_pos_bound; lia).
    rewrite append_int32_to_uint32.
    rewrite append_int32_write by exact Hr.
    apply (write_then_read pop_int32 (to_uint32 v) (be32 (to_uint32 v)));
      try (cbn [be32 be16 length app]; lia).
    apply reads_pop_int32, Hr.
Qed.

Lemma integers_read_back_witness :
  exists buf',
    append_int16 0x12345 {| w_buffer := octets_of [9; 9; 9; 9]; w_index := 1 |}
    = Done {| w_buffer := buf'; w_index := 1 + 2 |}
    /\ pop_int16 {| c_buffer := skipn (Z.to_nat 1) buf'; c_buffer_size := 2 |}
       = Done (0x2345, {| c_buffer := skipn (Z.to_nat 1 + 2) buf';
                          c_buffer_size := 2 - 2 |}).
Proof.
  destruct (integers_read_back 0x12345 (octets_of [9; 9; 9; 9]) 1 2) as [H _];
    [lia|].
  destruct H as (buf' & E & _ & _ & R); [cbn; lia|lia|lia|].
  exists buf'. split; [exact E|exact R].
Defined.

(** X13.  A name written by [append_labels] at any index of an array is read
    back by [interpret_labels] from there, label for label, with the same
    labels_size; the write index advances by exactly the size
    [calc_labels_size] computes for the name, and the counter drops by the
    same amount. *)
Theorem labels_read_back labels labels_size buf idx n :
  labels_size = Z.of_nat (length labels) -> is_uint16 labels_size ->
  Forall label_valid labels ->
  0 <= idx -> idx + label_list_size labels <= Z.of_nat (length buf) ->
  idx + label_list_size labels < 2 ^ 32 -> label_list_size labels <= n ->
  calc_labels_size labels labels_size = Done (label_list_size labels)
  /\ exists buf',
       append_labels labels labels_size {| w_buffer := buf; w_index := idx |}
       = Done {| w_buffer := buf';
                 w_index := idx + label_list_size labels |}
       /\ length buf' = length buf
       /\ firstn (Z.to_nat idx) buf' = firstn (Z.to_nat idx) buf
       /\ interpret_labels
            {| c_buffer := skipn (Z.to_nat idx) buf'; c_buffer_size := n |}
          = Done (labels, labels_size,
                  {| c_buffer :=
                       skipn (Z.to_nat (idx + label_list_size labels)) buf';
                     c_buffer_size := n - label_list_size labels |}).
Proof.
  intros Hn Hu Hv Hi Hl Hw Hc.
  pose proof (Forall_label_valid_sized _ Hv) as Hz.
  pose proof (length_wire_labels labels Hz) as Hlen.
  assert (Ht : Forall label_typed labels).
  { eapply Forall_impl; [|exact Hv]. intros l [Hr _].
    unfold label_typed, is_uint8. change (2 ^ 8) with 256. lia. }
  pose proof (label_list_size_bound labels Ht) as Hb.
  split.
  - rewrite calc_labels_size_wrapped by assumption. f_equal.
    unfold to_size_t. apply Z.mod_small. unfold is_uint16 in Hu.
    change (2 ^ 16) with 65536 in Hu.
    change (2 ^ 64) with 18446744073709551616. lia.
  - rewrite append_labels_write by assumption.
    destruct (write_then_read interpret_labels (labels, labels_size)
                (wire_labels labels) buf idx n)
      as (buf' & E & L & F & R); try lia.
    { subst labels_size. apply reads_interpret_labels; [exact Hv|exact (proj2 Hu)]. }
    exists buf'. rewrite Hlen in E, R.
    split; [exact E|]. split; [exact L|]. split; [exact F|].
    replace (Z.to_nat (idx + label_list_size labels))
      with (Z.to_nat idx + length (wire_labels labels))%nat by lia.
    exact R.
Qed.

Lemma labels_read_back_witness :
  calc_labels_size example_com_labels 2 = Done 13
  /\ exists buf',
       append_labels example_com_labels 2
         {| w_buffer := repeat (byte.of_Z 255) 20; w_index := 3 |}
       = Done {| w_buffer := buf'; w_index := 16 |}
       /\ interpret_labels
            {| c_buffer := skipn (Z.to_nat 3) buf'; c_buffer_size := 13 |}
          = Done (example_com_labels, 2,
                  {| c_buffer := skipn (Z.to_nat 16) buf';
                     c_buffer_size := 0 |}).
Proof.
  destruct (labels_read_back example_com_labels 2
              (repeat (byte.of_Z 255) 20) 3 13)
    as (C & buf' & E & _ & _ & R).
  - reflexivity.
  - unfold is_uint16. lia.
  - unfold example_com_labels, label_valid, label_sized.
    repeat constructor; cbn [name_size name octets_of map length]; lia.
  - lia.
  - vm_compute. discriminate.
  - vm_compute. reflexivity.
  - vm_compute. discriminate.
  - split; [exact C|]. exists buf'. split; [exact E|exact R].
Defined.

(** X14.  A section of records written by [append_resource_records] at any
    index of an array is read back by [interpret_rr] from there, record for
    record; the write index advances by exactly the size
    [calc_resource_records_size] computes for the section, and the counter
    drops by the same amount. *)
Theorem resource_records_read_back rrs amount buf idx n :
  amount = Z.of_nat (length rrs) -> is_uint16 amount ->
  Forall rr_typed rrs -> Forall rr_counted rrs -> Forall rr_valid rrs ->
  0 <= idx -> idx + sum_of rr_size rrs <= Z.of_nat (length buf) ->
  idx + sum_of rr_size rrs < 2 ^ 32 -> sum_of rr_size rrs <= n ->
  calc_resource_records_size rrs amount = Done (sum_of rr_size rrs)
  /\ exists buf',
       append_resource_records rrs amount {| w_buffer := buf; w_index := idx |}
       = Done {| w_buffer := buf'; w_index := idx + sum_of rr_size rrs |}
       /\ length buf' = length buf
       /\ firstn (Z.to_nat idx) buf' = firstn (Z.to_nat idx) buf
       /\ interpret_rr amount
            {| c_buffer := skipn (Z.to_nat idx) buf'; c_buffer_size := n |}
          = Done (rrs,
                  {| c_buffer :=
                       skipn (Z.to_nat (idx + sum_of rr_size rrs)) buf';
                     c_buffer_size := n - sum_of rr_size rrs |}).
Proof.
  intros Hn Hu Ht Hc Hv Hi Hl Hw Hs.
  assert (Hlen : Z.of_nat (length (flat_map wire_rr rrs)) = sum_of rr_size rrs)
    by (apply length_flat_map_sum; eapply Forall_impl; [|exact Hv];
        apply length_wire_rr).
  pose proof (sum_of_rr_size_bound rrs amount Hn Hu Ht Hc) as Hb.
  split.
  - rewrite calc_resource_records_size_wrapped by assumption. f_equal.
    unfold to_size_t. apply Z.mod_small.
    change (2 ^ 64) with 18446744073709551616. lia.
  - rewrite append_resource_records_write by assumption.
    destruct (write_then_read (interpret_rr amount) rrs
                (flat_map wire_rr rrs) buf idx n)
      as (buf' & E & L & F & R); try lia.
    { apply reads_interpret_rr; assumption. }
    exists buf'. rewrite Hlen in E, R.
    split; [exact E|]. split; [exact L|]. split; [exact F|].
    replace (Z.to_nat (idx + sum_of rr_size rrs))
      with (Z.to_nat idx + length (flat_map wire_rr rrs))%nat by lia.
    exact R.
Qed.

Lemma resource_records_read_back_witness :
  calc_resource_records_size [flood_rr 2; flood_rr 0] 2 = Done 24
  /\ exists buf',
       append_resource_records [flood_rr 2; flood_rr 0] 2
         {| w_buffer := repeat (byte.of_Z 255) 30; w_index := 1 |}
       = Done {| w_buffer := buf'; w_index := 25 |}
       /\ interpret_rr 2
            {| c_buffer := skipn (Z.to_nat 1) buf'; c_buffer_size := 24 |}
          = Done ([flood_rr 2; flood_rr 0],
                  {| c_buffer := skipn (Z.to_nat 25) buf';
                     c_buffer_size := 0 |}).
Proof.
  destruct (resource_records_read_back [flood_rr 2; flood_rr 0] 2
              (repeat (byte.of_Z 255) 30) 1 24)
    as (C & buf' & E & _ & _ & R).
  - reflexivity.
  - unfold is_uint16. lia.
  - repeat constructor; apply flood_rr_typed; simpl; lia.
  - repeat constructor.
  - repeat constructor; apply flood_rr_valid.
  - lia.
  - vm_compute. discriminate.
  - vm_compute. reflexivity.
  - vm_compute. discriminate.
  - split; [exact C|]. exists buf'. split; [exact E|exact R].
Defined.

(** ** Status words *)

Lemma all_from_spec n P : forall z x,
  all_from n z P = true -> z <= x < z + Z.of_nat n -> P x = true.
Proof.
  induction n as [|n IH]; intros z x H Hx; [lia|].
  cbn [all_from] in H. apply andb_true_iff in H. destruct H as [H1 H2].
  destruct (Z.eq_dec x z) as [->|Hne]; [exact H1|].
  apply (IH (z + 1)); [exact H2|lia].
Qed.

Lemma all_status_words_ok :
  all_from (Z.to_nat 65536) 0 status_word_ok = true.
Proof. vm_cast_no_check (eq_refl true). Qed.

(** X15.  Decoding any 16-bit status word gives a qr, aa, tc, rd and ra of 0
    or 1 and an opcode and rcode from 0 to 15; encoding these seven values
    again gives the word with bits 6..4 cleared.  So a word whose bits 6..4
    are 0 is given back as it was, and the three reserved bits of any other
    word are lost. *)
Theorem status_flags_reencode word :
  is_uint16 word ->
  exists qr opcode aa tc rd ra rcode,
    decode_status_flags word = (qr, opcode, aa, tc, rd, ra, rcode)
    /\ 0 <= qr <= 1 /\ 0 <= opcode <= 15 /\ 0 <= aa <= 1 /\ 0 <= tc <= 1
    /\ 0 <= rd <= 1 /\ 0 <= ra <= 1 /\ 0 <= rcode <= 15
    /\ encode_status_flags qr opcode aa tc rd ra rcode = Z.land word 0xFF8F.
Proof.
  intros Hw. unfold is_uint16 in Hw. change (2 ^ 16) with 65536 in Hw.
  pose proof (all_from_spec _ _ 0 word all_status_words_ok ltac:(lia)) as H.
  unfold status_word_ok in H.
  destruct (decode_status_flags word)
    as [[[[[[qr opcode] aa] tc] rd] ra] rcode].
  exists qr, opcode, aa, tc, rd, ra, rcode.
  rewrite !andb_true_iff in H.
  destruct H as ((((((((((((((H1 & H2) & H3) & H4) & H5) & H6) & H7) & H8)
                      & H9) & H10) & H11) & H12) & H13) & H14) & H15).
  apply Z.leb_le in H1, H2, H3, H4, H5, H6, H7, H8, H9, H10, H11, H12, H13, H14.
  apply Z.eqb_eq in H15. auto 20.
Qed.

Lemma status_flags_reencode_witness :
  exists qr opcode aa tc rd ra rcode,
    decode_status_flags 0x8170 = (qr, opcode, aa, tc, rd, ra, rcode)
    /\ encode_status_flags qr opcode aa tc rd ra rcode = 0x8100.
Proof.
  destruct (status_flags_reencode 0x8170)
    as (qr & opcode & aa & tc & rd & ra & rcode & D & _ & _ & _ & _ & _ & _
        & _ & E).
  - unfold is_uint16. lia.
  - exists qr, opcode, aa, tc, rd, ra, rcode. split; [exact D|exact E].
Defined.

(** X16.  [is_truncated] of a message whose status word was made by
    [encode_status_flags] is the tc the word was made of, for all field
    values in their ranges. *)
Theorem is_truncated_of_encoded m qr opcode aa tc rd ra rcode :
  0 <= qr <= 1 -> 0 <= opcode <= 15 -> 0 <= aa <= 1 -> 0 <= tc <= 1 ->
  0 <= rd <= 1 -> 0 <= ra <= 1 -> 0 <= rcode <= 15 ->
  is_truncated
    (with_status_flags m (encode_status_flags qr opcode aa tc rd ra rcode))
  = tc.
Proof.
  intros Hqr Hop Haa Htc Hrd Hra Hrc.
  destruct (status_flags_ok_sound _ _ _ _ _ _ _ _
              (status_flags_ok_in_range qr opcode aa tc rd ra rcode
                 Hqr Hop Haa Htc Hrd Hra Hrc)) as (D & _ & U & _).
  unfold is_truncated. cbn [with_status_flags header status_flags].
  unfold decode_status_flags in D. rewrite (to_uint16_small _ U) in D.
  congruence.
Qed.

Lemma is_truncated_of_encoded_witness :
  is_truncated (with_status_flags example_query
                  (encode_status_flags 1 0 1 1 0 0 3)) = 1.
Proof.
  apply (is_truncated_of_encoded example_query 1 0 1 1 0 0 3); lia.
Defined.

(** ** The octets of the output *)

(** X17.  For every structurally valid message of a computed size below 2^32
    the output of [serialize_message] is the wire format of the message: the
    six header fields as 16-bit big-endian values, then the questions, the
    answers, the authorities and the additionals in this order, each name as
    length-prefixed labels closed by a zero octet.  No octet of the
    allocated memory is left in the output: it is the same whatever the
    memory held. *)
Theorem serialize_message_wire_format heap m :
  message_valid m -> compute_size m < 2 ^ 32 ->
  serialize_message heap m = Done (wire_message m, compute_size m)
  /\ (forall heap', serialize_message heap' m = serialize_message heap m)
  /\ wire_message m
     = be16 (id (header m)) ++ be16 (status_flags (header m))
       ++ be16 (query_count (header m)) ++ be16 (answer_count (header m))
       ++ be16 (authority_count (header m))
       ++ be16 (additional_count (header m))
       ++ flat_map (fun q => flat_map wire_label (q_labels q) ++ [byte.of_Z 0]
                             ++ be16 (q_type q) ++ be16 (q_class q))
            (questions m)
       ++ flat_map wire_rr (answers m) ++ flat_map wire_rr (authorities m)
       ++ flat_map wire_rr (additionals m).
Proof.
  intros Hv Hs.
  assert (H : forall h, serialize_message h m
                        = Done (wire_message m, compute_size m)).
  { intros h. unfold serialize_message.
    rewrite serialize_message_body_done by assumption. reflexivity. }
  split; [apply H|]. split; [intros heap'; rewrite !H; reflexivity|].
  unfold wire_message, wire_header. rewrite <- !app_assoc.
  do 6 f_equal. f_equal. apply flat_map_ext. intros q.
  unfold wire_question, wire_labels. rewrite <- !app_assoc. reflexivity.
Qed.

Lemma serialize_message_wire_format_witness :
  serialize_message (fun _ => byte.of_Z 255) example_query
  = Done (wire_message example_query, compute_size example_query).
Proof.
  apply (serialize_message_wire_format (fun _ => byte.of_Z 255) example_query).
  - exact example_query_valid.
  - vm_compute. reflexivity.
Defined.

(** X18.  Past 4 GiB the write index wraps and the encoder writes over the
    start of its own output.  For every structurally valid message with a
    computed size from 2^32 to below 2^33, the output begins with the octets
    of the wire format from offset 2^32 on, where the header should be, and
    the write index ends at the size minus 2^32. *)
Theorem serialize_message_overwrites_start heap m :
  message_valid m -> 2 ^ 32 <= compute_size m < 2 ^ 33 ->
  exists rest,
    serialize_message_body heap m
    = Done ({| w_buffer := skipn (Z.to_nat (2 ^ 32)) (wire_message m) ++ rest;
               w_index := compute_size m - 2 ^ 32 |}, compute_size m).
Proof.
  intros Hv Hs. pose proof (length_wire_message m Hv) as Hl.
  change (2 ^ 33) with (2 ^ 32 + 2 ^ 32) in Hs.
  destruct (serialize_message_body_wrapped heap m
              (firstn (Z.to_nat (2 ^ 32)) (wire_message m))
              (skipn (Z.to_nat (2 ^ 32)) (wire_message m)) Hv)
    as (rest & E).
  - symmetry. apply firstn_skipn.
  - rewrite length_firstn. lia.
  - rewrite length_skipn. lia.
  - exists rest. rewrite E. do 3 f_equal. rewrite length_skipn. lia.
Qed.

Lemma serialize_message_overwrites_start_witness :
  exists rest,
    serialize_message_body zero_heap big_message
    = Done ({| w_buffer := skipn (Z.to_nat (2 ^ 32)) (wire_message big_message)
                           ++ rest;
               w_index := compute_size big_message - 2 ^ 32 |},
            compute_size big_message).
Proof.
  apply (serialize_message_overwrites_start zero_heap big_message).
  - exact big_message_valid.
  - rewrite compute_size_big_message. lia.
Defined.

(** ** Canonical encodings *)



(** X20.  The encoding is unambiguous: two structurally valid messages of
    computed sizes below 2^32 for which [serialize_message] gives the same
    octets are the same message, whatever the allocated memory held in
    either call. *)
Theorem serialize_message_injective heap heap' m m' buffer size size' :
  message_valid m -> compute_size m < 2 ^ 32 ->
  message_valid m' -> compute_size m' < 2 ^ 32 ->
  serialize_message heap m = Done (buffer, size) ->
  serialize_message heap' m' = Done (buffer, size') ->
  m = m' /\ size = size'.
Proof.
  intros Hv Hs Hv' Hs' E E'. unfold serialize_message in E, E'.
  rewrite serialize_message_body_done in E, E' by assumption.
  cbv beta iota delta [bind] in E, E'. cbn [w_buffer] in E, E'.
  assert (Hr : buffer = wire_message m /\ size = compute_size m)
    by (inversion E; auto).
  assert (Hr' : buffer = wire_message m' /\ size' = compute_size m')
    by (inversion E'; auto).
  destruct Hr as (Hb & ->), Hr' as (Hb' & ->). clear E E'.
  pose proof (length_wire_message m Hv) as Hl.
  pose proof (length_wire_message m' Hv') as Hl'.
  assert (Hsize : compute_size m = compute_size m') by congruence.
  pose proof (interpret_question_done buffer (compute_size m) 0 m Hv Hb
                eq_refl) as D.
  pose proof (interpret_question_done buffer (compute_size m) 0 m' Hv' Hb'
                Hsize) as D'.
  split; [congruence|exact Hsize].
Qed.

Lemma serialize_message_injective_witness :
  example_query = example_query /\ 29 = 29.
Proof.
  apply (serialize_message_injective zero_heap (fun _ => byte.of_Z 255)
           example_query example_query example_query_octets 29 29).
  - exact example_query_valid.
  - vm_compute. reflexivity.
  - exact example_query_valid.
  - vm_compute. reflexivity.
  - vm_compute. reflexivity.
  - vm_compute. reflexivity.
Defined.

(** ** The malformed flag and the declared structure *)

(** What a decode returns for a buffer whose octets are all present. *)
Lemma interpret_question_settled buffer buffer_size :
  - 2 ^ 62 <= buffer_size <= Z.of_nat (length buffer) -> buffer_size < 2 ^ 32 ->
  exists message c,
    interpret_question_walk
      {| c_buffer := buffer; c_buffer_size := buffer_size |}
    = Done (message, c)
    /\ message_read buffer_size message
    /\ c_buffer_size c = buffer_size - compute_size message
    /\ - 2 ^ 63 < c_buffer_size c
    /\ (forall error_flag,
          interpret_question buffer buffer_size error_flag
          = Done (message, if c_buffer_size c <? 0 then 1 else error_flag))
    /\ (0 <= c_buffer_size c -> buffer = wire_message message ++ c_buffer c).
Proof.
  intros Hb Hs.
  destruct (total_interpret_question_walk
              {| c_buffer := buffer; c_buffer_size := buffer_size |})
    as (message & c & E & _ & _);
    [unfold cursor_ok; cbn [c_buffer c_buffer_size]; lia|exact Hs|].
  exists message, c. split; [exact E|].
  pose proof (consumes_interpret_question_walk _ _ _ E) as Hc.
  pose proof (lowered_interpret_question_walk _ _ _ E) as Hl.
  pose proof (parses_interpret_question_walk _ _ _ E) as (R & _ & P).
  cbn [c_buffer c_buffer_size] in *.
  split; [exact R|]. split; [exact Hc|].
  split; [change (2 ^ 34) with 17179869184 in Hl;
          change (2 ^ 62) with 4611686018427387904 in Hb;
          change (2 ^ 63) with 9223372036854775808; lia|].
  split.
  - intros error_flag. rewrite interpret_question_after_walk, E. reflexivity.
  - intros H0. apply (P H0).
Qed.

(** C2.  Decoding a buffer (of less than 2^32 octets, all of them present,
    with a buffer_size from which the counter stays within [ssize_t])
    returns after the walk over the whole declared structure: the message
    has the header the walk read and, in each of the four sections, as many
    entries as the header count declares, and the walk took the computed
    size of that message (12, plus what its counts and length fields
    declare) off the counter.  The flag is decided by the final counter
    alone, after the walk: it is left at 1 exactly when the counter ended
    negative, which is exactly when buffer_size is below that computed
    size.  When the counter ended at 0 or above the octets consumed are the
    wire form of the message, and decoding any shorter part of the buffer
    sets the flag; so does decoding any proper prefix of the encoding of a
    valid message, while decoding the whole encoding leaves the flag as it
    was. *)
Theorem malformed_iff_counter_negative :
  (forall buffer buffer_size,
     - 2 ^ 62 <= buffer_size <= Z.of_nat (length buffer) ->
     buffer_size < 2 ^ 32 ->
     exists message c,
       interpret_question_walk
         {| c_buffer := buffer; c_buffer_size := buffer_size |}
       = Done (message, c)
       /\ message_read buffer_size message
       /\ c_buffer_size c = buffer_size - compute_size message
       /\ - 2 ^ 63 < c_buffer_size c
       /\ (forall error_flag,
             interpret_question buffer buffer_size error_flag
             = Done (message, if c_buffer_size c <? 0 then 1 else error_flag))
       /\ (interpret_question buffer buffer_size 0 = Done (message, 1)
           <-> c_buffer_size c < 0)
       /\ (interpret_question buffer buffer_size 0 = Done (message, 0)
           <-> 0 <= c_buffer_size c)
       /\ (c_buffer_size c < 0 <-> buffer_size < compute_size message)
       /\ (0 <= c_buffer_size c ->
           buffer = wire_message message ++ c_buffer c))
  /\ (forall buffer buffer_size message c k error_flag,
        buffer_size <= Z.of_nat (length buffer) ->
        interpret_question_walk
          {| c_buffer := buffer; c_buffer_size := buffer_size |}
        = Done (message, c) ->
        0 <= c_buffer_size c ->
        0 <= k < buffer_size - c_buffer_size c -> k < 2 ^ 32 ->
        exists message',
          interpret_question (firstn (Z.to_nat k) buffer) k error_flag
          = Done (message', 1))
  /\ (forall heap m buffer buffer_size k error_flag,
        message_valid m -> compute_size m < 2 ^ 32 ->
        serialize_message heap m = Done (buffer, buffer_size) ->
        0 <= k < buffer_size ->
        exists message,
          interpret_question (firstn (Z.to_nat k) buffer) k error_flag
          = Done (message, 1))
  /\ (forall heap m buffer buffer_size error_flag,
        message_valid m -> compute_size m < 2 ^ 32 ->
        serialize_message heap m = Done (buffer, buffer_size) ->
        interpret_question buffer buffer_size error_flag
        = Done (m, error_flag)).
Proof.
  split; [|split; [exact interpret_question_shortened
                  |split; [exact interpret_question_truncated|]]].
  - intros buffer buffer_size Hb Hs.
    destruct (interpret_question_settled buffer buffer_size Hb Hs)
      as (message & c & Ew & R & Hc & Hl & E & P).
    exists message, c.
    do 4 (split; [assumption|]). split; [exact E|].
    rewrite !E.
    destruct (Z.ltb_spec (c_buffer_size c) 0) as [Hn|Hn];
      repeat split; intros Hx; try reflexivity; try lia; try discriminate;
      try (apply P; lia).
  - intros heap m buffer buffer_size error_flag Hv Hs E.
    unfold serialize_message in E.
    rewrite serialize_message_body_done in E by assumption.
    cbv beta iota delta [bind] in E. cbn [w_buffer] in E.
    assert (Hr : buffer = wire_message m /\ buffer_size = compute_size m)
      by (inversion E; auto).
    destruct Hr as (-> & ->).
    apply interpret_question_done; auto.
Qed.

Lemma malformed_iff_counter_negative_witness :
  (exists message c,
     interpret_question_walk
       {| c_buffer := firstn 28 example_query_octets; c_buffer_size := 28 |}
     = Done (message, c)
     /\ (interpret_question (firstn 28 example_query_octets) 28 0
         = Done (message, 1) <-> c_buffer_size c < 0)
     /\ (c_buffer_size c < 0 <-> 28 < compute_size message))
  /\ (exists message,
        interpret_question (firstn (Z.to_nat 20) example_query_octets) 20 0
        = Done (message, 1))
  /\ (exists message,
        interpret_question (firstn (Z.to_nat 12) example_query_octets) 12 0
        = Done (message, 1))
  /\ interpret_question example_query_octets 29 0 = Done (example_query, 0).
Proof.
  destruct malformed_iff_counter_negative as (H1 & H2 & H3 & H4).
  split; [|split; [|split]].
  - destruct (H1 (firstn 28 example_query_octets) 28)
      as (message & c & Ew & _ & _ & _ & _ & F1 & _ & F3 & _).
    + simpl. lia.
    + lia.
    + exists message, c. split; [exact Ew|]. split; [exact F1|exact F3].
  - apply (H2 example_query_octets 29 example_query
              {| c_buffer := []; c_buffer_size := 0 |} 20 0).
    + simpl. lia.
    + vm_compute. reflexivity.
    + simpl. lia.
    + simpl. lia.
    + lia.
  - apply (H3 zero_heap example_query example_query_octets 29 12 0).
    + exact example_query_valid.
    + reflexivity.
    + vm_compute. reflexivity.
    + lia.
  - apply (H4 zero_heap example_query example_query_octets 29 0).
    + exact example_query_valid.
    + reflexivity.
    + vm_compute. reflexivity.
Defined.

(** C10.  The decode writes the caller's flag only when the counter ended
    negative, and then writes 1; when the counter ended at 0 or above the flag
    keeps the value it had, whatever that was: it is not cleared.  This for
    every buffer_size from which the counter stays within [ssize_t].  With a
    stale 1 in the flag a well-formed packet and a truncated one both leave 1
    behind. *)
Theorem error_flag_written_only_when_negative :
  (forall buffer buffer_size error_flag,
     - 2 ^ 62 <= buffer_size <= Z.of_nat (length buffer) ->
     buffer_size < 2 ^ 32 ->
     exists message c,
       interpret_question_walk
         {| c_buffer := buffer; c_buffer_size := buffer_size |}
       = Done (message, c)
       /\ - 2 ^ 63 < c_buffer_size c <= buffer_size
       /\ (c_buffer_size c < 0 ->
           interpret_question buffer buffer_size error_flag = Done (message, 1))
       /\ (0 <= c_buffer_size c ->
           interpret_question buffer buffer_size error_flag
           = Done (message, error_flag)))
  /\ interpret_question example_query_octets 29 1 = Done (example_query, 1)
  /\ (exists message,
        interpret_question (firstn 28 example_query_octets) 28 1
        = Done (message, 1)).
Proof.
  split; [|split].
  - intros buffer buffer_size error_flag Hb Hs.
    destruct (interpret_question_settled buffer buffer_size Hb Hs)
      as (message & c & Ew & R & Hc & Hl & E & _).
    pose proof (message_read_size _ _ R) as Hz.
    destruct R as ((_ & _ & Hq & Ha & Hu & Hd) & _). unfold is_uint16 in *.
    exists message, c. split; [exact Ew|]. split; [lia|]. rewrite E.
    destruct (Z.ltb_spec (c_buffer_size c) 0) as [Hn|Hn]; split; intros Hx;
      try reflexivity; lia.
  - vm_compute. reflexivity.
  - eexists. vm_compute. reflexivity.
Qed.

Lemma error_flag_written_only_when_negative_witness :
  exists message c,
    interpret_question_walk
      {| c_buffer := example_query_octets; c_buffer_size := 29 |}
    = Done (message, c)
    /\ - 2 ^ 63 < c_buffer_size c <= 29
    /\ (c_buffer_size c < 0 ->
        interpret_question example_query_octets 29 7 = Done (message, 1))
    /\ (0 <= c_buffer_size c ->
        interpret_question example_query_octets 29 7 = Done (message, 7)).
Proof.
  destruct error_flag_written_only_when_negative as (H & _).
  apply (H example_query_octets 29 7).
  - simpl. lia.
  - lia.
Defined.
